(** * OptimizationLab: brute-force TSP and 0/1 knapsack

    A shallow embedding of the two notebooks of the repository:

    - the travelling-salesman notebook, which walks over
      [itertools.permutations(range(1, N))], closes every permutation into a
      route through city 0 and keeps the cheapest one;
    - [fuerza_bruta/mochila.ipynb], which sorts the items by gain/weight
      ratio and then walks over the [1 << N] bit patterns, keeping the most
      valuable pattern that fits the capacity.

    Python exceptions are modelled by a small error monad.  The numbers are
    modelled as the code has them:

    - module [TSP] is the route cell on an [int64] array, the dtype of the
      notebook's matrix: [np.sum] wraps modulo [2^64]; module [TSPf] is the
      same cell on a [float64] array, with binary64 arithmetic;
    - module [MochilaPy] is the knapsack notebook on Python's own numbers,
      unbounded [int] and binary64 [float], with the exceptions of their
      arithmetic;
    - module [Mochila] is the knapsack notebook on exact rationals ([Q]),
      the arithmetic of the specification's reals; on integer data the
      enumeration of [MochilaPy] computes the same totals. *)

From Stdlib Require Import List Arith ZArith QArith Lia Lqa Bool.
From Stdlib Require Import Permutation Sorted Floats.
Import ListNotations.

Close Scope Q_scope.
Open Scope nat_scope.

Set Warnings "-inexact-float".

(** ** Exceptions *)

(** The exceptions the notebooks can raise on lists of numbers: a lookup
    out of range, a division by zero, [sorted(None)], and an integer or a
    quotient of integers too large for a [float]. *)
Inductive exception : Type :=
| IndexError
| ZeroDivisionError
| TypeError
| OverflowError.

Inductive exc (A : Type) : Type :=
| Ok (a : A)
| Raise (e : exception).

Arguments Ok {A} a.
Arguments Raise {A} e.

Definition bind {A B : Type} (c : exc A) (k : A -> exc B) : exc B :=
  match c with
  | Ok a => k a
  | Raise e => Raise e
  end.

Notation "x <- c ;; k" := (bind c (fun x => k))
  (at level 61, c at next level, right associativity).
Notation "' pat <- c ;; k" := (bind c (fun x => match x with pat => k end))
  (at level 61, pat pattern, c at next level, right associativity).

(** [l[i]] on a Python list (or one axis of a numpy array), for [i >= 0]. *)
Definition getitem {A : Type} (l : list A) (i : nat) : exc A :=
  match nth_error l i with
  | Some a => Ok a
  | None => Raise IndexError
  end.

(** A comprehension / vectorised lookup whose element expression can raise:
    the elements are evaluated from left to right and the first exception
    leaves the whole expression. *)
Fixpoint mapM {A B : Type} (f : A -> exc B) (l : list A) : exc (list B) :=
  match l with
  | [] => Ok []
  | a :: r => b <- f a ;; bs <- mapM f r ;; Ok (b :: bs)
  end.

(** A [for] loop without [break] whose body can raise. *)
Fixpoint foldM {A S : Type} (body : S -> A -> exc S) (l : list A) (s : S)
  : exc S :=
  match l with
  | [] => Ok s
  | a :: r => s' <- body s a ;; foldM body r s'
  end.

(** ** itertools.permutations *)

(** Every element of [l] together with the list of the others, by position. *)
Fixpoint selecciones {A : Type} (l : list A) : list (A * list A) :=
  match l with
  | [] => []
  | x :: r => (x, r) :: map (fun yr => (fst yr, x :: snd yr)) (selecciones r)
  end.

(** [permutations(l)] yields the orderings of [l] position by position:
    first all those starting with [l[0]], then those starting with [l[1]],
    and so on (lexicographic in the positions).  [n] is the number of
    elements still to place. *)
Fixpoint permutations_aux {A : Type} (n : nat) (l : list A)
  : list (list A) :=
  match n with
  | O => [[]]
  | S n' =>
      flat_map (fun xr => map (cons (fst xr)) (permutations_aux n' (snd xr)))
               (selecciones l)
  end.

Definition permutations {A : Type} (l : list A) : list (list A) :=
  permutations_aux (length l) l.

(** [range(a, b)] *)
Definition range (a b : nat) : list nat := seq a (b - a).

(** ** The travelling-salesman notebook *)

Module TSP.

(** [distancias]: a two-dimensional [int64] array, row by row, as
    [np.array] makes it from nested lists of Python integers that fit. *)
Definition matriz := list (list Z).

(** What a 64-bit signed integer keeps of an integer: its value modulo
    [2^64], in [[-2^63, 2^63)]. *)
Definition int64 (z : Z) : Z := ((z + 2 ^ 63) mod 2 ^ 64 - 2 ^ 63)%Z.

(** [np.sum] on a one-dimensional [int64] array: the running total wraps. *)
Definition np_sum (l : list Z) : Z :=
  fold_left (fun acc x => int64 (acc + x)) l 0%Z.

(** [float('inf')] or a computed total. *)
Inductive coste : Type :=
| Finito (z : Z)
| Infinito.

(** [distancia_total < distancia_minima]: an [int64] total is below
    [float('inf')], and two [int64] totals compare as integers. *)
Definition menor (total : Z) (minima : coste) : bool :=
  match minima with
  | Infinito => true
  | Finito m => (total <? m)%Z
  end.

(** [distancias[i, j]] *)
Definition celda (distancias : matriz) (ij : nat * nat) : exc Z :=
  fila <- getitem distancias (fst ij) ;; getitem fila (snd ij).

(** [ruta = (0,) + permutacion + (0,)] *)
Definition ruta_de (permutacion : list nat) : list nat :=
  0 :: permutacion ++ [0].

(** [np.sum(distancias[np.array(ruta[:-1]), np.array(ruta[1:])])] *)
Definition distancia_total (distancias : matriz) (ruta : list nat) : exc Z :=
  tramos <- mapM (celda distancias) (combine (removelast ruta) (tl ruta)) ;;
  Ok (np_sum tramos).

(** The loop variables [mejor_ruta] and [distancia_minima]. *)
Record estado : Type := Estado {
  mejor_ruta : option (list nat);
  distancia_minima : coste
}.

Definition inicial : estado := Estado None Infinito.

(** One iteration of the loop over the permutations. *)
Definition paso (distancias : matriz) (st : estado) (permutacion : list nat)
  : exc estado :=
  let ruta := ruta_de permutacion in
  total <- distancia_total distancias ruta ;;
  if menor total (distancia_minima st)
  then Ok (Estado (Some ruta) (Finito total))
  else Ok st.

(** The whole cell: [N = len(distancias)], then the loop. *)
Definition resolver (distancias : matriz) : exc estado :=
  let N := length distancias in
  foldM (paso distancias) (permutations (range 1 N)) inicial.

(** The matrix of the notebook. *)
Definition ejemplo : matriz :=
  [ [0; 10; 15; 20];
    [10; 0; 35; 25];
    [15; 35; 0; 30];
    [20; 25; 30; 0] ]%Z.

End TSP.

(** ** The same cell on a [float64] array *)

Module TSPf.

(** [distancias]: a two-dimensional [float64] array, row by row. *)
Definition matriz := list (list float).

(** [np.sum] on a one-dimensional [float64] array is numpy's pairwise
    summation.  Fewer than 8 numbers are added one by one, from [-0.0]. *)
Definition suma_corta (l : list float) : float :=
  fold_left PrimFloat.add l (-0)%float.

(** From 8 to 128 numbers: eight running sums over the positions modulo 8,
    added up as a tree, and then the numbers beyond the last multiple
    of 8, one by one. *)
Fixpoint acumular8 (vueltas : nat) (r l : list float)
  : list float * list float :=
  match vueltas with
  | O => (r, l)
  | S v =>
      acumular8 v (map (fun rx => PrimFloat.add (fst rx) (snd rx))
                       (combine r (firstn 8 l)))
                (skipn 8 l)
  end.

Definition suma_bloque (l : list float) : float :=
  let n := length l in
  let '(r, resto) := acumular8 (n / 8 - 1) (firstn 8 l) (skipn 8 l) in
  let r_ k := nth k r 0%float in
  let res :=
    PrimFloat.add
      (PrimFloat.add (PrimFloat.add (r_ 0) (r_ 1))
                     (PrimFloat.add (r_ 2) (r_ 3)))
      (PrimFloat.add (PrimFloat.add (r_ 4) (r_ 5))
                     (PrimFloat.add (r_ 6) (r_ 7))) in
  fold_left PrimFloat.add resto res.

(** More than 128 numbers: the two parts, cut at a multiple of 8 near the
    middle, are summed on their own.  [vueltas] bounds the depth. *)
Fixpoint suma_pares (vueltas : nat) (l : list float) : float :=
  let n := length l in
  if n <? 8 then suma_corta l
  else if n <=? 128 then suma_bloque l
  else
    match vueltas with
    | O => suma_bloque l
    | S v =>
        let n2 := n / 2 - (n / 2) mod 8 in
        (suma_pares v (firstn n2 l) + suma_pares v (skipn n2 l))%float
    end.

(** The reduction starts from the identity [0.0]. *)
Definition np_sum (l : list float) : float :=
  (0 + suma_pares (length l) l)%float.

(** [distancias[i, j]] *)
Definition celda (distancias : matriz) (ij : nat * nat) : exc float :=
  fila <- getitem distancias (fst ij) ;; getitem fila (snd ij).

(** [np.sum(distancias[np.array(ruta[:-1]), np.array(ruta[1:])])] *)
Definition distancia_total (distancias : matriz) (ruta : list nat)
  : exc float :=
  tramos <- mapM (celda distancias) (combine (removelast ruta) (tl ruta)) ;;
  Ok (np_sum tramos).

(** The loop variables; [distancia_minima] starts as [float('inf')]. *)
Record estado : Type := Estado {
  mejor_ruta : option (list nat);
  distancia_minima : float
}.

Definition inicial : estado := Estado None infinity.

(** One iteration; [<] is the comparison of binary64 numbers. *)
Definition paso (distancias : matriz) (st : estado) (permutacion : list nat)
  : exc estado :=
  let ruta := TSP.ruta_de permutacion in
  total <- distancia_total distancias ruta ;;
  if (total <? distancia_minima st)%float
  then Ok (Estado (Some ruta) total)
  else Ok st.

Definition resolver (distancias : matriz) : exc estado :=
  let N := length distancias in
  foldM (paso distancias) (permutations (range 1 N)) inicial.

(** A valid matrix whose only total is infinite. *)
Definition enorme : matriz := [ [0; 1e308]; [1e308; 0] ]%float.

(** A symmetric matrix on which a route and its reverse get two totals. *)
Definition redondeada : matriz :=
  [ [0; 0.1; 0.3]; [0.1; 0; 0.2]; [0.3; 0.2; 0] ]%float.

End TSPf.

(** The cost of a route as the specification words it: the sum of
    [distancias[R[k]][R[k+1]]] over the route positions [k] in [[0, n)].
    Missing cells count as [0]; on a square matrix none is missing. *)
Definition distancia (distancias : TSP.matriz) (i j : nat) : Z :=
  nth j (nth i distancias []) 0%Z.

Definition coste_tramos (distancias : TSP.matriz) (R : list nat) (n : nat)
  : Z :=
  fold_right Z.add 0%Z
    (map (fun k => distancia distancias (nth k R 0) (nth (S k) R 0))
         (seq 0 n)).

(** The cost of the closed route of a permutation: all [N] of its legs. *)
Definition coste_cerrado (distancias : TSP.matriz) (p : list nat) : Z :=
  coste_tramos distancias (TSP.ruta_de p) (length distancias).

(** The cost with the legs [k] in [[0, N-1)] only. *)
Definition coste_abierto (distancias : TSP.matriz) (p : list nat) : Z :=
  coste_tramos distancias (TSP.ruta_de p) (length distancias - 1).

(** The total the cell computes for the closed route of a permutation: the
    cost, wrapped to 64 bits. *)
Definition total_calculado (distancias : TSP.matriz) (p : list nat) : Z :=
  TSP.int64 (coste_cerrado distancias p).

(** Entries between 0 and [M], with [N * M] below [2^63]: no total of [N]
    legs leaves the [int64] range. *)
Definition acotada (M : Z) (distancias : TSP.matriz) : Prop :=
  Forall (Forall (fun z => (0 <= z <= M)%Z)) distancias /\
  (M * Z.of_nat (length distancias) < 2 ^ 63)%Z.

(** A square matrix with [N] rows. *)
Definition cuadrada (distancias : TSP.matriz) : Prop :=
  Forall (fun fila => length fila = length distancias) distancias.

(** A matrix whose rows all have at least [N] entries: every cell the loop
    reads is there. *)
Definition ancha (distancias : TSP.matriz) : Prop :=
  Forall (fun fila => length distancias <= length fila) distancias.

(** A DistanceMatrix of the specification: square, of size [N >= 1], with
    non-negative entries and a zero diagonal. *)
Definition matriz_valida (distancias : TSP.matriz) : Prop :=
  cuadrada distancias /\ distancias <> [] /\
  Forall (Forall (fun z => (0 <= z)%Z)) distancias /\
  (forall i, i < length distancias -> distancia distancias i i = 0%Z).

(** [c] is the minimum of [f] over the permutations of [{1..N-1}]. *)
Definition es_minimo (f : list nat -> Z) (N : nat) (c : Z) : Prop :=
  (exists p, Permutation (range 1 N) p /\ f p = c) /\
  (forall q, Permutation (range 1 N) q -> (c <= f q)%Z).

(** Some entry is negative. *)
Definition tiene_negativo (distancias : TSP.matriz) : bool :=
  existsb (existsb (fun z => (z <? 0)%Z)) distancias.

(** Lexicographic order on tuples of city indices. *)
Inductive lex_lt : list nat -> list nat -> Prop :=
| lex_nil : forall y q, lex_lt [] (y :: q)
| lex_head : forall x y p q, x < y -> lex_lt (x :: p) (y :: q)
| lex_tail : forall x p q, lex_lt p q -> lex_lt (x :: p) (x :: q).

(** ** The knapsack notebook in exact arithmetic *)

(** The notebook with rationals for its numbers: sums and comparisons are
    exact and a division fails on a zero divisor only.  This is what the
    cells compute as long as nothing is rounded and no quotient leaves the
    range of [float], on integers in particular; [MochilaPy] below has
    Python's own numbers. *)
Module Mochila.

(** An element of [objetos]: [(P[i], W[i], i)]. *)
Definition objeto : Type := Q * Q * nat.

Definition ganancia_de (x : objeto) : Q := fst (fst x).
Definition peso_de (x : objeto) : Q := snd (fst x).
Definition idx_de (x : objeto) : nat := snd x.

(** [a < b] on numbers. *)
Definition Qlt_bool (a b : Q) : bool := negb (Qle_bool b a).

(** [a / b]: true division, which raises on a zero divisor. *)
Definition truediv (a b : Q) : exc Q :=
  if Qeq_bool b 0 then Raise ZeroDivisionError else Ok (a / b)%Q.

(** [[(P[i], W[i], i) for i in range(N)]] *)
Definition lista_objetos (W P : list Q) : exc (list objeto) :=
  let N := length W in
  mapM (fun i => p <- getitem P i ;; w <- getitem W i ;; Ok (p, w, i))
       (range 0 N).

(** [lambda x: x[0] / x[1]] *)
Definition clave (x : objeto) : exc Q := truediv (ganancia_de x) (peso_de x).

(** [sorted(l, key=key, reverse=True)].  Python first computes the key of
    every element, in order, and then sorts stably on the keys; with
    [reverse=True] the keys go down and elements with equal keys keep their
    original order.  That output is unique, so it is computed here by a
    stable insertion sort on the decorated list. *)
Fixpoint insertar {A : Type} (kx : Q * A) (l : list (Q * A))
  : list (Q * A) :=
  match l with
  | [] => [kx]
  | ky :: r =>
      if Qlt_bool (fst kx) (fst ky)
      then ky :: insertar kx r
      else kx :: ky :: r
  end.

Fixpoint ordenar_desc {A : Type} (l : list (Q * A)) : list (Q * A) :=
  match l with
  | [] => []
  | kx :: r => insertar kx (ordenar_desc r)
  end.

Definition sorted_reverse {A : Type} (key : A -> exc Q) (l : list A)
  : exc (list A) :=
  decorada <- mapM (fun x => k <- key x ;; Ok (k, x)) l ;;
  Ok (map snd (ordenar_desc decorada)).

(** The second cell: [objetos = sorted([...], key=..., reverse=True)]. *)
Definition ordenar (W P : list Q) : exc (list objeto) :=
  l <- lista_objetos W P ;; sorted_reverse clave l.

(** [(i >> j) & 1], as a truth value. *)
Definition bit (i j : nat) : bool :=
  negb (Nat.land (Nat.shiftr i j) 1 =? 0).

(** The variables of one pattern: [peso_total], [ganancia_total] and
    [seleccion]. *)
Record acumulado : Type := Acumulado {
  peso_total : Q;
  ganancia_total : Q;
  seleccion : list nat
}.

Definition vacio : acumulado := Acumulado 0 0 [].

(** The inner loop [for j in range(N)], with its [break]. *)
Fixpoint evaluar (objetos : list objeto) (P : list Q) (C : Q) (i : nat)
  (js : list nat) (ac : acumulado) : exc acumulado :=
  match js with
  | [] => Ok ac
  | j :: js' =>
      if bit i j then
        x <- getitem objetos j ;;
        let peso := peso_de x in
        let idx := idx_de x in
        p <- getitem P idx ;;
        let ac' := Acumulado (peso_total ac + peso)%Q
                             (ganancia_total ac + p)%Q
                             (seleccion ac ++ [idx]) in
        if Qlt_bool C (peso_total ac') then Ok ac'
        else evaluar objetos P C i js' ac'
      else evaluar objetos P C i js' ac
  end.

(** The inner loop as the specification defines feasibility: the full
    accumulation over all set bits, never abandoned. *)
Fixpoint evaluar_completo (objetos : list objeto) (P : list Q) (C : Q)
  (i : nat) (js : list nat) (ac : acumulado) : exc acumulado :=
  match js with
  | [] => Ok ac
  | j :: js' =>
      if bit i j then
        x <- getitem objetos j ;;
        let peso := peso_de x in
        let idx := idx_de x in
        p <- getitem P idx ;;
        let ac' := Acumulado (peso_total ac + peso)%Q
                             (ganancia_total ac + p)%Q
                             (seleccion ac ++ [idx]) in
        evaluar_completo objetos P C i js' ac'
      else evaluar_completo objetos P C i js' ac
  end.

(** The loop variables [mejor_ganancia] and [mejor_combinacion]. *)
Record mejor : Type := Mejor {
  mejor_ganancia : Q;
  mejor_combinacion : option (list nat)
}.

Definition inicial : mejor := Mejor 0 None.

Section Enumeracion.

(** The evaluation of one pattern: [evaluar] in the notebook. *)
Variable evaluacion :
  list objeto -> list Q -> Q -> nat -> list nat -> acumulado -> exc acumulado.

(** One iteration of [for i in range(1 << N)]. *)
Definition paso_con (objetos : list objeto) (P : list Q) (C : Q) (N : nat)
  (st : mejor) (i : nat) : exc mejor :=
  ac <- evaluacion objetos P C i (range 0 N) vacio ;;
  if Qle_bool (peso_total ac) C
     && Qlt_bool (mejor_ganancia st) (ganancia_total ac)
  then Ok (Mejor (ganancia_total ac) (Some (seleccion ac)))
  else Ok st.

(** The third cell. *)
Definition enumerar_con (objetos : list objeto) (P : list Q) (C : Q)
  (N : nat) : exc mejor :=
  foldM (paso_con objetos P C N) (range 0 (Nat.shiftl 1 N)) inicial.

End Enumeracion.

Definition paso := paso_con evaluar.
Definition enumerar := enumerar_con evaluar.

(** The notebook from its inputs [W], [P] and [C]: rank, then enumerate. *)
Definition resolver (W P : list Q) (C : Q) : exc mejor :=
  let N := length W in
  objetos <- ordenar W P ;;
  enumerar objetos P C N.

(** The same enumeration over the items in their original order. *)
Definition resolver_sin_ordenar (W P : list Q) (C : Q) : exc mejor :=
  let N := length W in
  objetos <- lista_objetos W P ;;
  enumerar objetos P C N.

(** The same enumeration over the ranked items, never abandoning. *)
Definition resolver_sin_break (W P : list Q) (C : Q) : exc mejor :=
  let N := length W in
  objetos <- ordenar W P ;;
  enumerar_con evaluar_completo objetos P C N.

(** [sorted(l)] on a list of indices. *)
Fixpoint insertar_idx (k : nat) (l : list nat) : list nat :=
  match l with
  | [] => [k]
  | y :: r => if y <? k then y :: insertar_idx k r else k :: y :: r
  end.

Definition sorted (l : list nat) : list nat := fold_right insertar_idx [] l.

(** The last cell reports [mejor_ganancia] and [sorted(mejor_combinacion)];
    [sorted] needs an iterable. *)
Definition mostrar (st : mejor) : exc (Q * list nat) :=
  match mejor_combinacion st with
  | Some seleccion => Ok (mejor_ganancia st, sorted seleccion)
  | None => Raise TypeError
  end.

(** The notebook from its inputs to what it prints. *)
Definition cuaderno (W P : list Q) (C : Q) : exc (Q * list nat) :=
  st <- resolver W P C ;; mostrar st.

(** The lists of the notebook. *)
Definition W_ejemplo : list Q := [2; 1; 3; 3 # 2; 4]%Q.
Definition P_ejemplo : list Q := [5; 7; 5; 4; 10]%Q.
Definition C_ejemplo : Q := 8%Q.

End Mochila.

(** ** Python's numbers *)

Module Py.

(** A number of the lists [W] and [P]: an unbounded [int] or a binary64
    [float]. *)
Inductive num : Type :=
| Int (z : Z)
| Float (f : float).

(** [float(z)]: the nearest binary64 number, ties to even; an integer
    beyond the range of [float] raises. *)
Definition de_entero (z : Z) : exc float :=
  let f := SF2Prim (binary_normalize 53 1024 z 0 false) in
  if PrimFloat.is_infinity f then Raise OverflowError else Ok f.

Definition a_float (a : num) : exc float :=
  match a with
  | Int z => de_entero z
  | Float f => Ok f
  end.

(** [a + b]: exact on two integers; otherwise both sides become [float]s,
    the left one first. *)
Definition add (a b : num) : exc num :=
  match a, b with
  | Int x, Int y => Ok (Int (x + y))
  | _, _ => f <- a_float a ;; g <- a_float b ;; Ok (Float (f + g))
  end.

(** An integer against a [float]: Python compares the two values exactly,
    and nothing compares with a NaN. *)
Definition comparar_entero_float (x : Z) (g : float) : option comparison :=
  match Prim2SF g with
  | S754_nan => None
  | S754_infinity false => Some Lt
  | S754_infinity true => Some Gt
  | S754_zero _ => Some (x ?= 0)%Z
  | S754_finite s m e =>
      let v := if s then Z.neg m else Z.pos m in
      if (0 <=? e)%Z then Some (x ?= v * 2 ^ e)%Z
      else Some (x * 2 ^ (- e) ?= v)%Z
  end.

Definition comparar (a b : num) : option comparison :=
  match a, b with
  | Int x, Int y => Some (x ?= y)%Z
  | Int x, Float g => comparar_entero_float x g
  | Float f, Int y => option_map CompOpp (comparar_entero_float y f)
  | Float f, Float g =>
      match PrimFloat.compare f g with
      | FEq => Some Eq
      | FLt => Some Lt
      | FGt => Some Gt
      | FNotComparable => None
      end
  end.

(** [a < b], [a <= b] and [a > b] *)
Definition lt (a b : num) : bool :=
  match comparar a b with Some Lt => true | _ => false end.

Definition le (a b : num) : bool :=
  match comparar a b with Some Lt | Some Eq => true | _ => false end.

Definition gt (a b : num) : bool :=
  match comparar a b with Some Gt => true | _ => false end.

(** [x / y] on two integers, [y] not zero: the quotient correctly rounded
    to binary64 (here from a quotient of at least 56 bits and a sticky
    bit); a quotient beyond the range of [float] raises. *)
Definition division_entera (x y : Z) : exc float :=
  if (x =? 0)%Z then Ok (if (y <? 0)%Z then (-0)%float else 0%float)
  else
    let s := xorb (x <? 0)%Z (y <? 0)%Z in
    let a := Z.abs x in
    let b := Z.abs y in
    let k := Z.max 0 (Z.log2 b - Z.log2 a + 56) in
    let q := (a * 2 ^ k / b)%Z in
    let r := ((a * 2 ^ k) mod b)%Z in
    let m := (2 * q + (if r =? 0 then 0 else 1))%Z in
    let f := SF2Prim (binary_normalize 53 1024 (if s then - m else m)
                                       (- (k + 1)) false) in
    if PrimFloat.is_infinity f then Raise OverflowError else Ok f.

(** [a / b]: true division.  Two integers: a zero divisor raises first.
    Otherwise both sides become [float]s, the left one first, and then a
    zero divisor raises. *)
Definition truediv (a b : num) : exc float :=
  match a, b with
  | Int x, Int y =>
      if (y =? 0)%Z then Raise ZeroDivisionError else division_entera x y
  | _, _ =>
      f <- a_float a ;;
      g <- a_float b ;;
      if (g =? 0)%float then Raise ZeroDivisionError else Ok (f / g)%float
  end.

End Py.

(** ** The knapsack notebook on Python's numbers *)

Module MochilaPy.

(** An element of [objetos]: [(P[i], W[i], i)]. *)
Definition objeto : Type := Py.num * Py.num * nat.

Definition ganancia_de (x : objeto) : Py.num := fst (fst x).
Definition peso_de (x : objeto) : Py.num := snd (fst x).
Definition idx_de (x : objeto) : nat := snd x.

(** [[(P[i], W[i], i) for i in range(N)]] *)
Definition lista_objetos (W P : list Py.num) : exc (list objeto) :=
  let N := length W in
  mapM (fun i => p <- getitem P i ;; w <- getitem W i ;; Ok (p, w, i))
       (range 0 N).

(** [lambda x: x[0] / x[1]] *)
Definition clave (x : objeto) : exc float :=
  Py.truediv (ganancia_de x) (peso_de x).

(** [sorted(l, key=key, reverse=True)] on [float] keys: the keys are
    computed first, in order; then the list is sorted stably with [<] on the
    keys, downwards, elements that compare equal keeping their original
    order.  (With a NaN among the keys [<] is no order, and what Python's
    merge sort returns is not described here.) *)
Fixpoint insertar {A : Type} (kx : float * A) (l : list (float * A))
  : list (float * A) :=
  match l with
  | [] => [kx]
  | ky :: r =>
      if (fst kx <? fst ky)%float
      then ky :: insertar kx r
      else kx :: ky :: r
  end.

Fixpoint ordenar_desc {A : Type} (l : list (float * A))
  : list (float * A) :=
  match l with
  | [] => []
  | kx :: r => insertar kx (ordenar_desc r)
  end.

Definition sorted_reverse {A : Type} (key : A -> exc float) (l : list A)
  : exc (list A) :=
  decorada <- mapM (fun x => k <- key x ;; Ok (k, x)) l ;;
  Ok (map snd (ordenar_desc decorada)).

(** The second cell. *)
Definition ordenar (W P : list Py.num) : exc (list objeto) :=
  l <- lista_objetos W P ;; sorted_reverse clave l.

(** The variables of one pattern. *)
Record acumulado : Type := Acumulado {
  peso_total : Py.num;
  ganancia_total : Py.num;
  seleccion : list nat
}.

Definition vacio : acumulado := Acumulado (Py.Int 0) (Py.Int 0) [].

(** The inner loop [for j in range(N)], with its [break]. *)
Fixpoint evaluar (objetos : list objeto) (P : list Py.num) (C : Py.num)
  (i : nat) (js : list nat) (ac : acumulado) : exc acumulado :=
  match js with
  | [] => Ok ac
  | j :: js' =>
      if Mochila.bit i j then
        x <- getitem objetos j ;;
        let peso := peso_de x in
        let idx := idx_de x in
        peso_total' <- Py.add (peso_total ac) peso ;;
        p <- getitem P idx ;;
        ganancia_total' <- Py.add (ganancia_total ac) p ;;
        let ac' := Acumulado peso_total' ganancia_total'
                             (seleccion ac ++ [idx]) in
        if Py.gt peso_total' C then Ok ac'
        else evaluar objetos P C i js' ac'
      else evaluar objetos P C i js' ac
  end.

(** The loop variables [mejor_ganancia] and [mejor_combinacion]. *)
Record mejor : Type := Mejor {
  mejor_ganancia : Py.num;
  mejor_combinacion : option (list nat)
}.

Definition inicial : mejor := Mejor (Py.Int 0) None.

(** One iteration of [for i in range(1 << N)]. *)
Definition paso (objetos : list objeto) (P : list Py.num) (C : Py.num)
  (N : nat) (st : mejor) (i : nat) : exc mejor :=
  ac <- evaluar objetos P C i (range 0 N) vacio ;;
  if Py.le (peso_total ac) C
     && Py.gt (ganancia_total ac) (mejor_ganancia st)
  then Ok (Mejor (ganancia_total ac) (Some (seleccion ac)))
  else Ok st.

(** The third cell. *)
Definition enumerar (objetos : list objeto) (P : list Py.num) (C : Py.num)
  (N : nat) : exc mejor :=
  foldM (paso objetos P C N) (range 0 (Nat.shiftl 1 N)) inicial.

(** The notebook from its inputs [W], [P] and [C]: rank, then enumerate. *)
Definition resolver (W P : list Py.num) (C : Py.num) : exc mejor :=
  let N := length W in
  objetos <- ordenar W P ;;
  enumerar objetos P C N.

(** The same enumeration over the items in their original order. *)
Definition resolver_sin_ordenar (W P : list Py.num) (C : Py.num)
  : exc mejor :=
  let N := length W in
  objetos <- lista_objetos W P ;;
  enumerar objetos P C N.

(** The last cell: [mejor_ganancia] and [sorted(mejor_combinacion)]. *)
Definition mostrar (st : mejor) : exc (Py.num * list nat) :=
  match mejor_combinacion st with
  | Some seleccion => Ok (mejor_ganancia st, Mochila.sorted seleccion)
  | None => Raise TypeError
  end.

Definition cuaderno (W P : list Py.num) (C : Py.num)
  : exc (Py.num * list nat) :=
  st <- resolver W P C ;; mostrar st.

(** The lists of the notebook. *)
Definition W_ejemplo : list Py.num :=
  [Py.Int 2; Py.Int 1; Py.Int 3; Py.Float 1.5; Py.Int 4].
Definition P_ejemplo : list Py.num :=
  [Py.Int 5; Py.Int 7; Py.Int 5; Py.Int 4; Py.Int 10].
Definition C_ejemplo : Py.num := Py.Int 8.

End MochilaPy.

(** A selection of original indices: pairwise distinct, all in [[0, N)]. *)
Definition subconjunto (N : nat) (S : list nat) : Prop :=
  NoDup S /\ Forall (fun i => i < N) S.

(** The sum of the entries of [X] at the indices [S]. *)
Definition suma (l : list Q) : Q := fold_right Qplus 0%Q l.

Definition agregado (X : list Q) (S : list nat) : Q :=
  suma (map (fun i => nth i X 0%Q) S).

(** Two inputs the route cell does not reject, and one it cannot index. *)
Definition con_negativos : TSP.matriz := [ [0; -1]; [-1; 0] ]%Z.
Definition no_cuadrada : TSP.matriz := [ [0; 1; 5]; [1; 0; 5] ]%Z.

Definition estrecha : TSP.matriz := [ [0]; [1] ]%Z.

(** A valid matrix whose totals leave the [int64] range. *)
Definition desbordada : TSP.matriz :=
  [ [0; 2 ^ 62; 1]; [1; 0; 2 ^ 62]; [2 ^ 62; 1; 0] ]%Z.

(** The list the comprehension builds when every lookup succeeds. *)
Definition etiquetados (W P : list Q) : list Mochila.objeto :=
  map (fun i => (nth i P 0%Q, nth i W 0%Q, i)) (seq 0 (length W)).

(** The gain/weight ratio the ranking sorts on, and its order: [x] may
    stand before [y]. *)
Definition razon (x : Mochila.objeto) : Q :=
  (Mochila.ganancia_de x / Mochila.peso_de x)%Q.

Definition antes (x y : Mochila.objeto) : Prop := (razon y <= razon x)%Q.

(** One selected item added to the running totals. *)
Definition acumular (P : list Q) (ac : Mochila.acumulado) (x : Mochila.objeto)
  : Mochila.acumulado :=
  Mochila.Acumulado
    (Mochila.peso_total ac + Mochila.peso_de x)%Q
    (Mochila.ganancia_total ac + nth (Mochila.idx_de x) P 0%Q)%Q
    (Mochila.seleccion ac ++ [Mochila.idx_de x]).

(** The items of [objetos] that pattern [i] selects, [objetos] starting at
    position [j]. *)
Fixpoint elegidos (i j : nat) (objetos : list Mochila.objeto)
  : list Mochila.objeto :=
  match objetos with
  | [] => []
  | x :: r =>
      if Mochila.bit i j then x :: elegidos i (S j) r
      else elegidos i (S j) r
  end.

(** The totals of pattern [i] over all its set bits. *)
Definition completo (objetos : list Mochila.objeto) (P : list Q) (i : nat)
  : Mochila.acumulado :=
  fold_left (acumular P) (elegidos i 0 objetos) Mochila.vacio.

(** The pattern whose bit [j] is [bs[j]]. *)
Fixpoint de_bits (bs : list bool) : nat :=
  match bs with
  | [] => 0
  | b :: r => 2 * de_bits r + Nat.b2n b
  end.

(** The pattern that selects, in [objetos], the items with index in [S]. *)
Definition patron_de (objetos : list Mochila.objeto) (S : list nat) : nat :=
  de_bits (map (fun x => existsb (Nat.eqb (Mochila.idx_de x)) S) objetos).

(** [S] fits the capacity. *)
Definition factible (W : list Q) (C : Q) (S : list nat) : Prop :=
  (agregado W S <= C)%Q.

(** One iteration of the outer loop on the full totals of the pattern. *)
Definition paso_puro (objetos : list Mochila.objeto) (P : list Q) (C : Q)
  (st : Mochila.mejor) (i : nat) : Mochila.mejor :=
  let ac := completo objetos P i in
  if Qle_bool (Mochila.peso_total ac) C
     && Mochila.Qlt_bool (Mochila.mejor_ganancia st) (Mochila.ganancia_total ac)
  then Mochila.Mejor (Mochila.ganancia_total ac)
                     (Some (Mochila.seleccion ac))
  else st.

(** A matrix whose rows all have [columnas] entries, as every
    two-dimensional array has. *)
Definition rectangular (columnas : nat) (distancias : TSP.matriz) : Prop :=
  Forall (fun fila => length fila = columnas) distancias.

(** A matrix that reads the same in both directions. *)
Definition simetrica (distancias : TSP.matriz) : Prop :=
  forall i j, distancia distancias i j = distancia distancias j i.

(** The legs of a route: [zip(ruta[:-1], ruta[1:])]. *)
Definition tramos (ruta : list nat) : list (nat * nat) :=
  combine (removelast ruta) (tl ruta).

(** A square [float64] matrix, its cells ([nan] where there is none), and
    the total the cell computes for the closed route over [p]. *)
Definition cuadrada_f (distancias : TSPf.matriz) : Prop :=
  Forall (fun fila => length fila = length distancias) distancias.

Definition distancia_f (distancias : TSPf.matriz) (i j : nat) : float :=
  nth j (nth i distancias []) nan.

Definition total_f (distancias : TSPf.matriz) (p : list nat) : float :=
  let R := TSP.ruta_de p in
  TSPf.np_sum (map (fun k => distancia_f distancias (nth k R 0) (nth (S k) R 0))
                   (seq 0 (length distancias))).

(** Integer data: an item [(P[i], W[i], i)] of integers, as the Python
    item and as the exact one. *)
Definition objeto_z : Type := Z * Z * nat.

Definition a_py (x : objeto_z) : MochilaPy.objeto :=
  (Py.Int (fst (fst x)), Py.Int (snd (fst x)), snd x).

Definition a_q (x : objeto_z) : Mochila.objeto :=
  (inject_Z (fst (fst x)), inject_Z (snd (fst x)), snd x).

(** A list of Python integers. *)
Definition enteros (l : list Z) : list Py.num := map Py.Int l.

(** The list the comprehension builds when every lookup succeeds. *)
Definition etiquetados_py (W P : list Py.num) : list MochilaPy.objeto :=
  map (fun i => (nth i P (Py.Int 0), nth i W (Py.Int 0), i))
      (seq 0 (length W)).

Definition etiquetados_z (W P : list Z) : list objeto_z :=
  map (fun i => (nth i P 0%Z, nth i W 0%Z, i)) (seq 0 (length W)).

(** The sum of the integers of [X] at the indices [S]. *)
Definition agregado_z (X : list Z) (S : list nat) : Z :=
  fold_right Z.add 0%Z (map (fun i => nth i X 0%Z) S).

(** A weight that is zero: the integer 0, or a [float] equal to [0.0]. *)
Definition es_cero (w : Py.num) : bool :=
  match w with
  | Py.Int z => (z =? 0)%Z
  | Py.Float f => (f =? 0)%float
  end.

(** The items of the ranked list that pattern [i] selects, the list
    starting at position [j]. *)
Fixpoint elegidos_py (i j : nat) (objetos : list MochilaPy.objeto)
  : list MochilaPy.objeto :=
  match objetos with
  | [] => []
  | x :: r =>
      if Mochila.bit i j then x :: elegidos_py i (S j) r
      else elegidos_py i (S j) r
  end.

(** [inicio + x1 + x2 + ...], added from left to right with Python's [+]. *)
Definition sumar (inicio : Py.num) (l : list Py.num) : exc Py.num :=
  foldM Py.add l inicio.

(** One turn of the inner loop when it is not abandoned. *)
Definition paso_completo_py (objetos : list MochilaPy.objeto)
  (P : list Py.num) (i : nat) (ac : MochilaPy.acumulado) (j : nat)
  : exc MochilaPy.acumulado :=
  if Mochila.bit i j then
    x <- getitem objetos j ;;
    peso_total' <- Py.add (MochilaPy.peso_total ac) (MochilaPy.peso_de x) ;;
    p <- getitem P (MochilaPy.idx_de x) ;;
    ganancia_total' <- Py.add (MochilaPy.ganancia_total ac) p ;;
    Ok (MochilaPy.Acumulado peso_total' ganancia_total'
                            (MochilaPy.seleccion ac ++ [MochilaPy.idx_de x]))
  else Ok ac.

(** The order of a stable descending sort on the [float] keys: [x] stands
    before [y] only if its key is not below that of [y] and, unless it is
    above, [x] has the smaller original index. *)
Definition antes_py (x y : MochilaPy.objeto) : Prop :=
  exists kx ky,
    MochilaPy.clave x = Ok kx /\ MochilaPy.clave y = Ok ky /\
    (kx <? ky)%float = false /\
    ((ky <? kx)%float = true \/ MochilaPy.idx_de x < MochilaPy.idx_de y).

(** No key of [l] is a NaN: each one equals itself. *)
Definition sin_nan (l : list MochilaPy.objeto) : bool :=
  forallb (fun x => match MochilaPy.clave x with
                    | Ok k => (k =? k)%float
                    | Raise _ => true
                    end) l.

(** The selection of pattern [i] over the ranked list: the original
    indices of its set bits, in ranked order. *)
Definition seleccion_de (objetos : list MochilaPy.objeto) (i : nat)
  : list nat :=
  map MochilaPy.idx_de (elegidos_py i 0 objetos).

(** Two outcomes that correspond: two results related by [R], or the same
    exception. *)
Definition rel_exc {A B : Type} (R : A -> B -> Prop) (x : exc A) (y : exc B)
  : Prop :=
  match x, y with
  | Ok a, Ok b => R a b
  | Raise e, Raise e' => e = e'
  | _, _ => False
  end.

(** The variables of the Python run hold the integers of the exact run. *)
Definition rel_ac (a : MochilaPy.acumulado) (b : Mochila.acumulado) : Prop :=
  exists w g,
    MochilaPy.peso_total a = Py.Int w /\
    Mochila.peso_total b = inject_Z w /\
    MochilaPy.ganancia_total a = Py.Int g /\
    Mochila.ganancia_total b = inject_Z g /\
    MochilaPy.seleccion a = Mochila.seleccion b.

Definition rel_mejor (a : MochilaPy.mejor) (b : Mochila.mejor) : Prop :=
  exists g,
    MochilaPy.mejor_ganancia a = Py.Int g /\
    Mochila.mejor_ganancia b = inject_Z g /\
    MochilaPy.mejor_combinacion a = Mochila.mejor_combinacion b.

(** Case analysis on the comparisons of exponents and mantissas. *)
Ltac resolver_comparaciones :=
  repeat match goal with
  | H : context [Z.compare ?a ?b] |- _ =>
      destruct (Z.compare_spec a b); subst
  | |- context [Z.compare ?a ?b] =>
      destruct (Z.compare_spec a b); subst
  | H : context [Pos.compare_cont Eq ?a ?b] |- _ =>
      change (Pos.compare_cont Eq a b) with (Pos.compare a b) in H
  | |- context [Pos.compare_cont Eq ?a ?b] =>
      change (Pos.compare_cont Eq a b) with (Pos.compare a b)
  | H : context [Pos.compare ?a ?b] |- _ =>
      destruct (Pos.compare_spec a b); subst
  | |- context [Pos.compare ?a ?b] =>
      destruct (Pos.compare_spec a b); subst
  end;
  cbn in *; try discriminate; try reflexivity; try lia.

(** The item of original index [i]. *)
Definition objeto_de (W P : list Py.num) (i : nat) : MochilaPy.objeto :=
  (nth i P (Py.Int 0), nth i W (Py.Int 0), i).

Example permutations_3 :
  permutations [1; 2; 3] =
  [[1; 2; 3]; [1; 3; 2]; [2; 1; 3]; [2; 3; 1]; [3; 1; 2]; [3; 2; 1]].
Proof. reflexivity. Qed.

Example permutations_0 : permutations (range 1 1) = [[]].
Proof. reflexivity. Qed.

Example tsp_ejemplo :
  TSP.resolver TSP.ejemplo
  = Ok (TSP.Estado (Some [0; 1; 3; 2; 0]) (TSP.Finito 80)).
Proof. reflexivity. Qed.

Example ordenar_ejemplo :
  Mochila.ordenar Mochila.W_ejemplo Mochila.P_ejemplo
  = Ok [(7%Q, 1%Q, 1); (4%Q, (3 # 2)%Q, 3); (5%Q, 2%Q, 0);
        (10%Q, 4%Q, 4); (5%Q, 3%Q, 2)].
Proof. vm_compute. reflexivity. Qed.

Example mochila_ejemplo :
  Mochila.resolver Mochila.W_ejemplo Mochila.P_ejemplo Mochila.C_ejemplo
  = Ok (Mochila.Mejor 22 (Some [1; 0; 4])).
Proof. vm_compute. reflexivity. Qed.

Example cuaderno_ejemplo :
  Mochila.cuaderno Mochila.W_ejemplo Mochila.P_ejemplo Mochila.C_ejemplo
  = Ok (22%Q, [0; 1; 4]).
Proof. vm_compute. reflexivity. Qed.

(** ** Facts about the error monad *)

Lemma mapM_ok {A B : Type} (f : A -> exc B) (g : A -> B) (l : list A) :
  (forall a, In a l -> f a = Ok (g a)) -> mapM f l = Ok (map g l).
Proof.
  induction l as [|a r IH]; intros H; simpl.
  - reflexivity.
  - rewrite (H a (or_introl eq_refl)). simpl.
    rewrite IH by (intros b Hb; apply H; now right). reflexivity.
Qed.

Lemma foldM_ok {A S : Type} (body : S -> A -> exc S) (g : S -> A -> S)
  (l : list A) :
  (forall s a, In a l -> body s a = Ok (g s a)) ->
  forall s, foldM body l s = Ok (fold_left g l s).
Proof.
  induction l as [|a r IH]; intros H s; simpl.
  - reflexivity.
  - rewrite (H s a (or_introl eq_refl)). simpl.
    apply IH. intros s' b Hb. apply H. now right.
Qed.

Lemma getitem_nth {A : Type} (l : list A) (i : nat) (d : A) :
  i < length l -> getitem l i = Ok (nth i l d).
Proof.
  intros H. unfold getitem.
  rewrite (nth_error_nth' l d H). reflexivity.
Qed.

(** ** Facts about [permutations] *)

Lemma selecciones_In {A : Type} (l : list A) (x : A) (r : list A) :
  In (x, r) (selecciones l) <->
  exists l1 l2, l = l1 ++ x :: l2 /\ r = l1 ++ l2.
Proof.
  revert x r. induction l as [|a l IH]; intros x r; simpl.
  - split; [tauto|]. intros (l1 & l2 & H & _). now destruct l1.
  - split.
    + intros [H|H].
      * inversion H; subst. now exists [], r.
      * apply in_map_iff in H. destruct H as ([y r'] & E & H).
        simpl in E. inversion E; subst.
        apply IH in H. destruct H as (l1 & l2 & -> & ->).
        now exists (a :: l1), l2.
    + intros (l1 & l2 & E & ->). destruct l1 as [|b l1]; simpl in E.
      * inversion E; subst. now left.
      * inversion E; subst. right. apply in_map_iff.
        exists (x, l1 ++ l2). split; [reflexivity|].
        apply IH. now exists l1, l2.
Qed.

Lemma permutations_aux_In {A : Type} (n : nat) :
  forall (l p : list A), length l = n ->
    (In p (permutations_aux n l) <-> Permutation l p).
Proof.
  induction n as [|n IH]; intros l p Hl; simpl.
  - destruct l; [|discriminate]. split.
    + intros [<-|[]]. constructor.
    + intros H. apply Permutation_nil in H. now left.
  - rewrite in_flat_map. split.
    + intros ([x r] & Hsel & Hp). simpl in Hp.
      apply in_map_iff in Hp. destruct Hp as (q & <- & Hq).
      apply selecciones_In in Hsel. destruct Hsel as (l1 & l2 & -> & ->).
      apply IH in Hq.
      * symmetry. apply Permutation_cons_app. now symmetry.
      * rewrite length_app in *. simpl in Hl. lia.
    + intros H. destruct p as [|x q].
      * apply Permutation_sym, Permutation_nil in H. subst. discriminate.
      * assert (Hx : In x l).
        { apply Permutation_in with (x :: q); [now symmetry | now left]. }
        apply in_split in Hx. destruct Hx as (l1 & l2 & ->).
        exists (x, l1 ++ l2). split.
        -- apply selecciones_In. now exists l1, l2.
        -- simpl. apply in_map. apply IH.
           ++ rewrite length_app in *. simpl in Hl. lia.
           ++ apply Permutation_cons_inv with x.
              rewrite <- H. apply Permutation_middle.
Qed.

Lemma permutations_In {A : Type} (l p : list A) :
  In p (permutations l) <-> Permutation l p.
Proof. apply permutations_aux_In. reflexivity. Qed.

Lemma permutations_not_nil {A : Type} (l : list A) : permutations l <> [].
Proof.
  intros H. assert (Hin : In l (permutations l)).
  { apply permutations_In. reflexivity. }
  rewrite H in Hin. destruct Hin.
Qed.

(** The enumeration order: over an increasing list, [permutations] goes up
    in the lexicographic order. *)

Lemma StronglySorted_app {A : Type} (R : A -> A -> Prop) (l1 l2 : list A) :
  StronglySorted R l1 -> StronglySorted R l2 ->
  (forall x y, In x l1 -> In y l2 -> R x y) ->
  StronglySorted R (l1 ++ l2).
Proof.
  induction l1 as [|a l1 IH]; intros H1 H2 H; simpl.
  - exact H2.
  - inversion H1; subst. constructor.
    + apply IH; auto. intros x y Hx Hy. apply H; [now right | exact Hy].
    + apply Forall_app. split; [assumption|].
      apply Forall_forall. intros y Hy. apply H; [now left | exact Hy].
Qed.

Lemma StronglySorted_app_l {A : Type} (R : A -> A -> Prop) (l1 l2 : list A) :
  StronglySorted R (l1 ++ l2) ->
  StronglySorted R l1 /\ StronglySorted R l2 /\
  (forall x y, In x l1 -> In y l2 -> R x y).
Proof.
  induction l1 as [|a l1 IH]; simpl; intros H.
  - repeat split; [constructor | exact H | intros x y []].
  - inversion H as [|? ? Hs Hf]; subst.
    destruct (IH Hs) as (S1 & S2 & S12).
    apply Forall_app in Hf. destruct Hf as [Hf1 Hf2].
    repeat split.
    + now constructor.
    + exact S2.
    + intros x y [<-|Hx] Hy.
      * rewrite Forall_forall in Hf2. now apply Hf2.
      * now apply S12.
Qed.

Lemma StronglySorted_map_cons (x : nat) (L : list (list nat)) :
  StronglySorted lex_lt L -> StronglySorted lex_lt (map (cons x) L).
Proof.
  induction 1 as [|p L HS IH HF]; simpl; constructor.
  - exact IH.
  - rewrite Forall_forall in *. intros q Hq.
    apply in_map_iff in Hq. destruct Hq as (q' & <- & Hq').
    apply lex_tail. now apply HF.
Qed.

Lemma selecciones_sorted (l : list nat) (x : nat) (r : list nat) :
  StronglySorted lt l -> In (x, r) (selecciones l) -> StronglySorted lt r.
Proof.
  intros Hl H. apply selecciones_In in H. destruct H as (l1 & l2 & -> & ->).
  apply StronglySorted_app_l in Hl. destruct Hl as (S1 & S2 & S12).
  inversion S2; subst.
  apply StronglySorted_app; auto.
  intros a b Ha Hb. apply S12; [exact Ha | now right].
Qed.

Lemma map_fst_selecciones {A : Type} (l : list A) :
  map fst (selecciones l) = l.
Proof.
  induction l as [|x l IH]; simpl; [reflexivity|].
  rewrite map_map. simpl. f_equal.
  rewrite <- IH at 2. apply map_ext. reflexivity.
Qed.

Lemma StronglySorted_of_map {A B : Type} (R : B -> B -> Prop) (f : A -> B)
  (L : list A) :
  StronglySorted R (map f L) ->
  StronglySorted (fun a b => R (f a) (f b)) L.
Proof.
  induction L as [|a L IH]; simpl; intros H; [constructor|].
  inversion H as [|? ? HS HF]; subst. constructor; [now apply IH|].
  rewrite Forall_forall in *. intros b Hb. apply HF. now apply in_map.
Qed.

Lemma selecciones_heads (l : list nat) :
  StronglySorted lt l ->
  StronglySorted (fun a b : nat * list nat => fst a < fst b) (selecciones l).
Proof.
  intros H. apply (StronglySorted_of_map lt fst).
  now rewrite map_fst_selecciones.
Qed.

Lemma permutations_aux_sorted (n : nat) :
  forall l : list nat, StronglySorted lt l ->
    StronglySorted lex_lt (permutations_aux n l).
Proof.
  induction n as [|n IH]; intros l Hl; simpl.
  - repeat constructor.
  - assert (Hh := selecciones_heads l Hl).
    assert (Hr : forall xr, In xr (selecciones l) ->
                            StronglySorted lt (snd xr)).
    { intros [x r] Hxr. exact (selecciones_sorted l x r Hl Hxr). }
    induction Hh as [|xr L HS IHL HF]; simpl; [constructor|].
    apply StronglySorted_app.
    + apply StronglySorted_map_cons. apply IH. apply Hr. now left.
    + apply IHL. intros yr Hyr. apply Hr. now right.
    + intros p q Hp Hq.
      apply in_map_iff in Hp. destruct Hp as (p' & <- & _).
      apply in_flat_map in Hq. destruct Hq as (yr & Hyr & Hq).
      apply in_map_iff in Hq. destruct Hq as (q' & <- & _).
      apply lex_head. rewrite Forall_forall in HF. now apply HF.
Qed.

Lemma permutations_sorted (l : list nat) :
  StronglySorted lt l -> StronglySorted lex_lt (permutations l).
Proof. apply permutations_aux_sorted. Qed.

Lemma range_sorted (a b : nat) : StronglySorted lt (range a b).
Proof.
  unfold range. generalize (b - a) as n. intros n. revert a.
  induction n as [|n IH]; intros a; simpl; constructor.
  - apply IH.
  - apply Forall_forall. intros x Hx. apply in_seq in Hx. lia.
Qed.

(** ** 64-bit totals *)

Lemma int64_idem (a x : Z) : TSP.int64 (TSP.int64 a + x) = TSP.int64 (a + x).
Proof.
  unfold TSP.int64. f_equal.
  replace ((a + 2 ^ 63) mod 2 ^ 64 - 2 ^ 63 + x + 2 ^ 63)%Z
    with ((a + 2 ^ 63) mod 2 ^ 64 + x)%Z by lia.
  rewrite Zplus_mod_idemp_l. f_equal. lia.
Qed.

Lemma np_sum_desde (l : list Z) :
  forall a,
    fold_left (fun acc x => TSP.int64 (acc + x)) l (TSP.int64 a)
    = TSP.int64 (a + fold_right Z.add 0 l)%Z.
Proof.
  induction l as [|x l IH]; intros a; simpl.
  - f_equal. lia.
  - rewrite int64_idem, IH. f_equal. lia.
Qed.

Lemma np_sum_int64 (l : list Z) :
  TSP.np_sum l = TSP.int64 (fold_right Z.add 0%Z l).
Proof.
  unfold TSP.np_sum.
  change (fold_left (fun acc x => TSP.int64 (acc + x)) l 0%Z)
    with (fold_left (fun acc x => TSP.int64 (acc + x)) l (TSP.int64 0)).
  now rewrite np_sum_desde.
Qed.

Lemma int64_exacto (z : Z) :
  (- 2 ^ 63 <= z < 2 ^ 63)%Z -> TSP.int64 z = z.
Proof.
  intros H. unfold TSP.int64. rewrite Z.mod_small; lia.
Qed.

(** ** The route loop *)

Lemma tramos_ruta (R : list nat) :
  combine (removelast R) (tl R)
  = map (fun k => (nth k R 0, nth (S k) R 0)) (seq 0 (length R - 1)).
Proof.
  induction R as [|x R IH]; [reflexivity|].
  destruct R as [|y R]; [reflexivity|].
  change (removelast (x :: y :: R)) with (x :: removelast (y :: R)).
  change (tl (x :: y :: R)) with (y :: R).
  change (tl (y :: R)) with R in IH.
  replace (length (x :: y :: R) - 1) with (S (length (y :: R) - 1))
    by (simpl; lia).
  cbn [combine seq map]. f_equal.
  rewrite <- seq_shift, map_map.
  destruct (removelast (y :: R)) eqn:E.
  - simpl in IH. destruct R; simpl in *; [reflexivity | discriminate].
  - exact IH.
Qed.

Section Rutas.

Import TSP.

Variable distancias : matriz.
Hypothesis Hancha : ancha distancias.

Let N := length distancias.

Local Abbreviation coste := (total_calculado distancias).

Lemma celda_ok (i j : nat) :
  i < N -> j < N -> celda distancias (i, j) = Ok (distancia distancias i j).
Proof.
  intros Hi Hj. unfold celda, distancia. simpl.
  rewrite (getitem_nth distancias i [] Hi). simpl.
  apply getitem_nth.
  unfold ancha in Hancha. rewrite Forall_forall in Hancha.
  apply Nat.lt_le_trans with N; [exact Hj|].
  apply Hancha. now apply nth_In.
Qed.

Lemma fold_left_Zadd (l : list Z) (a : Z) :
  fold_left Z.add l a = (a + fold_right Z.add 0 l)%Z.
Proof.
  revert a. induction l as [|x l IH]; intros a; simpl; [lia|].
  rewrite IH. lia.
Qed.

Lemma distancia_total_ok (R : list nat) :
  Forall (fun x => x < N) R ->
  distancia_total distancias R
  = Ok (int64 (coste_tramos distancias R (length R - 1))).
Proof.
  intros HR. unfold distancia_total, coste_tramos.
  rewrite tramos_ruta.
  rewrite (mapM_ok _ (fun ij => distancia distancias (fst ij) (snd ij))).
  - simpl. rewrite np_sum_int64, map_map. reflexivity.
  - intros [i j] Hin. apply in_map_iff in Hin.
    destruct Hin as (k & E & Hk). inversion E; subst. apply in_seq in Hk.
    rewrite Forall_forall in HR.
    apply celda_ok; apply HR; apply nth_In; lia.
Qed.

Lemma permutacion_length (p : list nat) :
  Permutation (range 1 N) p -> N <> 0 -> length (ruta_de p) = N + 1.
Proof.
  intros Hp HN. unfold ruta_de. simpl. rewrite length_app. simpl.
  rewrite <- (Permutation_length Hp). unfold range. rewrite length_seq. lia.
Qed.

Lemma permutacion_indices (p : list nat) :
  Permutation (range 1 N) p -> N <> 0 -> Forall (fun x => x < N) (ruta_de p).
Proof.
  intros Hp HN. assert (Hin : Forall (fun x => x < N) p).
  { apply Forall_forall. intros x Hx.
    apply (Permutation_in _ (Permutation_sym Hp)) in Hx.
    unfold range in Hx. apply in_seq in Hx. lia. }
  unfold ruta_de. constructor; [lia|].
  apply Forall_app. split; [exact Hin|]. constructor; [lia | constructor].
Qed.

Lemma paso_ok (st : estado) (p : list nat) :
  Permutation (range 1 N) p -> N <> 0 ->
  paso distancias st p
  = Ok (if menor (coste p) (distancia_minima st)
        then Estado (Some (ruta_de p)) (Finito (coste p))
        else st).
Proof.
  intros Hp HN. unfold paso.
  rewrite (distancia_total_ok _ (permutacion_indices p Hp HN)).
  rewrite (permutacion_length p Hp HN).
  replace (N + 1 - 1) with N by lia. simpl.
  change (int64 (coste_tramos distancias (ruta_de p) N)) with (coste p).
  now destruct (menor (coste p) (distancia_minima st)).
Qed.

(** The loop keeps the first permutation of least total. *)
Lemma bucle_primero (l : list (list nat)) :
  (forall p, In p l -> Permutation (range 1 N) p) -> N <> 0 -> l <> [] ->
  exists pre p post,
    l = pre ++ p :: post /\
    foldM (paso distancias) l inicial
    = Ok (Estado (Some (ruta_de p)) (Finito (coste p))) /\
    (forall q, In q pre -> (coste p < coste q)%Z) /\
    (forall q, In q post -> (coste p <= coste q)%Z).
Proof.
  intros Hl HN.
  rewrite (foldM_ok _ (fun st p => if menor (coste p) (distancia_minima st)
                                 then Estado (Some (ruta_de p)) (Finito (coste p))
                                 else st))
    by (intros s a Ha; apply paso_ok; auto).
  revert Hl. induction l as [|x l IH] using rev_ind; intros Hl Hne.
  - congruence.
  - rewrite fold_left_app. cbn [fold_left].
    destruct l as [|y l'].
    + exists [], x, []. simpl. repeat split; intros q [].
    + destruct IH as (pre & p & post & E & F & Hpre & Hpost).
      * intros q Hq. apply Hl. apply in_or_app. now left.
      * discriminate.
      * apply (f_equal (fun r => match r with Ok s => s | Raise _ => inicial end))
          in F.
        cbv beta iota in F. rewrite F. simpl.
        destruct (Z.ltb_spec (coste x) (coste p)) as [Hlt|Hge].
        -- exists (y :: l'), x, []. repeat split.
           ++ intros q Hq. rewrite E in Hq. apply in_app_or in Hq.
              destruct Hq as [Hq|[<-|Hq]].
              ** specialize (Hpre q Hq). lia.
              ** exact Hlt.
              ** specialize (Hpost q Hq). lia.
           ++ intros q [].
        -- exists pre, p, (post ++ [x]). repeat split.
           ++ change (y :: l' ++ [x]) with ((y :: l') ++ [x]).
              rewrite E. rewrite <- app_assoc. reflexivity.
           ++ exact Hpre.
           ++ intros q Hq. apply in_app_or in Hq.
              destruct Hq as [Hq|[<-|[]]]; [now apply Hpost | exact Hge].
Qed.

(** What the cell leaves in its two variables when no cell is missing. *)
Lemma resolver_primero :
  N <> 0 ->
  exists pre p post,
    permutations (range 1 N) = pre ++ p :: post /\
    resolver distancias
    = Ok (Estado (Some (ruta_de p)) (Finito (coste p))) /\
    (forall q, In q pre -> (coste p < coste q)%Z) /\
    (forall q, In q post -> (coste p <= coste q)%Z).
Proof.
  intros HN. unfold resolver. fold N.
  apply bucle_primero.
  - intros p Hp. now apply permutations_In.
  - exact HN.
  - apply permutations_not_nil.
Qed.

End Rutas.

Lemma cuadrada_ancha (distancias : TSP.matriz) :
  cuadrada distancias -> ancha distancias.
Proof.
  unfold cuadrada, ancha. apply Forall_impl. intros fila ->. apply Nat.le_refl.
Qed.

Lemma length_not_nil {A : Type} (l : list A) : l <> [] -> length l <> 0.
Proof. destruct l; [congruence | discriminate]. Qed.

(** The exceptions of the route cell all come from a lookup. *)

Lemma mapM_raise {A B : Type} (f : A -> exc B) (l : list A) (e : exception) :
  mapM f l = Raise e -> exists a, In a l /\ f a = Raise e.
Proof.
  induction l as [|a r IH]; simpl; [discriminate|].
  destruct (f a) as [b|e'] eqn:Ea; simpl.
  - destruct (mapM f r) as [bs|e'] eqn:Er; simpl; [discriminate|].
    intros H. destruct (IH H) as (a' & Hin & Ha'). exists a'. auto.
  - intros H. inversion H; subst. exists a. auto.
Qed.

Lemma foldM_raise {A S : Type} (body : S -> A -> exc S) (l : list A)
  (e : exception) :
  forall s, foldM body l s = Raise e ->
            exists s' a, In a l /\ body s' a = Raise e.
Proof.
  induction l as [|a r IH]; simpl; intros s; [discriminate|].
  destruct (body s a) as [s1|e'] eqn:Ea; simpl.
  - intros H. destruct (IH _ H) as (s' & a' & Hin & Ha'). exists s', a'. auto.
  - intros H. inversion H; subst. exists s, a. auto.
Qed.

Lemma getitem_raise {A : Type} (l : list A) (i : nat) (e : exception) :
  getitem l i = Raise e -> e = IndexError.
Proof.
  unfold getitem. destruct (nth_error l i); [discriminate|].
  intros H. now inversion H.
Qed.

Lemma resolver_raise (distancias : TSP.matriz) (e : exception) :
  TSP.resolver distancias = Raise e -> e = IndexError.
Proof.
  unfold TSP.resolver. intros H.
  apply foldM_raise in H. destruct H as (st & p & _ & H).
  unfold TSP.paso in H.
  destruct (TSP.distancia_total distancias (TSP.ruta_de p)) as [t|e'] eqn:Et.
  - simpl in H. destruct (TSP.menor t (TSP.distancia_minima st)); discriminate.
  - simpl in H. inversion H; subst. clear H.
    unfold TSP.distancia_total in Et.
    destruct (mapM _ _) as [ts|e'] eqn:Em in Et; [discriminate|].
    simpl in Et. inversion Et; subst. clear Et.
    apply mapM_raise in Em. destruct Em as (ij & _ & Hc).
    unfold TSP.celda in Hc.
    destruct (getitem distancias (fst ij)) as [fila|e'] eqn:Ef; simpl in Hc.
    + now apply getitem_raise in Hc.
    + inversion Hc; subst. now apply getitem_raise in Ef.
Qed.

(** Totals that do not leave the [int64] range. *)

Lemma distancia_acotada (M : Z) (distancias : TSP.matriz) (i j : nat) :
  cuadrada distancias -> acotada M distancias ->
  i < length distancias -> j < length distancias ->
  (0 <= distancia distancias i j <= M)%Z.
Proof.
  intros Hc [Hac _] Hi Hj. unfold distancia.
  assert (Hfila : In (nth i distancias []) distancias) by now apply nth_In.
  unfold cuadrada in Hc. rewrite Forall_forall in Hc, Hac.
  specialize (Hac _ Hfila). rewrite Forall_forall in Hac.
  apply Hac. apply nth_In. now rewrite (Hc _ Hfila).
Qed.

Lemma suma_acotada (M : Z) (l : list Z) :
  Forall (fun z => (0 <= z <= M)%Z) l ->
  (0 <= fold_right Z.add 0 l <= M * Z.of_nat (length l))%Z.
Proof.
  induction 1 as [|z l Hz _ IH]; [simpl; lia|].
  cbn [fold_right length]. lia.
Qed.

Lemma coste_acotado (M : Z) (distancias : TSP.matriz) (p : list nat) :
  cuadrada distancias -> acotada M distancias ->
  Permutation (range 1 (length distancias)) p -> length distancias <> 0 ->
  (0 <= coste_cerrado distancias p < 2 ^ 63)%Z.
Proof.
  intros Hc Hac Hp HN. unfold coste_cerrado, coste_tramos.
  assert (Hidx := permutacion_indices distancias p Hp HN).
  assert (Hlen := permutacion_length distancias p Hp HN).
  rewrite Forall_forall in Hidx.
  assert (Hs := suma_acotada M
                  (map (fun k => distancia distancias
                                   (nth k (TSP.ruta_de p) 0)
                                   (nth (S k) (TSP.ruta_de p) 0))
                       (seq 0 (length distancias)))).
  rewrite length_map, length_seq in Hs.
  assert (Hac' := Hac). destruct Hac' as [_ Hb].
  match type of Hs with
  | ?A -> _ => assert (HF : A)
  end.
  { apply Forall_forall. intros z Hz. apply in_map_iff in Hz.
    destruct Hz as (k & <- & Hk). apply in_seq in Hk.
    apply distancia_acotada; auto; apply Hidx; apply nth_In; lia. }
  specialize (Hs HF). lia.
Qed.

Lemma total_exacto (M : Z) (distancias : TSP.matriz) (p : list nat) :
  cuadrada distancias -> acotada M distancias ->
  Permutation (range 1 (length distancias)) p -> length distancias <> 0 ->
  total_calculado distancias p = coste_cerrado distancias p.
Proof.
  intros Hc Hac Hp HN. unfold total_calculado. apply int64_exacto.
  assert (H := coste_acotado M distancias p Hc Hac Hp HN). lia.
Qed.

(** The cell on a matrix whose totals do not wrap. *)
Lemma resolver_acotada (M : Z) (distancias : TSP.matriz) :
  cuadrada distancias -> distancias <> [] -> acotada M distancias ->
  exists pre p post,
    permutations (range 1 (length distancias)) = pre ++ p :: post /\
    TSP.resolver distancias
    = Ok (TSP.Estado (Some (TSP.ruta_de p))
                     (TSP.Finito (coste_cerrado distancias p))) /\
    (forall q, In q pre ->
               (coste_cerrado distancias p < coste_cerrado distancias q)%Z) /\
    (forall q, In q post ->
               (coste_cerrado distancias p <= coste_cerrado distancias q)%Z).
Proof.
  intros Hc Hne Hac. assert (HN := length_not_nil _ Hne).
  destruct (resolver_primero distancias (cuadrada_ancha _ Hc) HN)
    as (pre & p & post & E & R & Hpre & Hpost).
  assert (Hperm : forall q, In q (pre ++ p :: post) ->
                            Permutation (range 1 (length distancias)) q).
  { intros q Hq. apply permutations_In. now rewrite E. }
  assert (Hex : forall q, In q (pre ++ p :: post) ->
                          total_calculado distancias q
                          = coste_cerrado distancias q).
  { intros q Hq. apply (total_exacto M); auto. }
  exists pre, p, post. split; [exact E|].
  rewrite <- (Hex p) by apply in_elt. split; [exact R|]. split.
  - intros q Hq. rewrite <- (Hex q) by (apply in_or_app; now left).
    now apply Hpre.
  - intros q Hq.
    rewrite <- (Hex q) by (apply in_or_app; right; now right).
    now apply Hpost.
Qed.

(** ** The Route Enumerator: results *)

Lemma ejemplo_valida : matriz_valida TSP.ejemplo.
Proof.
  unfold matriz_valida, cuadrada. repeat split.
  - repeat constructor.
  - discriminate.
  - repeat (apply Forall_cons || apply Forall_nil); lia.
  - intros i Hi. simpl in Hi.
    destruct i as [|[|[|[|i]]]]; try reflexivity; lia.
Qed.

(** C1, as amended.  On every square [int64] matrix of size [N >= 1] whose
    entries lie between 0 and some [M] with [N * M < 2^63] - so that no total
    wraps - the cell ends with a finite [distancia_minima] that is the
    minimum, over all permutations [P] of [{1..N-1}], of the cost of the
    closed route [(0, P[0], ..., P[N-2], 0)] summed over all its [N] legs,
    the positions [k] in [[0, N)]. *)
Theorem C1_minimo_cerrado (M : Z) (distancias : TSP.matriz) :
  cuadrada distancias -> distancias <> [] -> acotada M distancias ->
  exists p c,
    TSP.resolver distancias
    = Ok (TSP.Estado (Some (TSP.ruta_de p)) (TSP.Finito c)) /\
    Permutation (range 1 (length distancias)) p /\
    c = coste_cerrado distancias p /\
    es_minimo (coste_cerrado distancias) (length distancias) c.
Proof.
  intros Hc Hne Hac.
  destruct (resolver_acotada M distancias Hc Hne Hac)
    as (pre & p & post & E & R & Hpre & Hpost).
  exists p, (coste_cerrado distancias p).
  assert (Hin : forall q, Permutation (range 1 (length distancias)) q ->
                          In q (pre ++ p :: post)).
  { intros q Hq. rewrite <- E. now apply permutations_In. }
  assert (Hp : Permutation (range 1 (length distancias)) p).
  { apply permutations_In. rewrite E. apply in_elt. }
  split; [exact R|]. split; [exact Hp|]. split; [reflexivity|]. split.
  - exists p. split; [exact Hp | reflexivity].
  - intros q Hq. apply Hin in Hq. apply in_app_or in Hq.
    destruct Hq as [Hq|[<-|Hq]].
    + specialize (Hpre q Hq). lia.
    + lia.
    + now apply Hpost.
Qed.

Lemma ejemplo_acotada : acotada 35 TSP.ejemplo.
Proof.
  split; [|simpl; lia].
  repeat (apply Forall_cons || apply Forall_nil); lia.
Qed.

Lemma C1_minimo_cerrado_witness :
  cuadrada TSP.ejemplo /\ TSP.ejemplo <> [] /\
  exists p c,
    TSP.resolver TSP.ejemplo
    = Ok (TSP.Estado (Some (TSP.ruta_de p)) (TSP.Finito c)) /\
    Permutation (range 1 (length TSP.ejemplo)) p /\
    c = coste_cerrado TSP.ejemplo p /\
    es_minimo (coste_cerrado TSP.ejemplo) (length TSP.ejemplo) c.
Proof.
  assert (H1 : cuadrada TSP.ejemplo) by (repeat constructor).
  assert (H2 : TSP.ejemplo <> []) by discriminate.
  split; [exact H1|]. split; [exact H2|].
  exact (C1_minimo_cerrado 35 TSP.ejemplo H1 H2 ejemplo_acotada).
Defined.

(** C1, as stated, fails on the matrix of the notebook: the cell returns
    80, the cost of all four legs of [(0, 1, 3, 2, 0)], while the sum over
    the positions [k] in [[0, N-1)] of the same route is 65. *)
Lemma C1_contraejemplo :
  matriz_valida TSP.ejemplo /\
  TSP.resolver TSP.ejemplo
  = Ok (TSP.Estado (Some [0; 1; 3; 2; 0]) (TSP.Finito 80)) /\
  ~ es_minimo (coste_abierto TSP.ejemplo) (length TSP.ejemplo) 80%Z.
Proof.
  split; [exact ejemplo_valida|]. split; [reflexivity|].
  intros [_ H]. specialize (H [1; 3; 2]).
  assert (Hp : Permutation (range 1 (length TSP.ejemplo)) [1; 3; 2]).
  { simpl. apply perm_skip. apply perm_swap. }
  specialize (H Hp). vm_compute in H. apply H. reflexivity.
Qed.

(** C3, as amended.  On every square [int64] matrix of size [N >= 1],
    whether its totals wrap or not, the returned route has length [N + 1],
    starts and ends at the origin 0, and its interior is a permutation of
    [{1..N-1}]. *)
Theorem C3_ruta_valida (distancias : TSP.matriz) :
  cuadrada distancias -> distancias <> [] ->
  exists ruta c interior,
    TSP.resolver distancias = Ok (TSP.Estado (Some ruta) c) /\
    length ruta = length distancias + 1 /\
    nth 0 ruta 1 = 0 /\
    nth (length distancias) ruta 1 = 0 /\
    ruta = 0 :: interior ++ [0] /\
    Permutation (range 1 (length distancias)) interior.
Proof.
  intros Hc Hne.
  assert (HN := length_not_nil _ Hne).
  destruct (resolver_primero distancias (cuadrada_ancha _ Hc) HN)
    as (pre & p & post & E & R & _ & _).
  assert (Hp : Permutation (range 1 (length distancias)) p).
  { apply permutations_In. rewrite E. apply in_elt. }
  exists (TSP.ruta_de p), (TSP.Finito (total_calculado distancias p)), p.
  assert (Hlen := permutacion_length distancias p Hp HN).
  repeat split; try assumption.
  unfold TSP.ruta_de in *. simpl in Hlen.
  change (0 :: p ++ [0]) with ((0 :: p) ++ [0]).
  rewrite app_nth2; simpl; rewrite length_app in Hlen; simpl in Hlen.
  - replace (length distancias - S (length p)) with 0 by lia. reflexivity.
  - lia.
Qed.

Lemma C3_ruta_valida_witness :
  cuadrada TSP.ejemplo /\ TSP.ejemplo <> [] /\
  exists ruta c interior,
    TSP.resolver TSP.ejemplo = Ok (TSP.Estado (Some ruta) c) /\
    length ruta = length TSP.ejemplo + 1 /\
    nth 0 ruta 1 = 0 /\
    nth (length TSP.ejemplo) ruta 1 = 0 /\
    ruta = 0 :: interior ++ [0] /\
    Permutation (range 1 (length TSP.ejemplo)) interior.
Proof.
  assert (H1 : cuadrada TSP.ejemplo) by (repeat constructor).
  assert (H2 : TSP.ejemplo <> []) by discriminate.
  split; [exact H1|]. split; [exact H2|].
  exact (C3_ruta_valida TSP.ejemplo H1 H2).
Defined.

(** C6, as stated, fails on a valid matrix whose totals leave the [int64]
    range: the three legs of [(0, 1, 2, 0)] cost [3 * 2^62], the cell
    computes [-2^62] for them and keeps that route, although [(0, 2, 1, 0)]
    costs 3. *)
Lemma C6_contraejemplo :
  matriz_valida desbordada /\
  TSP.resolver desbordada
  = Ok (TSP.Estado (Some [0; 1; 2; 0]) (TSP.Finito (- 2 ^ 62))) /\
  Permutation (range 1 (length desbordada)) [2; 1] /\
  Z.lt (coste_cerrado desbordada [2; 1]) (coste_cerrado desbordada [1; 2]).
Proof.
  split; [|split; [|split]].
  - unfold matriz_valida, cuadrada. repeat split.
    + repeat constructor.
    + discriminate.
    + repeat (apply Forall_cons || apply Forall_nil); lia.
    + intros i Hi. simpl in Hi.
      destruct i as [|[|[|i]]]; try reflexivity; lia.
  - vm_compute. reflexivity.
  - simpl. apply perm_swap.
  - vm_compute. reflexivity.
Qed.

(** C6, as amended.  The best route is replaced only on a strictly lower
    total, so on every square [int64] matrix of size [N >= 1] whose entries
    lie between 0 and some [M] with [N * M < 2^63] - no total wraps - the
    returned route closes the first permutation, in the order of the
    enumeration, that reaches the minimum cost: every permutation enumerated
    before it costs strictly more, none costs less, and every other
    permutation of the same cost comes later in the lexicographic order. *)
Theorem C6_primero_gana (M : Z) (distancias : TSP.matriz) :
  cuadrada distancias -> distancias <> [] -> acotada M distancias ->
  exists pre p post,
    permutations (range 1 (length distancias)) = pre ++ p :: post /\
    TSP.resolver distancias
    = Ok (TSP.Estado (Some (TSP.ruta_de p))
                     (TSP.Finito (coste_cerrado distancias p))) /\
    (forall q, In q pre ->
               (coste_cerrado distancias p < coste_cerrado distancias q)%Z) /\
    (forall q, Permutation (range 1 (length distancias)) q ->
               (coste_cerrado distancias p <= coste_cerrado distancias q)%Z) /\
    (forall q, Permutation (range 1 (length distancias)) q ->
               coste_cerrado distancias q = coste_cerrado distancias p ->
               q = p \/ lex_lt p q).
Proof.
  intros Hc Hne Hac.
  destruct (resolver_acotada M distancias Hc Hne Hac)
    as (pre & p & post & E & R & Hpre & Hpost).
  exists pre, p, post.
  assert (Hin : forall q, Permutation (range 1 (length distancias)) q ->
                          In q pre \/ q = p \/ In q post).
  { intros q Hq. apply permutations_In in Hq. rewrite E in Hq.
    apply in_app_or in Hq. destruct Hq as [Hq|[Hq|Hq]]; auto. }
  assert (Hs := permutations_sorted _ (range_sorted 1 (length distancias))).
  rewrite E in Hs. apply StronglySorted_app_l in Hs.
  destruct Hs as (_ & Hs & _). inversion Hs as [|? ? _ Hlex]; subst.
  rewrite Forall_forall in Hlex.
  repeat split; try assumption.
  - intros q Hq. destruct (Hin q Hq) as [H|[->|H]].
    + specialize (Hpre q H). lia.
    + lia.
    + now apply Hpost.
  - intros q Hq Hcost. destruct (Hin q Hq) as [H|[->|H]].
    + specialize (Hpre q H). lia.
    + now left.
    + right. now apply Hlex.
Qed.

Lemma C6_primero_gana_witness :
  cuadrada TSP.ejemplo /\ TSP.ejemplo <> [] /\
  exists pre p post,
    permutations (range 1 (length TSP.ejemplo)) = pre ++ p :: post /\
    TSP.resolver TSP.ejemplo
    = Ok (TSP.Estado (Some (TSP.ruta_de p))
                     (TSP.Finito (coste_cerrado TSP.ejemplo p))) /\
    (forall q, In q pre ->
               (coste_cerrado TSP.ejemplo p < coste_cerrado TSP.ejemplo q)%Z) /\
    (forall q, Permutation (range 1 (length TSP.ejemplo)) q ->
               (coste_cerrado TSP.ejemplo p <= coste_cerrado TSP.ejemplo q)%Z) /\
    (forall q, Permutation (range 1 (length TSP.ejemplo)) q ->
               coste_cerrado TSP.ejemplo q = coste_cerrado TSP.ejemplo p ->
               q = p \/ lex_lt p q).
Proof.
  assert (H1 : cuadrada TSP.ejemplo) by (repeat constructor).
  assert (H2 : TSP.ejemplo <> []) by discriminate.
  split; [exact H1|]. split; [exact H2|].
  exact (C6_primero_gana 35 TSP.ejemplo H1 H2 ejemplo_acotada).
Defined.

(** A matrix with a row too short, and no matrix at all. *)
Example estrecha_falla :
  TSP.resolver estrecha = Raise IndexError /\
  TSP.resolver [] = Raise IndexError.
Proof. split; reflexivity. Qed.

(** The tie of the notebook's matrix: [(0, 1, 3, 2, 0)] and its reverse
    [(0, 2, 3, 1, 0)] both cost 80, and the first one is kept. *)
Example empate_ejemplo :
  coste_cerrado TSP.ejemplo [1; 3; 2] = 80%Z /\
  coste_cerrado TSP.ejemplo [2; 3; 1] = 80%Z /\
  TSP.mejor_ruta
    (match TSP.resolver TSP.ejemplo with
     | Ok st => st
     | Raise _ => TSP.inicial
     end) = Some [0; 1; 3; 2; 0].
Proof. repeat split. Qed.

(** C7, as stated, fails: a matrix with negative entries and a matrix with
    more columns than rows both come back with a result pair. *)
Lemma C7_contraejemplo :
  (tiene_negativo con_negativos = true /\
   TSP.resolver con_negativos
   = Ok (TSP.Estado (Some [0; 1; 0]) (TSP.Finito (-2)))) /\
  (~ cuadrada no_cuadrada /\
   TSP.resolver no_cuadrada
   = Ok (TSP.Estado (Some [0; 1; 0]) (TSP.Finito 2))).
Proof.
  repeat split.
  intros H. inversion H as [|? ? Hlen _]. discriminate Hlen.
Qed.

(** C7, as amended.  The cell validates nothing.  On every rectangular
    [int64] matrix with [N >= 1] rows and at least [N] columns - negative
    entries and surplus columns included - it returns a result pair: a
    closed route and the total it computed for it.  It fails only when the
    matrix is empty or has fewer columns than rows, and then with the
    [IndexError] of the lookup. *)
Theorem C7_sin_validacion (c : nat) (distancias : TSP.matriz) :
  rectangular c distancias ->
  (1 <= length distancias <= c ->
   exists p,
     TSP.resolver distancias
     = Ok (TSP.Estado (Some (TSP.ruta_de p))
                      (TSP.Finito (total_calculado distancias p)))) /\
  (forall e, TSP.resolver distancias = Raise e ->
             e = IndexError /\ ~ 1 <= length distancias <= c).
Proof.
  intros Hrect.
  assert (Hok : 1 <= length distancias <= c ->
                exists p, TSP.resolver distancias
                          = Ok (TSP.Estado (Some (TSP.ruta_de p))
                                  (TSP.Finito (total_calculado distancias p)))).
  { intros [H1 Hc].
    assert (Ha : ancha distancias).
    { unfold ancha. unfold rectangular in Hrect.
      apply (Forall_impl _ (P := fun fila => length fila = c));
        [|exact Hrect].
      intros fila ->. exact Hc. }
    destruct (resolver_primero distancias Ha)
      as (pre & p & post & _ & R & _ & _); [lia|].
    now exists p. }
  split; [exact Hok|].
  intros e He. split; [now apply resolver_raise in He|].
  intros Hn. destruct (Hok Hn) as (p & Hp). congruence.
Qed.

Lemma C7_sin_validacion_witness :
  (exists p,
      TSP.resolver con_negativos
      = Ok (TSP.Estado (Some (TSP.ruta_de p))
                       (TSP.Finito (total_calculado con_negativos p)))) /\
  (exists p,
      TSP.resolver no_cuadrada
      = Ok (TSP.Estado (Some (TSP.ruta_de p))
                       (TSP.Finito (total_calculado no_cuadrada p)))) /\
  (IndexError = IndexError /\ ~ 1 <= length estrecha <= 1).
Proof.
  split; [|split].
  - apply (C7_sin_validacion 2 con_negativos).
    + repeat constructor.
    + simpl. lia.
  - apply (C7_sin_validacion 3 no_cuadrada).
    + repeat constructor.
    + simpl. lia.
  - apply (C7_sin_validacion 1 estrecha).
    + repeat constructor.
    + reflexivity.
Defined.

(** ** Bit patterns *)

Lemma bit_testbit (i j : nat) : Mochila.bit i j = Nat.testbit i j.
Proof.
  unfold Mochila.bit. change 1 with (Nat.ones 1).
  rewrite Nat.land_ones, Nat.shiftr_div_pow2, Nat.pow_1_r.
  rewrite <- Nat.testbit_spec'.
  now destruct (Nat.testbit i j).
Qed.

Lemma de_bits_testbit (bs : list bool) (j : nat) :
  Nat.testbit (de_bits bs) j = nth j bs false.
Proof.
  revert j. induction bs as [|b r IH]; intros j.
  - simpl. rewrite Nat.bits_0. now destruct j.
  - cbn [de_bits]. destruct j as [|j].
    + apply Nat.testbit_0_r.
    + rewrite Nat.testbit_succ_r. apply IH.
Qed.

Lemma de_bits_lt (bs : list bool) : de_bits bs < 2 ^ length bs.
Proof.
  induction bs as [|b r IH]; cbn [de_bits length].
  - simpl. lia.
  - rewrite Nat.pow_succ_r'. destruct b; simpl Nat.b2n; lia.
Qed.

Lemma elegidos_filter (f : Mochila.objeto -> bool) (i : nat) :
  forall (objetos : list Mochila.objeto) (j : nat),
    (forall k, k < length objetos ->
               Mochila.bit i (j + k) = f (nth k objetos (0%Q, 0%Q, 0))) ->
    elegidos i j objetos = filter f objetos.
Proof.
  induction objetos as [|x r IH]; intros j H; simpl; [reflexivity|].
  assert (H0 := H 0 (Nat.lt_0_succ _)). rewrite Nat.add_0_r in H0.
  simpl in H0. rewrite H0.
  rewrite (IH (S j)).
  - reflexivity.
  - intros k Hk. replace (S j + k) with (j + S k) by lia.
    rewrite (H (S k)) by (simpl; lia). reflexivity.
Qed.

Lemma elegidos_patron (objetos : list Mochila.objeto) (S : list nat) :
  elegidos (patron_de objetos S) 0 objetos
  = filter (fun x => existsb (Nat.eqb (Mochila.idx_de x)) S) objetos.
Proof.
  apply elegidos_filter. intros k Hk. simpl.
  rewrite bit_testbit. unfold patron_de. rewrite de_bits_testbit.
  set (f := fun x => existsb (Nat.eqb (Mochila.idx_de x)) S).
  rewrite (nth_indep (map f objetos) false (f (0%Q, 0%Q, 0)))
    by (rewrite length_map; exact Hk).
  apply map_nth.
Qed.

Lemma patron_de_lt (objetos : list Mochila.objeto) (S : list nat) :
  patron_de objetos S < 2 ^ length objetos.
Proof.
  unfold patron_de.
  rewrite <- (length_map (fun x => existsb (Nat.eqb (Mochila.idx_de x)) S)).
  apply de_bits_lt.
Qed.

Lemma elegidos_incl (i : nat) (objetos : list Mochila.objeto) :
  forall j x, In x (elegidos i j objetos) -> In x objetos.
Proof.
  induction objetos as [|y r IH]; intros j x; simpl; [tauto|].
  destruct (Mochila.bit i j); simpl.
  - intros [H|H]; [now left | right; eapply IH; eauto].
  - intros H. right. eapply IH; eauto.
Qed.

Lemma elegidos_NoDup (i : nat) (objetos : list Mochila.objeto) :
  forall j, NoDup (map Mochila.idx_de objetos) ->
            NoDup (map Mochila.idx_de (elegidos i j objetos)).
Proof.
  induction objetos as [|y r IH]; intros j H; simpl; [constructor|].
  inversion H as [|? ? Hnot Hnd]; subst.
  destruct (Mochila.bit i j); simpl.
  - constructor; [|now apply IH].
    intros Hin. apply Hnot. apply in_map_iff in Hin.
    destruct Hin as (x & E & Hx). rewrite <- E. apply in_map.
    eapply elegidos_incl; eauto.
  - now apply IH.
Qed.

(** ** The evaluation of one pattern *)

Section Evaluacion.

Import Mochila.

Variable P : list Q.
Variable C : Q.

Lemma peso_fold (s : list objeto) (ac : acumulado) :
  (peso_total (fold_left (acumular P) s ac)
   == peso_total ac + suma (map peso_de s))%Q.
Proof.
  revert ac. induction s as [|x s IH]; intros ac; simpl.
  - lra.
  - rewrite IH. simpl. lra.
Qed.

Lemma ganancia_fold (s : list objeto) (ac : acumulado) :
  (ganancia_total (fold_left (acumular P) s ac)
   == ganancia_total ac + suma (map (fun x => nth (idx_de x) P 0) s))%Q.
Proof.
  revert ac. induction s as [|x s IH]; intros ac; simpl.
  - lra.
  - rewrite IH. simpl. lra.
Qed.

Lemma seleccion_fold (s : list objeto) (ac : acumulado) :
  seleccion (fold_left (acumular P) s ac) = seleccion ac ++ map idx_de s.
Proof.
  revert ac. induction s as [|x s IH]; intros ac; simpl.
  - now rewrite app_nil_r.
  - rewrite IH. simpl. now rewrite <- app_assoc.
Qed.

Lemma suma_nonneg (l : list Q) :
  Forall (fun q => 0 <= q)%Q l -> (0 <= suma l)%Q.
Proof.
  induction 1 as [|q l Hq _ IH]; simpl; lra.
Qed.

Lemma getitem_medio {A : Type} (pre : list A) (x : A) (r : list A) :
  getitem (pre ++ x :: r) (length pre) = Ok x.
Proof.
  unfold getitem. rewrite nth_error_app2 by lia.
  now rewrite Nat.sub_diag.
Qed.

(** The loop with [break] stops on a prefix of the selected items; it stops
    early only with the capacity already exceeded. *)
Lemma evaluar_prefijo (i : nat) :
  forall (rest pre : list objeto) (ac : acumulado),
    Forall (fun x => idx_de x < length P) rest ->
    exists s1 s2,
      elegidos i (length pre) rest = s1 ++ s2 /\
      evaluar (pre ++ rest) P C i (seq (length pre) (length rest)) ac
      = Ok (fold_left (acumular P) s1 ac) /\
      (s2 = [] \/
       Qlt_bool C (peso_total (fold_left (acumular P) s1 ac)) = true).
Proof.
  induction rest as [|x r IH]; intros pre ac HP.
  - exists [], []. simpl. auto.
  - inversion HP as [|? ? Hx Hr]; subst.
    assert (Hpre : pre ++ x :: r = (pre ++ [x]) ++ r)
      by now rewrite <- app_assoc.
    assert (Hlen : S (length pre) = length (pre ++ [x]))
      by (rewrite length_app; simpl; lia).
    cbn [length seq evaluar elegidos].
    destruct (bit i (length pre)) eqn:Eb.
    + rewrite getitem_medio. cbn [bind].
      rewrite (getitem_nth P (idx_de x) 0%Q Hx). cbn [bind].
      change (Acumulado (peso_total ac + peso_de x)
                (ganancia_total ac + nth (idx_de x) P 0%Q)
                (seleccion ac ++ [idx_de x]))
        with (acumular P ac x).
      destruct (Qlt_bool C (peso_total (acumular P ac x))) eqn:Ec.
      * exists [x], (elegidos i (S (length pre)) r). simpl. auto.
      * rewrite Hpre, Hlen.
        destruct (IH (pre ++ [x]) (acumular P ac x) Hr)
          as (s1 & s2 & E & Ev & Hs).
        exists (x :: s1), s2. rewrite E. simpl. auto.
    + rewrite Hpre, Hlen.
      destruct (IH (pre ++ [x]) ac Hr) as (s1 & s2 & E & Ev & Hs).
      exists s1, s2. auto.
Qed.

Lemma evaluar_completo_ok (i : nat) :
  forall (rest pre : list objeto) (ac : acumulado),
    Forall (fun x => idx_de x < length P) rest ->
    evaluar_completo (pre ++ rest) P C i
                     (seq (length pre) (length rest)) ac
    = Ok (fold_left (acumular P) (elegidos i (length pre) rest) ac).
Proof.
  induction rest as [|x r IH]; intros pre ac HP.
  - reflexivity.
  - inversion HP as [|? ? Hx Hr]; subst.
    assert (Hpre : pre ++ x :: r = (pre ++ [x]) ++ r)
      by now rewrite <- app_assoc.
    assert (Hlen : S (length pre) = length (pre ++ [x]))
      by (rewrite length_app; simpl; lia).
    cbn [length seq evaluar_completo elegidos].
    destruct (bit i (length pre)) eqn:Eb.
    + rewrite getitem_medio. cbn [bind].
      rewrite (getitem_nth P (idx_de x) 0%Q Hx). cbn [bind].
      rewrite Hpre, Hlen. rewrite IH by exact Hr. reflexivity.
    + rewrite Hpre, Hlen. now apply IH.
Qed.

End Evaluacion.

(** ** The loop over the patterns *)

Lemma Qlt_bool_iff (a b : Q) : Mochila.Qlt_bool a b = true <-> (a < b)%Q.
Proof.
  unfold Mochila.Qlt_bool. rewrite negb_true_iff.
  split.
  - intros H. apply Qnot_le_lt. intros Hle.
    apply Qle_bool_iff in Hle. congruence.
  - intros H. destruct (Qle_bool b a) eqn:E; [|reflexivity].
    apply Qle_bool_iff in E. lra.
Qed.

Lemma Qle_bool_false (a b : Q) : Qle_bool a b = false <-> (b < a)%Q.
Proof.
  rewrite <- Qlt_bool_iff. unfold Mochila.Qlt_bool.
  now rewrite negb_true_iff.
Qed.

Section Bucle.

Import Mochila.

Variable objetos : list objeto.
Variable P : list Q.
Variable C : Q.
Hypothesis Hidx : Forall (fun x => idx_de x < length P) objetos.

Let N := length objetos.

Lemma range_0 (n : nat) : range 0 n = seq 0 n.
Proof. unfold range. now rewrite Nat.sub_0_r. Qed.

(** An iteration either leaves the best alone or records the full totals
    of a pattern that fits and is strictly better. *)
Lemma paso_casos (st : mejor) (i : nat) :
  exists st',
    paso objetos P C N st i = Ok st' /\
    (st' = st \/
     ((peso_total (completo objetos P i) <= C)%Q /\
      (mejor_ganancia st < ganancia_total (completo objetos P i))%Q /\
      st' = Mejor (ganancia_total (completo objetos P i))
                  (Some (seleccion (completo objetos P i))))).
Proof.
  unfold paso, paso_con. rewrite range_0.
  destruct (evaluar_prefijo P C i objetos [] vacio Hidx)
    as (s1 & s2 & E & Ev & Hs).
  simpl in E, Ev. fold N in Ev. rewrite Ev. cbn [bind].
  destruct (Qle_bool (peso_total (fold_left (acumular P) s1 vacio)) C) eqn:E1;
    [|eexists; split; [reflexivity | now left]].
  destruct (Qlt_bool (mejor_ganancia st)
              (ganancia_total (fold_left (acumular P) s1 vacio))) eqn:E2;
    [|eexists; split; [reflexivity | now left]].
  simpl. eexists; split; [reflexivity|]. right.
  destruct Hs as [->|Hs].
  - rewrite app_nil_r in E. unfold completo. rewrite E.
    apply Qle_bool_iff in E1. apply Qlt_bool_iff in E2. auto.
  - unfold Qlt_bool in Hs. rewrite E1 in Hs. discriminate.
Qed.

Lemma paso_completo_ok (st : mejor) (i : nat) :
  paso_con evaluar_completo objetos P C N st i
  = Ok (paso_puro objetos P C st i).
Proof.
  unfold paso_con, paso_puro. rewrite range_0.
  assert (H := evaluar_completo_ok P C i objetos [] vacio Hidx).
  simpl in H. fold N in H. rewrite H. cbn [bind]. unfold completo.
  now destruct (_ && _).
Qed.

(** With weights that are not negative, the loop with [break] accepts a
    pattern exactly when its full weight fits, and then with the full
    totals. *)
Lemma evaluar_clasifica (i : nat) :
  Forall (fun x => 0 <= peso_de x)%Q objetos ->
  exists ac,
    evaluar objetos P C i (range 0 N) vacio = Ok ac /\
    Qle_bool (peso_total ac) C
    = Qle_bool (peso_total (completo objetos P i)) C /\
    (Qle_bool (peso_total ac) C = true -> ac = completo objetos P i).
Proof.
  intros Hpos. rewrite range_0.
  destruct (evaluar_prefijo P C i objetos [] vacio Hidx)
    as (s1 & s2 & E & Ev & Hs).
  simpl in E, Ev. fold N in Ev.
  exists (fold_left (acumular P) s1 vacio). split; [exact Ev|].
  unfold completo. rewrite E.
  destruct Hs as [->|Hs].
  - rewrite app_nil_r. auto.
  - assert (H1 : Qle_bool (peso_total (fold_left (acumular P) s1 vacio)) C
                 = false).
    { unfold Qlt_bool in Hs. now apply negb_true_iff in Hs. }
    assert (H2 : Qle_bool
                   (peso_total (fold_left (acumular P) (s1 ++ s2) vacio)) C
                 = false).
    { apply Qle_bool_false. apply Qle_bool_false in H1.
      rewrite fold_left_app.
      rewrite (peso_fold P s2 (fold_left (acumular P) s1 vacio)).
      assert (0 <= suma (map peso_de s2))%Q; [|lra].
      apply suma_nonneg. apply Forall_forall. intros q Hq.
      apply in_map_iff in Hq. destruct Hq as (x & <- & Hx).
      rewrite Forall_forall in Hpos. apply Hpos.
      apply (elegidos_incl i objetos 0). rewrite E.
      apply in_or_app. now right. }
    rewrite H1, H2. split; [reflexivity | discriminate].
Qed.

Lemma paso_sin_break (st : mejor) (i : nat) :
  Forall (fun x => 0 <= peso_de x)%Q objetos ->
  paso objetos P C N st i = Ok (paso_puro objetos P C st i).
Proof.
  intros Hpos. unfold paso, paso_con, paso_puro.
  destruct (evaluar_clasifica i Hpos) as (ac & Ev & Hc & Heq).
  rewrite Ev. cbn [bind]. rewrite <- Hc.
  destruct (Qle_bool (peso_total ac) C) eqn:E; [|reflexivity].
  rewrite (Heq eq_refl). now destruct (_ && _).
Qed.

(** The loop never lowers the best gain, and what it records is a pattern
    that fits. *)
Lemma bucle_registrado (l : list nat) :
  forall st0, exists st,
    foldM (paso objetos P C N) l st0 = Ok st /\
    (mejor_ganancia st0 <= mejor_ganancia st)%Q /\
    (st = st0 \/
     exists i, In i l /\
       (peso_total (completo objetos P i) <= C)%Q /\
       (mejor_ganancia st0 < ganancia_total (completo objetos P i))%Q /\
       st = Mejor (ganancia_total (completo objetos P i))
                  (Some (seleccion (completo objetos P i)))).
Proof.
  induction l as [|a l IH]; intros st0.
  - exists st0. simpl. repeat split; [lra | now left].
  - destruct (paso_casos st0 a) as (st1 & E1 & H1).
    destruct (IH st1) as (st & E & Hmono & Hst).
    exists st. cbn [foldM]. rewrite E1. cbn [bind].
    split; [exact E|].
    destruct H1 as [->|(Hf & Hlt & ->)].
    + split; [exact Hmono|].
      destruct Hst as [->|(i & Hi & H)]; [now left|].
      right. exists i. split; [now right | exact H].
    + simpl in Hmono. split; [lra|]. right.
      destruct Hst as [->|(i & Hi & Hfi & Hlti & ->)].
      * exists a. repeat split; auto. now left.
      * simpl in Hlti. exists i. repeat split; auto; [now right | lra].
Qed.

Lemma paso_puro_mono (l : list nat) :
  forall st0,
    (mejor_ganancia st0
     <= mejor_ganancia (fold_left (paso_puro objetos P C) l st0))%Q.
Proof.
  induction l as [|a l IH]; intros st0; simpl; [lra|].
  eapply Qle_trans; [|apply IH].
  unfold paso_puro.
  destruct (Qle_bool _ C); simpl; [|lra].
  destruct (Qlt_bool _ _) eqn:E; simpl; [|lra].
  apply Qlt_bool_iff in E. lra.
Qed.

(** Every pattern of the loop that fits is at most the final best. *)
Lemma bucle_optimo (l : list nat) :
  forall st0 i, In i l ->
    (peso_total (completo objetos P i) <= C)%Q ->
    (ganancia_total (completo objetos P i)
     <= mejor_ganancia (fold_left (paso_puro objetos P C) l st0))%Q.
Proof.
  induction l as [|a l IH]; intros st0 i Hin Hf; [destruct Hin|].
  simpl. destruct Hin as [->|Hin]; [|now apply IH].
  eapply Qle_trans; [|apply paso_puro_mono].
  unfold paso_puro. apply Qle_bool_iff in Hf. rewrite Hf. simpl.
  destruct (Qlt_bool _ _) eqn:E; simpl; [lra|].
  unfold Qlt_bool in E. apply negb_false_iff in E.
  now apply Qle_bool_iff in E.
Qed.

End Bucle.

(** ** The ranking cell *)

Lemma mapM_Ok_inv {A B : Type} (f : A -> exc B) (l : list A) (bs : list B) :
  mapM f l = Ok bs -> forall a, In a l -> exists b, f a = Ok b.
Proof.
  revert bs. induction l as [|x r IH]; intros bs H a Ha; [destruct Ha|].
  simpl in H. destruct (f x) as [b|e] eqn:Ex; [|discriminate].
  simpl in H. destruct (mapM f r) as [bs'|e] eqn:Er; [|discriminate].
  destruct Ha as [<-|Ha]; [eauto | eapply IH; eauto].
Qed.

Lemma lista_objetos_ok (W P : list Q) :
  length W <= length P -> Mochila.lista_objetos W P = Ok (etiquetados W P).
Proof.
  intros Hlen. unfold Mochila.lista_objetos, etiquetados. rewrite range_0.
  apply mapM_ok. intros i Hi. apply in_seq in Hi.
  rewrite (getitem_nth P i 0%Q) by lia. cbn [bind].
  rewrite (getitem_nth W i 0%Q) by lia. reflexivity.
Qed.

Lemma lista_objetos_inv (W P : list Q) (l : list Mochila.objeto) :
  Mochila.lista_objetos W P = Ok l ->
  length W <= length P /\ l = etiquetados W P.
Proof.
  intros H. assert (Hlen : length W <= length P).
  { destruct (le_lt_dec (length W) (length P)) as [Hle|Hlt]; [exact Hle|].
    unfold Mochila.lista_objetos in H. rewrite range_0 in H.
    destruct (mapM_Ok_inv _ _ _ H (length P)) as (b & Hb).
    - apply in_seq. lia.
    - unfold getitem in Hb.
      rewrite (proj2 (nth_error_None P (length P)) (Nat.le_refl _)) in Hb.
      discriminate. }
  split; [exact Hlen|].
  rewrite (lista_objetos_ok W P Hlen) in H. now inversion H.
Qed.

Lemma insertar_perm {A : Type} (kx : Q * A) (l : list (Q * A)) :
  Permutation (kx :: l) (Mochila.insertar kx l).
Proof.
  induction l as [|ky r IH]; simpl; [reflexivity|].
  destruct (Mochila.Qlt_bool (fst kx) (fst ky)); [|reflexivity].
  rewrite perm_swap. now apply perm_skip.
Qed.

Lemma ordenar_desc_perm {A : Type} (l : list (Q * A)) :
  Permutation l (Mochila.ordenar_desc l).
Proof.
  induction l as [|kx r IH]; simpl; [reflexivity|].
  rewrite <- insertar_perm. now apply perm_skip.
Qed.

Lemma decorar_snd {A : Type} (key : A -> exc Q) (l : list A) :
  forall dec, mapM (fun x => k <- key x ;; Ok (k, x)) l = Ok dec ->
              map snd dec = l.
Proof.
  induction l as [|x r IH]; simpl; intros dec H.
  - now inversion H.
  - destruct (key x) as [k|e]; [|discriminate]. simpl in H.
    destruct (mapM _ r) as [dec'|e]; [|discriminate]. simpl in H.
    inversion H; subst. simpl. f_equal. now apply IH.
Qed.

Lemma sorted_reverse_perm {A : Type} (key : A -> exc Q) (l l' : list A) :
  Mochila.sorted_reverse key l = Ok l' -> Permutation l l'.
Proof.
  unfold Mochila.sorted_reverse. intros H.
  destruct (mapM _ l) as [dec|e] eqn:E; [|discriminate].
  simpl in H. inversion H; subst.
  rewrite <- (decorar_snd key l dec E).
  apply Permutation_map. apply ordenar_desc_perm.
Qed.

Lemma clave_ok (x : Mochila.objeto) :
  ~ (Mochila.peso_de x == 0)%Q ->
  Mochila.clave x = Ok (Mochila.ganancia_de x / Mochila.peso_de x)%Q.
Proof.
  intros H. unfold Mochila.clave, Mochila.truediv.
  destruct (Qeq_bool (Mochila.peso_de x) 0) eqn:E; [|reflexivity].
  apply Qeq_bool_iff in E. contradiction.
Qed.

Lemma clave_raise (x : Mochila.objeto) :
  (Mochila.peso_de x == 0)%Q -> Mochila.clave x = Raise ZeroDivisionError.
Proof.
  intros H. unfold Mochila.clave, Mochila.truediv.
  apply Qeq_bool_iff in H. now rewrite H.
Qed.

Lemma sorted_reverse_ok (l : list Mochila.objeto) :
  (forall x, In x l -> ~ (Mochila.peso_de x == 0)%Q) ->
  exists l', Mochila.sorted_reverse Mochila.clave l = Ok l'.
Proof.
  intros H. unfold Mochila.sorted_reverse.
  rewrite (mapM_ok _ (fun x => ((Mochila.ganancia_de x / Mochila.peso_de x)%Q,
                                x))).
  - simpl. eauto.
  - intros x Hx. rewrite (clave_ok x (H x Hx)). reflexivity.
Qed.

Lemma sorted_reverse_raise (l : list Mochila.objeto) :
  (exists x, In x l /\ (Mochila.peso_de x == 0)%Q) ->
  Mochila.sorted_reverse Mochila.clave l = Raise ZeroDivisionError.
Proof.
  intros (x & Hx & H0). unfold Mochila.sorted_reverse.
  destruct (mapM _ l) as [dec|e] eqn:E.
  - destruct (mapM_Ok_inv _ _ _ E x Hx) as (b & Hb).
    rewrite (clave_raise x H0) in Hb. discriminate.
  - simpl. apply mapM_raise in E. destruct E as (y & _ & Hy).
    unfold Mochila.clave, Mochila.truediv in Hy.
    destruct (Qeq_bool (Mochila.peso_de y) 0); simpl in Hy; congruence.
Qed.

Lemma etiquetados_In (W P : list Q) (x : Mochila.objeto) :
  In x (etiquetados W P) <->
  exists i, i < length W /\ x = (nth i P 0%Q, nth i W 0%Q, i).
Proof.
  unfold etiquetados. rewrite in_map_iff. split.
  - intros (i & <- & Hi). apply in_seq in Hi. exists i. split; [lia | auto].
  - intros (i & Hi & ->). exists i. split; [auto|]. apply in_seq. lia.
Qed.

Lemma etiquetados_idx (W P : list Q) :
  map Mochila.idx_de (etiquetados W P) = seq 0 (length W).
Proof.
  unfold etiquetados. rewrite map_map. simpl. apply map_id.
Qed.

(** ** Patterns and selections of original indices *)

Lemma suma_perm (l l' : list Q) : Permutation l l' -> (suma l == suma l')%Q.
Proof.
  induction 1; simpl; lra.
Qed.

Lemma agregado_perm (X : list Q) (S S' : list nat) :
  Permutation S S' -> (agregado X S == agregado X S')%Q.
Proof.
  intros H. unfold agregado. apply suma_perm. now apply Permutation_map.
Qed.

Lemma map_idx_filter (g : nat -> bool) (l : list Mochila.objeto) :
  map Mochila.idx_de (filter (fun x => g (Mochila.idx_de x)) l)
  = filter g (map Mochila.idx_de l).
Proof.
  induction l as [|x r IH]; simpl; [reflexivity|].
  destruct (g (Mochila.idx_de x)); simpl; now rewrite IH.
Qed.

Section Formados.

Import Mochila.

Variables W P : list Q.
Variable objetos : list objeto.
Hypothesis Hlen : length W <= length P.
Hypothesis Hperm : Permutation (etiquetados W P) objetos.

Lemma objetos_length : length objetos = length W.
Proof.
  rewrite <- (Permutation_length Hperm). unfold etiquetados.
  now rewrite length_map, length_seq.
Qed.

Lemma objetos_In (x : objeto) :
  In x objetos ->
  idx_de x < length W /\ peso_de x = nth (idx_de x) W 0%Q.
Proof.
  intros Hx. apply (Permutation_in _ (Permutation_sym Hperm)) in Hx.
  apply etiquetados_In in Hx. destruct Hx as (i & Hi & ->). auto.
Qed.

Lemma objetos_idx : Forall (fun x => idx_de x < length P) objetos.
Proof.
  apply Forall_forall. intros x Hx. apply objetos_In in Hx. lia.
Qed.

Lemma objetos_idx_perm : Permutation (seq 0 (length W)) (map idx_de objetos).
Proof.
  rewrite <- etiquetados_idx with (P := P). now apply Permutation_map.
Qed.

Lemma objetos_NoDup : NoDup (map idx_de objetos).
Proof.
  apply (Permutation_NoDup objetos_idx_perm). apply seq_NoDup.
Qed.

Lemma completo_seleccion (i : nat) :
  seleccion (completo objetos P i) = map idx_de (elegidos i 0 objetos).
Proof. unfold completo. now rewrite seleccion_fold. Qed.

Lemma completo_ganancia (i : nat) :
  (ganancia_total (completo objetos P i)
   == agregado P (seleccion (completo objetos P i)))%Q.
Proof.
  rewrite completo_seleccion. unfold completo, agregado.
  rewrite ganancia_fold, map_map. simpl. lra.
Qed.

Lemma completo_peso (i : nat) :
  (peso_total (completo objetos P i)
   == agregado W (seleccion (completo objetos P i)))%Q.
Proof.
  rewrite completo_seleccion. unfold completo, agregado.
  rewrite peso_fold, map_map. simpl.
  rewrite (map_ext_in peso_de (fun x => nth (idx_de x) W 0%Q)); [lra|].
  intros x Hx. apply elegidos_incl in Hx. now apply objetos_In.
Qed.

Lemma completo_subconjunto (i : nat) :
  subconjunto (length W) (seleccion (completo objetos P i)).
Proof.
  rewrite completo_seleccion. split.
  - apply elegidos_NoDup. apply objetos_NoDup.
  - apply Forall_forall. intros k Hk. apply in_map_iff in Hk.
    destruct Hk as (x & <- & Hx). apply elegidos_incl in Hx.
    now apply objetos_In.
Qed.

(** Every selection of original indices is the selection of some pattern of
    the loop. *)
Lemma patron_seleccion (S : list nat) :
  subconjunto (length W) S ->
  In (patron_de objetos S) (range 0 (Nat.shiftl 1 (length W))) /\
  Permutation (seleccion (completo objetos P (patron_de objetos S))) S.
Proof.
  intros [Hnd Hin]. split.
  - rewrite range_0, Nat.shiftl_1_l, <- objetos_length. apply in_seq.
    split; [lia|]. apply patron_de_lt.
  - rewrite completo_seleccion, elegidos_patron.
    rewrite (map_idx_filter (fun k => existsb (Nat.eqb k) S)).
    apply NoDup_Permutation.
    + apply NoDup_filter. apply objetos_NoDup.
    + exact Hnd.
    + intros k. rewrite filter_In, existsb_exists. split.
      * intros (_ & y & Hy & E). apply Nat.eqb_eq in E. now subst.
      * intros Hk. split.
        -- apply (Permutation_in _ objetos_idx_perm). apply in_seq.
           rewrite Forall_forall in Hin. specialize (Hin k Hk). lia.
        -- exists k. split; [exact Hk | apply Nat.eqb_refl].
Qed.

(** What the loop leaves in [mejor_ganancia] and [mejor_combinacion],
    whatever the signs of the weights. *)
Lemma enumerar_registrado (C : Q) :
  exists st,
    enumerar objetos P C (length W) = Ok st /\
    (st = inicial \/
     exists sel,
       st = Mejor (mejor_ganancia st) (Some sel) /\
       subconjunto (length W) sel /\
       (agregado W sel <= C)%Q /\
       (0 < mejor_ganancia st)%Q /\
       (mejor_ganancia st == agregado P sel)%Q).
Proof.
  unfold enumerar, enumerar_con. rewrite <- objetos_length.
  destruct (bucle_registrado objetos P C objetos_idx
              (range 0 (Nat.shiftl 1 (length objetos))) inicial)
    as (st & E & _ & Hst).
  exists st. split; [exact E|].
  destruct Hst as [->|(i & _ & Hf & Hlt & ->)]; [now left|].
  right. exists (seleccion (completo objetos P i)). simpl.
  rewrite objetos_length.
  repeat split.
  - apply completo_subconjunto.
  - apply completo_subconjunto.
  - rewrite <- completo_peso. exact Hf.
  - exact Hlt.
  - apply completo_ganancia.
Qed.

(** With weights that are not negative, no selection that fits is worth
    more than the final [mejor_ganancia]. *)
Lemma enumerar_optimo (C : Q) (st : mejor) :
  Forall (fun w => 0 <= w)%Q W ->
  enumerar objetos P C (length W) = Ok st ->
  forall S, subconjunto (length W) S -> (agregado W S <= C)%Q ->
            (agregado P S <= mejor_ganancia st)%Q.
Proof.
  intros Hpos E S HS Hf.
  assert (Hpos' : Forall (fun x => 0 <= peso_de x)%Q objetos).
  { apply Forall_forall. intros x Hx. destruct (objetos_In x Hx) as [Hi ->].
    rewrite Forall_forall in Hpos. apply Hpos. now apply nth_In. }
  unfold enumerar, enumerar_con in E. rewrite <- objetos_length in E.
  rewrite (foldM_ok _ (paso_puro objetos P C)) in E
    by (intros s a _; apply paso_sin_break; [apply objetos_idx | exact Hpos']).
  inversion E as [E']. clear E.
  destruct (patron_seleccion S HS) as [Hin Hsel].
  rewrite <- objetos_length in Hin.
  rewrite <- (agregado_perm P _ _ Hsel), <- completo_ganancia.
  apply bucle_optimo; [exact Hin|].
  rewrite completo_peso, (agregado_perm W _ _ Hsel). exact Hf.
Qed.

End Formados.

Lemma insertar_sorted {A : Type} (kx : Q * A) (l : list (Q * A)) :
  StronglySorted (fun a b => fst b <= fst a)%Q l ->
  StronglySorted (fun a b => fst b <= fst a)%Q (Mochila.insertar kx l).
Proof.
  induction 1 as [|ky r HS IH HF]; simpl; [repeat constructor|].
  destruct (Mochila.Qlt_bool (fst kx) (fst ky)) eqn:E.
  - apply Qlt_bool_iff in E. constructor; [exact IH|].
    apply (Permutation_Forall (insertar_perm kx r)).
    constructor; [lra | exact HF].
  - assert (Hle : (fst ky <= fst kx)%Q).
    { unfold Mochila.Qlt_bool in E. apply negb_false_iff in E.
      now apply Qle_bool_iff in E. }
    constructor; [now constructor|].
    constructor; [exact Hle|].
    apply (Forall_impl _ (P := fun b => fst b <= fst ky)%Q); [|exact HF].
    intros b Hb. lra.
Qed.

Lemma ordenar_desc_sorted {A : Type} (l : list (Q * A)) :
  StronglySorted (fun a b => fst b <= fst a)%Q (Mochila.ordenar_desc l).
Proof.
  induction l as [|kx r IH]; simpl; [constructor|].
  now apply insertar_sorted.
Qed.

Lemma StronglySorted_map_inv {A B : Type} (R : A -> A -> Prop)
  (R' : B -> B -> Prop) (I : A -> Prop) (f : A -> B) (L : list A) :
  (forall a b, I a -> I b -> R a b -> R' (f a) (f b)) ->
  Forall I L -> StronglySorted R L -> StronglySorted R' (map f L).
Proof.
  intros Hf HI HS. induction HS as [|a L HS IH HF]; simpl; [constructor|].
  inversion HI as [|? ? Ha HL]; subst.
  constructor; [now apply IH|].
  rewrite Forall_forall in *. intros b Hb.
  apply in_map_iff in Hb. destruct Hb as (b' & <- & Hb').
  apply Hf; auto.
Qed.

Lemma sorted_reverse_sorted (l l' : list Mochila.objeto) :
  (forall x, In x l -> ~ (Mochila.peso_de x == 0)%Q) ->
  Mochila.sorted_reverse Mochila.clave l = Ok l' ->
  StronglySorted antes l'.
Proof.
  intros Hnz. unfold Mochila.sorted_reverse.
  rewrite (mapM_ok _ (fun x => (razon x, x)))
    by (intros x Hx; rewrite (clave_ok x (Hnz x Hx)); reflexivity).
  cbn [bind]. intros H. inversion H; subst. clear H.
  apply (StronglySorted_map_inv
           (fun a b => fst b <= fst a)%Q antes
           (fun a => fst a = razon (snd a))).
  - intros a b Ha Hb Hab. unfold antes. now rewrite <- Ha, <- Hb.
  - apply (Permutation_Forall (ordenar_desc_perm _)).
    apply Forall_forall. intros a Ha. apply in_map_iff in Ha.
    destruct Ha as (x & <- & _). reflexivity.
  - apply ordenar_desc_sorted.
Qed.

Lemma ordenar_inv (W P : list Q) (objetos : list Mochila.objeto) :
  Mochila.ordenar W P = Ok objetos ->
  length W <= length P /\ Permutation (etiquetados W P) objetos.
Proof.
  unfold Mochila.ordenar. intros H.
  destruct (Mochila.lista_objetos W P) as [l|e] eqn:El; [|discriminate].
  simpl in H. apply lista_objetos_inv in El. destruct El as [Hlen ->].
  split; [exact Hlen|]. now apply sorted_reverse_perm in H.
Qed.

Lemma ordenar_ok (W P : list Q) :
  length W <= length P ->
  (forall w, In w W -> ~ (w == 0)%Q) ->
  exists objetos,
    Mochila.ordenar W P = Ok objetos /\
    Permutation (etiquetados W P) objetos /\
    StronglySorted antes objetos.
Proof.
  intros Hlen Hnz.
  assert (Hnz' : forall x, In x (etiquetados W P) ->
                           ~ (Mochila.peso_de x == 0)%Q).
  { intros x Hx. apply etiquetados_In in Hx. destruct Hx as (i & Hi & ->).
    simpl. apply Hnz. now apply nth_In. }
  destruct (sorted_reverse_ok (etiquetados W P) Hnz') as (objetos & E).
  assert (Eo : Mochila.ordenar W P = Ok objetos).
  { unfold Mochila.ordenar. now rewrite (lista_objetos_ok W P Hlen). }
  exists objetos. split; [exact Eo|]. split.
  - now apply ordenar_inv in Eo.
  - exact (sorted_reverse_sorted _ _ Hnz' E).
Qed.

Lemma ordenar_raise (W P : list Q) :
  length W <= length P ->
  (exists w, In w W /\ (w == 0)%Q) ->
  Mochila.ordenar W P = Raise ZeroDivisionError.
Proof.
  intros Hlen (w & Hw & H0).
  unfold Mochila.ordenar. rewrite (lista_objetos_ok W P Hlen). cbn [bind].
  apply sorted_reverse_raise.
  destruct (In_nth W w 0%Q Hw) as (i & Hi & <-).
  exists (nth i P 0%Q, nth i W 0%Q, i). split; [|exact H0].
  apply etiquetados_In. eauto.
Qed.

Lemma positivos_no_cero (W : list Q) :
  (forall w, In w W -> (0 < w)%Q) -> forall w, In w W -> ~ (w == 0)%Q.
Proof. intros H w Hw E. specialize (H w Hw). lra. Qed.

Lemma positivos_no_negativos (W : list Q) :
  (forall w, In w W -> (0 < w)%Q) -> Forall (fun w => 0 <= w)%Q W.
Proof.
  intros H. apply Forall_forall. intros w Hw. specialize (H w Hw). lra.
Qed.

(** The whole notebook on positive weights. *)
Lemma resolver_spec (W P : list Q) (C : Q) :
  (forall w, In w W -> (0 < w)%Q) -> length W <= length P ->
  exists st,
    Mochila.resolver W P C = Ok st /\
    (forall S, subconjunto (length W) S -> factible W C S ->
               (agregado P S <= Mochila.mejor_ganancia st)%Q) /\
    (st = Mochila.inicial \/
     exists sel,
       st = Mochila.Mejor (Mochila.mejor_ganancia st) (Some sel) /\
       subconjunto (length W) sel /\ factible W C sel /\
       (0 < Mochila.mejor_ganancia st)%Q /\
       (Mochila.mejor_ganancia st == agregado P sel)%Q).
Proof.
  intros Hpos Hlen.
  destruct (ordenar_ok W P Hlen (positivos_no_cero W Hpos))
    as (objetos & Eo & Hperm & _).
  destruct (enumerar_registrado W P objetos Hlen Hperm C) as (st & E & Hst).
  exists st. unfold Mochila.resolver. rewrite Eo. cbn [bind].
  split; [exact E|]. split; [|exact Hst].
  apply (enumerar_optimo W P objetos Hlen Hperm C st
           (positivos_no_negativos W Hpos) E).
Qed.

Lemma resolver_sin_ordenar_spec (W P : list Q) (C : Q) :
  (forall w, In w W -> (0 < w)%Q) -> length W <= length P ->
  exists st,
    Mochila.resolver_sin_ordenar W P C = Ok st /\
    (forall S, subconjunto (length W) S -> factible W C S ->
               (agregado P S <= Mochila.mejor_ganancia st)%Q) /\
    (st = Mochila.inicial \/
     exists sel,
       st = Mochila.Mejor (Mochila.mejor_ganancia st) (Some sel) /\
       subconjunto (length W) sel /\ factible W C sel /\
       (0 < Mochila.mejor_ganancia st)%Q /\
       (Mochila.mejor_ganancia st == agregado P sel)%Q).
Proof.
  intros Hpos Hlen.
  assert (Hperm : Permutation (etiquetados W P) (etiquetados W P))
    by reflexivity.
  destruct (enumerar_registrado W P _ Hlen Hperm C) as (st & E & Hst).
  exists st. unfold Mochila.resolver_sin_ordenar.
  rewrite (lista_objetos_ok W P Hlen). cbn [bind].
  split; [exact E|]. split; [|exact Hst].
  apply (enumerar_optimo W P _ Hlen Hperm C st
           (positivos_no_negativos W Hpos) E).
Qed.

(** ** The Subset Enumerator: results *)


(** The two orders of the notebook's items: the same gain, and here two
    different listings of the same selection. *)
Example orden_ejemplo :
  Mochila.resolver_sin_ordenar
    Mochila.W_ejemplo Mochila.P_ejemplo Mochila.C_ejemplo
  = Ok (Mochila.Mejor 22 (Some [0; 1; 4])).
Proof. vm_compute. reflexivity. Qed.



(** The same on the whole notebook: with weights that are not negative it
    returns, or raises, what the notebook without [break] does. *)
Lemma resolver_sin_break_eq (W P : list Q) (C : Q) :
  Forall (fun w => 0 <= w)%Q W ->
  Mochila.resolver W P C = Mochila.resolver_sin_break W P C.
Proof.
  intros Hpos. unfold Mochila.resolver, Mochila.resolver_sin_break.
  destruct (Mochila.ordenar W P) as [objetos|e] eqn:Eo; [|reflexivity].
  cbn [bind]. apply ordenar_inv in Eo. destruct Eo as [Hlen Hperm].
  assert (Hidx := objetos_idx W P objetos Hlen Hperm).
  assert (Hpos' : Forall (fun x => 0 <= Mochila.peso_de x)%Q objetos).
  { apply Forall_forall. intros x Hx.
    destruct (objetos_In W P objetos Hperm x Hx) as [Hi ->].
    rewrite Forall_forall in Hpos. apply Hpos. now apply nth_In. }
  rewrite <- (objetos_length W P objetos Hperm).
  unfold Mochila.enumerar, Mochila.enumerar_con.
  rewrite (foldM_ok _ (paso_puro objetos P C))
    by (intros s a _; now apply paso_sin_break).
  rewrite (foldM_ok (Mochila.paso_con Mochila.evaluar_completo _ _ _ _)
                    (paso_puro objetos P C))
    by (intros s a _; now apply paso_completo_ok).
  reflexivity.
Qed.

(** Without the sign condition the two evaluations part: with weights 5 and
    -5 and capacity 3, the pattern with both bits set is abandoned after the
    first item, although its full weight is 0. *)
Example abandono_con_negativos :
  Mochila.evaluar [(1%Q, 5%Q, 0); (1%Q, (-5)%Q, 1)] [1%Q; 1%Q] 3%Q 3
                  (range 0 2) Mochila.vacio
  = Ok (Mochila.Acumulado (0 + 5) (0 + 1) [0]) /\
  Mochila.evaluar_completo [(1%Q, 5%Q, 0); (1%Q, (-5)%Q, 1)] [1%Q; 1%Q] 3%Q 3
                           (range 0 2) Mochila.vacio
  = Ok (Mochila.Acumulado (0 + 5 + -5) (0 + 1 + 1) [0; 1]).
Proof. split; reflexivity. Qed.


(** C9: what the notebook does on the two edge cases.  With no items, and
    with capacity 0 over positive weights, it ends with best gain 0 and
    [mejor_combinacion] still [None]: the empty selection is never
    recorded, because its gain 0 is not above the initial best.  The last
    cell then fails on [sorted(None)]. *)
Theorem C9_sin_combinacion :
  (forall P C,
      Mochila.resolver [] P C = Ok (Mochila.Mejor 0 None) /\
      Mochila.cuaderno [] P C = Raise TypeError) /\
  (forall W P,
      (forall w, In w W -> (0 < w)%Q) -> length W <= length P ->
      Mochila.resolver W P 0 = Ok (Mochila.Mejor 0 None) /\
      Mochila.cuaderno W P 0 = Raise TypeError).
Proof.
  assert (Hm : forall W P C,
             Mochila.resolver W P C = Ok (Mochila.Mejor 0 None) ->
             Mochila.cuaderno W P C = Raise TypeError).
  { intros W P C H. unfold Mochila.cuaderno. now rewrite H. }
  split.
  - intros P C.
    assert (H : Mochila.resolver [] P C = Ok (Mochila.Mejor 0 None)).
    { unfold Mochila.resolver, Mochila.ordenar. simpl.
      unfold Mochila.enumerar, Mochila.enumerar_con. simpl.
      unfold Mochila.paso_con. simpl.
      now destruct (Qle_bool 0 C). }
    split; [exact H | now apply Hm].
  - intros W P Hpos Hlen.
    assert (H : Mochila.resolver W P 0 = Ok (Mochila.Mejor 0 None)).
    { destruct (resolver_spec W P 0 Hpos Hlen) as (st & E & _ & Hst).
      rewrite E. f_equal.
      destruct Hst as [->|(sel & _ & Hs & Hf & Hp & Hg)]; [reflexivity|].
      exfalso. destruct sel as [|k sel].
      + unfold agregado in Hg. simpl in Hg. lra.
      + unfold factible, agregado in Hf. simpl in Hf.
        destruct Hs as [_ Hin]. inversion Hin as [|? ? Hk Hrest]; subst.
        assert (H1 : (0 < nth k W 0)%Q) by (apply Hpos; now apply nth_In).
        assert (H2 : (0 <= suma (map (fun i => nth i W 0) sel))%Q).
        { apply suma_nonneg. apply Forall_forall. intros q Hq.
          apply in_map_iff in Hq. destruct Hq as (i & <- & Hi).
          rewrite Forall_forall in Hrest.
          apply Qlt_le_weak. apply Hpos. apply nth_In. now apply Hrest. }
        lra. }
    split; [exact H | now apply Hm].
Qed.

Lemma C9_sin_combinacion_witness :
  (Mochila.resolver [] [] Mochila.C_ejemplo = Ok (Mochila.Mejor 0 None) /\
   Mochila.cuaderno [] [] Mochila.C_ejemplo = Raise TypeError) /\
  (Mochila.resolver [2%Q; 1%Q] [5%Q; 7%Q] 0 = Ok (Mochila.Mejor 0 None) /\
   Mochila.cuaderno [2%Q; 1%Q] [5%Q; 7%Q] 0 = Raise TypeError).
Proof.
  split.
  - apply (proj1 C9_sin_combinacion).
  - apply (proj2 C9_sin_combinacion).
    + intros w Hw. simpl in Hw.
      destruct Hw as [<-|[<-|[]]]; reflexivity.
    + simpl. lia.
Defined.



(** ** More on the route cell *)

Lemma foldM_inv {A S : Type} (body : S -> A -> exc S) (I : S -> Prop)
  (l : list A) :
  (forall s a s', In a l -> I s -> body s a = Ok s' -> I s') ->
  forall s0 s, I s0 -> foldM body l s0 = Ok s -> I s.
Proof.
  induction l as [|a r IH]; simpl; intros Hstep s0 s H0 H.
  - now inversion H; subst.
  - destruct (body s0 a) as [s1|e] eqn:E; [|discriminate]. simpl in H.
    apply (IH (fun s a s' Ha => Hstep s a s' (or_intror Ha)) s1 s); auto.
    apply (Hstep s0 a s1); auto.
Qed.

Lemma foldM_Ok_pasos {A S : Type} (body : S -> A -> exc S) (l : list A) :
  forall s0 s, foldM body l s0 = Ok s ->
               forall a, In a l -> exists s1 s2, body s1 a = Ok s2.
Proof.
  induction l as [|x r IH]; simpl; intros s0 s H a Ha; [destruct Ha|].
  destruct (body s0 x) as [s1|e] eqn:E; [|discriminate]. simpl in H.
  destruct Ha as [<-|Ha]; [eauto | eapply IH; eauto].
Qed.

Lemma foldM_ext_in {A S : Type} (f g : S -> A -> exc S) (l : list A) :
  (forall s a, In a l -> f s a = g s a) ->
  forall s, foldM f l s = foldM g l s.
Proof.
  induction l as [|a r IH]; simpl; intros H s; [reflexivity|].
  rewrite (H s a (or_introl eq_refl)).
  destruct (g s a) as [s'|e]; simpl; [|reflexivity].
  apply IH. intros s1 b Hb. apply H. now right.
Qed.

(** X1.  Whenever the route cell finishes on an [int64] matrix, of any
    shape and with any entries, it has recorded a route - [mejor_ruta] is
    not left [None] and [distancia_minima] not infinite - the route closes a
    permutation of [{1..N-1}], and the recorded minimum is the total the
    cell computes for that very route. *)
Theorem X1_ruta_registrada (distancias : TSP.matriz) (st : TSP.estado) :
  TSP.resolver distancias = Ok st ->
  exists p c,
    st = TSP.Estado (Some (TSP.ruta_de p)) (TSP.Finito c) /\
    Permutation (range 1 (length distancias)) p /\
    TSP.distancia_total distancias (TSP.ruta_de p) = Ok c.
Proof.
  unfold TSP.resolver. intros H.
  set (I := fun st : TSP.estado =>
              exists p c,
                st = TSP.Estado (Some (TSP.ruta_de p)) (TSP.Finito c) /\
                Permutation (range 1 (length distancias)) p /\
                TSP.distancia_total distancias (TSP.ruta_de p) = Ok c).
  assert (Hstep : forall s a s',
             In a (permutations (range 1 (length distancias))) ->
             (s = TSP.inicial \/ I s) ->
             TSP.paso distancias s a = Ok s' -> I s').
  { intros s a s' Ha Hs Hp. unfold TSP.paso in Hp.
    destruct (TSP.distancia_total distancias (TSP.ruta_de a)) as [t|e] eqn:Et;
      [|discriminate].
    simpl in Hp.
    destruct (TSP.menor t (TSP.distancia_minima s)) eqn:Em;
      inversion Hp; subst.
    - exists a, t. repeat split; [now apply permutations_In | exact Et].
    - destruct Hs as [->|Hs]; [discriminate | exact Hs]. }
  destruct (permutations (range 1 (length distancias))) as [|p0 rest] eqn:El.
  - now apply permutations_not_nil in El.
  - simpl in H.
    destruct (TSP.paso distancias TSP.inicial p0) as [s1|e] eqn:E1;
      [|discriminate].
    simpl in H.
    apply (foldM_inv (TSP.paso distancias) I rest) with (s0 := s1).
    + intros s a s' Ha Hs. apply Hstep; [now right | now right].
    + apply (Hstep TSP.inicial p0 s1); [now left | now left | exact E1].
    + exact H.
Qed.

Lemma X1_ruta_registrada_witness :
  exists p c,
    TSP.Estado (Some [0; 1; 0]) (TSP.Finito (-2))
    = TSP.Estado (Some (TSP.ruta_de p)) (TSP.Finito c) /\
    Permutation (range 1 (length con_negativos)) p /\
    TSP.distancia_total con_negativos (TSP.ruta_de p) = Ok c.
Proof.
  apply (X1_ruta_registrada con_negativos). reflexivity.
Defined.

Lemma mapM_ext_in {A B : Type} (f g : A -> exc B) (l : list A) :
  (forall a, In a l -> f a = g a) -> mapM f l = mapM g l.
Proof.
  induction l as [|a r IH]; simpl; intros H; [reflexivity|].
  rewrite (H a (or_introl eq_refl)).
  rewrite IH by (intros b Hb; apply H; now right). reflexivity.
Qed.

Lemma tramos_ruta_de (p : list nat) :
  tramos (TSP.ruta_de p) = combine (0 :: p) (p ++ [0]).
Proof.
  unfold tramos, TSP.ruta_de.
  change (0 :: p ++ [0]) with ((0 :: p) ++ [0]) at 1.
  now rewrite removelast_last.
Qed.

Lemma combine_In_r {A B : Type} (l2 : list B) :
  forall (l1 : list A) (y : B),
    In y l2 -> length l2 <= length l1 -> exists x, In (x, y) (combine l1 l2).
Proof.
  induction l2 as [|b l2 IH]; intros l1 y Hy Hlen; [destruct Hy|].
  destruct l1 as [|a l1]; simpl in Hlen; [lia|].
  destruct Hy as [<-|Hy].
  - exists a. now left.
  - destruct (IH l1 y Hy) as (x & Hx); [lia|]. exists x. now right.
Qed.

(** Consecutive stops of a route without repetition differ. *)
Lemma tramos_distintos (z : nat) (p : list nat) :
  forall x, NoDup (x :: p) -> ~ In z p -> (p = [] -> x <> z) ->
            forall a b, In (a, b) (combine (x :: p) (p ++ [z])) -> a <> b.
Proof.
  induction p as [|y p IH]; intros x Hnd Hz Hx a b Hin.
  - simpl in Hin. destruct Hin as [E|[]]. inversion E; subst. now apply Hx.
  - simpl in Hin. destruct Hin as [E|Hin].
    + inversion E; subst. inversion Hnd as [|? ? Hnot _]; subst.
      intros ->. apply Hnot. now left.
    + inversion Hnd as [|? ? _ Hnd']; subst.
      apply (IH y Hnd'); [| |exact Hin].
      * intros H. apply Hz. now right.
      * intros -> ->. apply Hz. now left.
Qed.

Lemma permutacion_sin_origen (N : nat) (p : list nat) :
  Permutation (range 1 N) p -> NoDup (0 :: p).
Proof.
  intros Hp. constructor.
  - intros H. apply (Permutation_in _ (Permutation_sym Hp)) in H.
    unfold range in H. apply in_seq in H. lia.
  - apply (Permutation_NoDup Hp). apply seq_NoDup.
Qed.

(** X2.  With two cities or more the route cell never reads the diagonal,
    nor any cell outside the leading [N x N] block: two matrices with the
    same number of rows whose lookups agree on the cells [(i, j)] with
    [i <> j] and [i, j < N] give the same outcome, result or exception. *)
Theorem X2_solo_fuera_de_la_diagonal (d d' : TSP.matriz) :
  length d = length d' -> 2 <= length d ->
  (forall i j, i < length d -> j < length d -> i <> j ->
               TSP.celda d (i, j) = TSP.celda d' (i, j)) ->
  TSP.resolver d = TSP.resolver d'.
Proof.
  intros Hlen HN Hcel. unfold TSP.resolver. rewrite <- Hlen.
  apply foldM_ext_in. intros st p Hp.
  apply permutations_In in Hp.
  assert (Hd : TSP.distancia_total d (TSP.ruta_de p)
               = TSP.distancia_total d' (TSP.ruta_de p)).
  { unfold TSP.distancia_total. fold (tramos (TSP.ruta_de p)).
    rewrite (mapM_ext_in (TSP.celda d) (TSP.celda d')); [reflexivity|].
    intros [a b] Hab.
    assert (Hidx := permutacion_indices d p Hp ltac:(lia)).
    rewrite Forall_forall in Hidx.
    rewrite tramos_ruta_de in Hab.
    assert (Ha : In a (TSP.ruta_de p)).
    { apply in_combine_l in Hab. unfold TSP.ruta_de.
      change (0 :: p ++ [0]) with ((0 :: p) ++ [0]).
      apply in_or_app. now left. }
    assert (Hb : In b (TSP.ruta_de p)).
    { apply in_combine_r in Hab. now right. }
    apply Hcel; [now apply Hidx | now apply Hidx |].
    assert (Hnd := permutacion_sin_origen (length d) p Hp).
    apply (tramos_distintos 0 p 0 Hnd); [| |exact Hab].
    - now inversion Hnd.
    - intros ->. apply Permutation_length in Hp.
      unfold range in Hp. rewrite length_seq in Hp. simpl in Hp. lia. }
  unfold TSP.paso. now rewrite Hd.
Qed.

Lemma X2_solo_fuera_de_la_diagonal_witness :
  TSP.resolver [ [0; 3]; [4; 0] ]%Z = TSP.resolver [ [7; 3; 1]; [4; 9; 1] ]%Z.
Proof.
  apply X2_solo_fuera_de_la_diagonal.
  - reflexivity.
  - simpl. lia.
  - intros i j Hi Hj Hij. simpl in Hi, Hj.
    destruct i as [|[|i]]; destruct j as [|[|j]]; try lia; reflexivity.
Defined.

(** X3.  On a rectangular matrix of [N] rows and [c] columns the route cell
    returns a result exactly when [1 <= N <= c]; an empty matrix and a
    matrix with fewer columns than rows both end in [IndexError]. *)
Theorem X3_rectangular (c : nat) (distancias : TSP.matriz) :
  rectangular c distancias ->
  ((exists st, TSP.resolver distancias = Ok st) <->
   1 <= length distancias <= c) /\
  (~ 1 <= length distancias <= c ->
   TSP.resolver distancias = Raise IndexError).
Proof.
  intros Hrect.
  assert (Hok : 1 <= length distancias <= c ->
                exists st, TSP.resolver distancias = Ok st).
  { intros [H1 Hc].
    assert (Ha : ancha distancias).
    { unfold ancha. unfold rectangular in Hrect.
      apply (Forall_impl _ (P := fun fila => length fila = c));
        [|exact Hrect].
      intros fila ->. exact Hc. }
    destruct (resolver_primero distancias Ha) as (pre & p & post & _ & R & _);
      [lia|].
    eauto. }
  assert (Hno : forall st, TSP.resolver distancias = Ok st ->
                           1 <= length distancias <= c).
  { intros st H. unfold TSP.resolver in H.
    set (N := length distancias) in *.
    destruct (foldM_Ok_pasos _ _ _ _ H (range 1 N)) as (s1 & s2 & Hp).
    { apply permutations_In. reflexivity. }
    unfold TSP.paso in Hp.
    destruct (TSP.distancia_total distancias (TSP.ruta_de (range 1 N)))
      as [t|e] eqn:Et; [|discriminate].
    unfold TSP.distancia_total in Et.
    fold (tramos (TSP.ruta_de (range 1 N))) in Et.
    destruct (mapM _ _) as [ts|e] eqn:Em in Et; [|discriminate].
    rewrite tramos_ruta_de in Em.
    destruct (combine_In_r (range 1 N ++ [0]) (0 :: range 1 N) (N - 1))
      as (x & Hx).
    { unfold range. destruct (le_lt_dec N 1) as [Hle|Hgt].
      - apply in_or_app. right. left. lia.
      - apply in_or_app. left. apply in_seq. lia. }
    { rewrite length_app. simpl. lia. }
    destruct (mapM_Ok_inv _ _ _ Em (x, N - 1) Hx) as (z & Hz).
    unfold TSP.celda in Hz. simpl in Hz.
    unfold getitem in Hz at 1.
    destruct (nth_error distancias x) as [fila|] eqn:Ef; [|discriminate].
    simpl in Hz. unfold getitem in Hz.
    destruct (nth_error fila (N - 1)) as [z'|] eqn:Ec; [|discriminate].
    assert (Hx' : x < N) by (apply nth_error_Some; unfold N; congruence).
    assert (Hc' : N - 1 < length fila) by (apply nth_error_Some; congruence).
    apply nth_error_In in Ef. unfold rectangular in Hrect.
    rewrite Forall_forall in Hrect. rewrite (Hrect fila Ef) in Hc'. lia. }
  split.
  - split; [intros (st & H); now apply (Hno st) | exact Hok].
  - intros Hn. destruct (TSP.resolver distancias) as [st|e] eqn:E.
    + exfalso. apply Hn. now apply (Hno st).
    + f_equal. now apply resolver_raise in E.
Qed.

Lemma X3_rectangular_witness :
  ((exists st, TSP.resolver no_cuadrada = Ok st) <->
   1 <= length no_cuadrada <= 3) /\
  TSP.resolver estrecha = Raise IndexError.
Proof.
  split.
  - apply (X3_rectangular 3 no_cuadrada). repeat constructor.
  - apply (X3_rectangular 1 estrecha).
    + repeat constructor.
    + simpl. lia.
Defined.

(** Reversing a route on a symmetric matrix. *)

Lemma coste_cerrado_tramos (d : TSP.matriz) (p : list nat) :
  Permutation (range 1 (length d)) p -> length d <> 0 ->
  coste_cerrado d p
  = fold_right Z.add 0%Z
      (map (fun ij => distancia d (fst ij) (snd ij))
           (combine (0 :: p) (p ++ [0]))).
Proof.
  intros Hp HN. unfold coste_cerrado, coste_tramos.
  rewrite <- tramos_ruta_de. unfold tramos. rewrite tramos_ruta.
  rewrite (permutacion_length d p Hp HN).
  replace (length d + 1 - 1) with (length d) by lia.
  now rewrite map_map.
Qed.

Lemma combine_app_eq {A B : Type} (l1 : list A) :
  forall (l2 : list B) (l1' : list A) (l2' : list B),
    length l1 = length l2 ->
    combine (l1 ++ l1') (l2 ++ l2') = combine l1 l2 ++ combine l1' l2'.
Proof.
  induction l1 as [|a l1 IH]; intros [|b l2] l1' l2' H; simpl in *;
    try discriminate; [reflexivity|].
  f_equal. apply IH. lia.
Qed.

Lemma tramos_rev (z : nat) (p : list nat) :
  forall x,
    Permutation (combine (z :: rev p) (rev p ++ [x]))
                (map (fun ij => (snd ij, fst ij))
                     (combine (x :: p) (p ++ [z]))).
Proof.
  induction p as [|y p IH]; intros x; [reflexivity|].
  cbn [rev].
  change (z :: rev p ++ [y]) with ((z :: rev p) ++ [y]).
  rewrite combine_app_eq
    by (simpl; rewrite length_app; simpl; lia).
  cbn [combine app map fst snd].
  rewrite <- Permutation_cons_append. apply perm_skip. apply IH.
Qed.

Lemma suma_Z_perm (l l' : list Z) :
  Permutation l l' -> fold_right Z.add 0%Z l = fold_right Z.add 0%Z l'.
Proof.
  induction 1; simpl; lia.
Qed.

Lemma coste_cerrado_rev (d : TSP.matriz) (p : list nat) :
  simetrica d -> Permutation (range 1 (length d)) p -> length d <> 0 ->
  coste_cerrado d (rev p) = coste_cerrado d p.
Proof.
  intros Hs Hp HN.
  assert (Hr : Permutation (range 1 (length d)) (rev p)).
  { rewrite Hp. apply Permutation_rev. }
  rewrite (coste_cerrado_tramos d (rev p) Hr HN).
  rewrite (coste_cerrado_tramos d p Hp HN).
  rewrite (suma_Z_perm _ _ (Permutation_map _ (tramos_rev 0 p 0))).
  rewrite map_map. f_equal. apply map_ext. intros [i j]. simpl. apply Hs.
Qed.

Lemma hd_rev (p : list nat) (d : nat) : hd d (rev p) = last p d.
Proof.
  induction p as [|a q _] using rev_ind; [reflexivity|].
  rewrite rev_app_distr, last_last. reflexivity.
Qed.

Lemma last_In (l : list nat) (d : nat) : l <> [] -> In (last l d) l.
Proof.
  induction l as [|a l IH]; [congruence|]. intros _.
  destruct l as [|b l]; [now left|].
  right. apply IH. discriminate.
Qed.

Lemma lex_lt_hd (p q : list nat) : lex_lt p q -> hd 0 p <= hd 0 q.
Proof.
  destruct 1; simpl; lia.
Qed.

(** X4.  On a symmetric square [int64] matrix whose entries lie between 0
    and some [M] with [N * M < 2^63] - no total wraps - a route and its
    reverse cost the same, and of the two directions of the best tour the
    cell keeps the one enumerated first: with three cities or more, the
    first stop of the returned route has a smaller index than its last
    stop. *)
Theorem X4_sentido_de_la_ruta (M : Z) (distancias : TSP.matriz) :
  cuadrada distancias -> simetrica distancias -> acotada M distancias ->
  3 <= length distancias ->
  (forall q, Permutation (range 1 (length distancias)) q ->
             coste_cerrado distancias (rev q) = coste_cerrado distancias q) /\
  exists p,
    TSP.resolver distancias
    = Ok (TSP.Estado (Some (TSP.ruta_de p))
                     (TSP.Finito (coste_cerrado distancias p))) /\
    hd 0 p < last p 0.
Proof.
  intros Hc Hs Hac HN.
  assert (Hrev : forall q, Permutation (range 1 (length distancias)) q ->
                           coste_cerrado distancias (rev q)
                           = coste_cerrado distancias q).
  { intros q Hq. apply coste_cerrado_rev; auto. lia. }
  split; [exact Hrev|].
  assert (Hne : distancias <> []) by (destruct distancias; [simpl in HN; lia | discriminate]).
  destruct (resolver_acotada M distancias Hc Hne Hac)
    as (pre & p & post & E & R & Hpre & _).
  exists p. split; [exact R|].
  assert (Hp : Permutation (range 1 (length distancias)) p).
  { apply permutations_In. rewrite E. apply in_elt. }
  assert (Hr : In (rev p) (pre ++ p :: post)).
  { rewrite <- E. apply permutations_In. rewrite Hp. apply Permutation_rev. }
  assert (Hnd : NoDup p).
  { apply (Permutation_NoDup Hp). apply seq_NoDup. }
  assert (Hlen : 2 <= length p).
  { rewrite <- (Permutation_length Hp). unfold range.
    rewrite length_seq. lia. }
  assert (Hneq : hd 0 p <> last p 0).
  { destruct p as [|x [|y r]]; simpl in Hlen; try lia.
    inversion Hnd as [|? ? Hnot _]; subst. intros Heq. apply Hnot.
    cbn [hd] in Heq. rewrite Heq.
    change (last (x :: y :: r) 0) with (last (y :: r) 0).
    apply last_In. discriminate. }
  assert (Hle : hd 0 p <= last p 0); [|lia].
  rewrite <- hd_rev.
  assert (Hs' := permutations_sorted _ (range_sorted 1 (length distancias))).
  rewrite E in Hs'. apply StronglySorted_app_l in Hs'.
  destruct Hs' as (_ & Hs' & _). inversion Hs' as [|? ? _ Hlex]; subst.
  rewrite Forall_forall in Hlex.
  apply in_app_or in Hr. destruct Hr as [Hr|[Hr|Hr]].
  - specialize (Hpre _ Hr). rewrite (Hrev p Hp) in Hpre. lia.
  - rewrite <- Hr. lia.
  - apply lex_lt_hd. now apply Hlex.
Qed.

Lemma X4_sentido_de_la_ruta_witness :
  (forall q, Permutation (range 1 (length TSP.ejemplo)) q ->
             coste_cerrado TSP.ejemplo (rev q) = coste_cerrado TSP.ejemplo q) /\
  exists p,
    TSP.resolver TSP.ejemplo
    = Ok (TSP.Estado (Some (TSP.ruta_de p))
                     (TSP.Finito (coste_cerrado TSP.ejemplo p))) /\
    hd 0 p < last p 0.
Proof.
  apply (X4_sentido_de_la_ruta 35 TSP.ejemplo).
  - repeat constructor.
  - intros i j.
    destruct i as [|[|[|[|[|i]]]]]; destruct j as [|[|[|[|[|j]]]]];
      reflexivity.
  - exact ejemplo_acotada.
  - simpl. lia.
Defined.

(** The candidates of the route loop. *)

Lemma length_selecciones {A : Type} (l : list A) :
  length (selecciones l) = length l.
Proof.
  induction l as [|x l IH]; simpl; [reflexivity|].
  now rewrite length_map, IH.
Qed.

Lemma length_flat_map_const {A B : Type} (f : A -> list B) (c : nat)
  (L : list A) :
  (forall a, In a L -> length (f a) = c) ->
  length (flat_map f L) = length L * c.
Proof.
  induction L as [|a L IH]; simpl; intros H; [reflexivity|].
  rewrite length_app, (H a (or_introl eq_refl)).
  rewrite IH by (intros b Hb; apply H; now right). reflexivity.
Qed.

Lemma permutations_aux_length {A : Type} (n : nat) :
  forall l : list A, length l = n ->
                     length (permutations_aux n l) = fact n.
Proof.
  induction n as [|n IH]; intros l Hl; [reflexivity|].
  cbn [permutations_aux fact].
  rewrite (length_flat_map_const _ (fact n)).
  - now rewrite length_selecciones, Hl.
  - intros [x r] Hxr. simpl. rewrite length_map. apply IH.
    apply selecciones_In in Hxr. destruct Hxr as (l1 & l2 & -> & ->).
    rewrite length_app in *. simpl in Hl. lia.
Qed.

Lemma lex_lt_irrefl (p : list nat) : ~ lex_lt p p.
Proof.
  induction p as [|x p IH]; intros H; inversion H; subst; [lia | auto].
Qed.

Lemma StronglySorted_NoDup {A : Type} (R : A -> A -> Prop) (l : list A) :
  (forall a, ~ R a a) -> StronglySorted R l -> NoDup l.
Proof.
  intros Hirr. induction 1 as [|a l _ IH HF]; constructor; [|exact IH].
  intros Hin. rewrite Forall_forall in HF. exact (Hirr a (HF a Hin)).
Qed.

(** X5.  The route loop runs over every permutation of [{1..N-1}] exactly
    once, in increasing lexicographic order: [(N-1)!] candidate routes. *)
Theorem X5_candidatos (N : nat) :
  length (permutations (range 1 N)) = fact (N - 1) /\
  NoDup (permutations (range 1 N)) /\
  StronglySorted lex_lt (permutations (range 1 N)) /\
  (forall p, In p (permutations (range 1 N)) <->
             Permutation (range 1 N) p).
Proof.
  assert (Hs := permutations_sorted _ (range_sorted 1 N)).
  repeat split.
  - unfold permutations. rewrite permutations_aux_length by reflexivity.
    unfold range. now rewrite length_seq.
  - exact (StronglySorted_NoDup lex_lt _ lex_lt_irrefl Hs).
  - exact Hs.
  - apply permutations_In.
  - apply permutations_In.
Qed.

(** ** More on the knapsack notebook *)

(** What a finished run has recorded, whatever the inputs. *)
Lemma resolver_registrado (W P : list Q) (C : Q) (st : Mochila.mejor) :
  Mochila.resolver W P C = Ok st ->
  st = Mochila.inicial \/
  exists sel,
    st = Mochila.Mejor (Mochila.mejor_ganancia st) (Some sel) /\
    subconjunto (length W) sel /\
    (agregado W sel <= C)%Q /\
    (0 < Mochila.mejor_ganancia st)%Q /\
    (Mochila.mejor_ganancia st == agregado P sel)%Q.
Proof.
  unfold Mochila.resolver. intros H.
  destruct (Mochila.ordenar W P) as [objetos|e] eqn:Eo; [|discriminate].
  cbn [bind] in H. apply ordenar_inv in Eo. destruct Eo as [Hlen Hperm].
  destruct (enumerar_registrado W P objetos Hlen Hperm C) as (st' & E & Hst).
  rewrite E in H. inversion H; subst. exact Hst.
Qed.

(** X6.  Whenever the knapsack cells finish, the best gain is not negative,
    and no combination is recorded exactly when the best gain is 0; that is
    also exactly when the last cell fails, with the [TypeError] of
    [sorted(None)].  A recorded combination is never the empty list. *)
Theorem X6_sin_combinacion_si_cero (W P : list Q) (C : Q)
  (st : Mochila.mejor) :
  Mochila.resolver W P C = Ok st ->
  (0 <= Mochila.mejor_ganancia st)%Q /\
  (Mochila.mejor_combinacion st = None <->
   (Mochila.mejor_ganancia st == 0)%Q) /\
  (Mochila.cuaderno W P C = Raise TypeError <->
   (Mochila.mejor_ganancia st == 0)%Q) /\
  Mochila.mejor_combinacion st <> Some [].
Proof.
  intros H.
  assert (Hc : Mochila.cuaderno W P C = Mochila.mostrar st).
  { unfold Mochila.cuaderno. now rewrite H. }
  rewrite Hc. unfold Mochila.mostrar.
  destruct (resolver_registrado W P C st H)
    as [->|(sel & -> & _ & _ & Hp & Hg)]; simpl in *.
  - repeat split; try reflexivity; try discriminate; lra.
  - split; [lra|]. split; [split; [discriminate | intros; exfalso; lra]|].
    split; [split; [discriminate | intros; exfalso; lra]|].
    intros E. inversion E; subst. unfold agregado in Hg. simpl in Hg. lra.
Qed.

Lemma X6_sin_combinacion_si_cero_witness :
  (0 <= 0)%Q /\
  (@None (list nat) = None <-> (0 == 0)%Q) /\
  (Mochila.cuaderno [2%Q; 1%Q] [5%Q; 7%Q] (1 # 2) = Raise TypeError <->
   (0 == 0)%Q) /\
  @None (list nat) <> Some [].
Proof.
  apply (X6_sin_combinacion_si_cero [2%Q; 1%Q] [5%Q; 7%Q] (1 # 2)
           (Mochila.Mejor 0 None)).
  reflexivity.
Defined.



Lemma lista_objetos_corta (W P : list Q) :
  length P < length W -> Mochila.lista_objetos W P = Raise IndexError.
Proof.
  intros Hlt. destruct (Mochila.lista_objetos W P) as [l|e] eqn:E.
  - apply lista_objetos_inv in E. lia.
  - f_equal. unfold Mochila.lista_objetos in E. apply mapM_raise in E.
    destruct E as (i & _ & Hi).
    destruct (getitem P i) as [p|e1] eqn:E1; simpl in Hi.
    + destruct (getitem W i) as [w|e2] eqn:E2; simpl in Hi; [discriminate|].
      inversion Hi; subst. now apply getitem_raise in E2.
    + inversion Hi; subst. now apply getitem_raise in E1.
Qed.


(** X9.  Over positive weights the best gain does not go down when the
    capacity goes up. *)
Theorem X9_monotona_en_la_capacidad (W P : list Q) (C C' : Q)
  (st st' : Mochila.mejor) :
  (forall w, In w W -> (0 < w)%Q) -> length W <= length P ->
  (C <= C')%Q ->
  Mochila.resolver W P C = Ok st -> Mochila.resolver W P C' = Ok st' ->
  (Mochila.mejor_ganancia st <= Mochila.mejor_ganancia st')%Q.
Proof.
  intros Hpos Hlen HC H H'.
  destruct (resolver_spec W P C' Hpos Hlen) as (s' & E' & Hopt' & Hst').
  rewrite E' in H'. inversion H'; subst. clear H'.
  destruct (resolver_registrado W P C st H)
    as [->|(sel & _ & Hs & Hf & _ & Hg)].
  - destruct Hst' as [->|(sel' & _ & _ & _ & Hp' & _)]; simpl; lra.
  - rewrite Hg. apply Hopt'; [exact Hs|]. unfold factible. lra.
Qed.

Lemma X9_monotona_en_la_capacidad_witness :
  (7 <= 12)%Q.
Proof.
  apply (X9_monotona_en_la_capacidad [2%Q; 1%Q] [5%Q; 7%Q] 1 3
           (Mochila.Mejor 7 (Some [1])) (Mochila.Mejor 12 (Some [1; 0]))).
  - intros w Hw. simpl in Hw. destruct Hw as [<-|[<-|[]]]; reflexivity.
  - simpl. lia.
  - discriminate.
  - vm_compute. reflexivity.
  - vm_compute. reflexivity.
Defined.

(** The last cell. *)








(** With a single city the route is [(0, 0)] and its cost is the diagonal
    entry [distancias[0][0]], whatever it is: the one case in which the
    cell reads the diagonal. *)
Example una_ciudad (z : Z) (fila : list Z) :
  TSP.resolver [z :: fila]
  = Ok (TSP.Estado (Some [0; 0]) (TSP.Finito (TSP.int64 z))).
Proof. reflexivity. Qed.

Example tspf_enorme :
  TSPf.resolver TSPf.enorme = Ok (TSPf.Estado None infinity).
Proof. vm_compute. reflexivity. Qed.

Example tspf_redondeada :
  TSPf.resolver TSPf.redondeada
  = Ok (TSPf.Estado (Some [0; 2; 1; 0]) 0.6%float).
Proof. vm_compute. reflexivity. Qed.

Example cuaderno_py_ejemplo :
  MochilaPy.cuaderno MochilaPy.W_ejemplo MochilaPy.P_ejemplo
                     MochilaPy.C_ejemplo
  = Ok (Py.Int 22, [0; 1; 4]).
Proof. vm_compute. reflexivity. Qed.

(** ** The knapsack notebook on Python integers *)

(** On integers Python's arithmetic is exact: the enumeration of
    [MochilaPy] then goes step by step like that of [Mochila]. *)

Lemma getitem_map {A B : Type} (f : A -> B) (l : list A) (i : nat) :
  getitem (map f l) i
  = match getitem l i with Ok a => Ok (f a) | Raise e => Raise e end.
Proof.
  unfold getitem. rewrite nth_error_map.
  now destruct (nth_error l i).
Qed.

Lemma inject_Z_suma (a b : Z) :
  (inject_Z a + inject_Z b)%Q = inject_Z (a + b).
Proof.
  unfold Qplus, inject_Z. simpl. now rewrite !Z.mul_1_r.
Qed.

Lemma Qle_bool_inject (a b : Z) :
  Qle_bool (inject_Z a) (inject_Z b) = (a <=? b)%Z.
Proof.
  unfold Qle_bool, inject_Z. simpl. now rewrite !Z.mul_1_r.
Qed.

Lemma Qlt_bool_inject (a b : Z) :
  Mochila.Qlt_bool (inject_Z a) (inject_Z b) = (a <? b)%Z.
Proof.
  unfold Mochila.Qlt_bool. rewrite Qle_bool_inject.
  now rewrite Z.ltb_antisym.
Qed.

Lemma gt_enteros (a b : Z) : Py.gt (Py.Int a) (Py.Int b) = (b <? a)%Z.
Proof.
  unfold Py.gt. simpl. rewrite (Z.compare_antisym b a).
  unfold Z.ltb. now destruct (b ?= a)%Z.
Qed.

Lemma le_enteros (a b : Z) : Py.le (Py.Int a) (Py.Int b) = (a <=? b)%Z.
Proof.
  unfold Py.le, Z.leb. simpl. now destruct (a ?= b)%Z.
Qed.

Section Enteros.

Variable objs : list objeto_z.
Variable Pz : list Z.
Variable Cz : Z.

Lemma evaluar_entero (i : nat) (js : list nat) :
  forall apy aq,
    rel_ac apy aq ->
    rel_exc rel_ac
      (MochilaPy.evaluar (map a_py objs) (enteros Pz) (Py.Int Cz) i js apy)
      (Mochila.evaluar (map a_q objs) (map inject_Z Pz) (inject_Z Cz)
                       i js aq).
Proof.
  induction js as [|j js IH]; intros apy aq Hrel; [exact Hrel|].
  cbn [MochilaPy.evaluar Mochila.evaluar].
  destruct (Mochila.bit i j); [|now apply IH].
  rewrite !getitem_map.
  destruct (getitem objs j) as [[[p w] idx]|e]; [|reflexivity].
  cbn [bind]. unfold a_py, a_q, MochilaPy.peso_de, MochilaPy.idx_de,
                Mochila.peso_de, Mochila.idx_de. cbn [fst snd].
  destruct Hrel as (w0 & g0 & E1 & E2 & E3 & E4 & E5).
  rewrite E1, E2, E3, E4, E5. cbn [Py.add bind].
  unfold enteros. rewrite !getitem_map.
  destruct (getitem Pz idx) as [v|e]; [|reflexivity].
  cbn [bind Py.add]. rewrite !inject_Z_suma.
  cbn [MochilaPy.peso_total Mochila.peso_total].
  rewrite gt_enteros, Qlt_bool_inject.
  destruct (Cz <? w0 + w)%Z.
  - exists (w0 + w)%Z, (g0 + v)%Z. simpl. auto.
  - apply IH. exists (w0 + w)%Z, (g0 + v)%Z. simpl. auto.
Qed.

Lemma paso_entero (N : nat) (spy : MochilaPy.mejor) (sq : Mochila.mejor)
  (i : nat) :
  rel_mejor spy sq ->
  rel_exc rel_mejor
    (MochilaPy.paso (map a_py objs) (enteros Pz) (Py.Int Cz) N spy i)
    (Mochila.paso (map a_q objs) (map inject_Z Pz) (inject_Z Cz) N sq i).
Proof.
  intros (g & E1 & E2 & E3).
  unfold MochilaPy.paso, Mochila.paso, Mochila.paso_con.
  assert (H := evaluar_entero i (range 0 N) MochilaPy.vacio Mochila.vacio).
  destruct (MochilaPy.evaluar _ _ _ _ _ _) as [apy|e];
    destruct (Mochila.evaluar _ _ _ _ _ _) as [aq|e']; cbn [bind].
  - destruct H as (w & g' & F1 & F2 & F3 & F4 & F5).
    { exists 0%Z, 0%Z. simpl. auto. }
    rewrite F1, F2, F3, F4, F5, E1, E2.
    rewrite le_enteros, gt_enteros, Qle_bool_inject, Qlt_bool_inject.
    destruct ((w <=? Cz)%Z && (g <? g')%Z).
    + exists g'. simpl. auto.
    + exists g. auto.
  - exfalso. apply H. exists 0%Z, 0%Z. simpl. auto.
  - exfalso. apply H. exists 0%Z, 0%Z. simpl. auto.
  - apply H. exists 0%Z, 0%Z. simpl. auto.
Qed.

Lemma foldM_rel {A S S' : Type} (R : S -> S' -> Prop)
  (f : S -> A -> exc S) (g : S' -> A -> exc S') (l : list A) :
  (forall s s' a, R s s' -> rel_exc R (f s a) (g s' a)) ->
  forall s s', R s s' -> rel_exc R (foldM f l s) (foldM g l s').
Proof.
  intros Hstep. induction l as [|a l IH]; intros s s' Hs; [exact Hs|].
  cbn [foldM]. specialize (Hstep s s' a Hs).
  destruct (f s a) as [s1|e]; destruct (g s' a) as [s1'|e'];
    cbn [bind]; try contradiction.
  - now apply IH.
  - exact Hstep.
Qed.

Lemma enumerar_entero (N : nat) :
  rel_exc rel_mejor
    (MochilaPy.enumerar (map a_py objs) (enteros Pz) (Py.Int Cz) N)
    (Mochila.enumerar (map a_q objs) (map inject_Z Pz) (inject_Z Cz) N).
Proof.
  unfold MochilaPy.enumerar, Mochila.enumerar, Mochila.enumerar_con.
  apply (foldM_rel rel_mejor).
  - intros s s' a Hs. now apply paso_entero.
  - exists 0%Z. simpl. auto.
Qed.

End Enteros.

(** ** The ranking on Python's numbers *)

Lemma mapM_total {A B : Type} (f : A -> exc B) (l : list A) :
  (forall a, In a l -> exists b, f a = Ok b) -> exists bs, mapM f l = Ok bs.
Proof.
  induction l as [|x r IH]; intros H; simpl; [eauto|].
  destruct (H x (or_introl eq_refl)) as (b & ->). cbn [bind].
  destruct IH as (bs & ->); [intros a Ha; apply H; now right|].
  cbn [bind]. eauto.
Qed.

Lemma lista_objetos_py_ok (W P : list Py.num) :
  length W <= length P ->
  MochilaPy.lista_objetos W P = Ok (etiquetados_py W P).
Proof.
  intros Hlen. unfold MochilaPy.lista_objetos, etiquetados_py.
  rewrite range_0.
  apply mapM_ok. intros i Hi. apply in_seq in Hi.
  rewrite (getitem_nth P i (Py.Int 0)) by lia. cbn [bind].
  rewrite (getitem_nth W i (Py.Int 0)) by lia. reflexivity.
Qed.

Lemma lista_objetos_py_inv (W P : list Py.num) (l : list MochilaPy.objeto) :
  MochilaPy.lista_objetos W P = Ok l ->
  length W <= length P /\ l = etiquetados_py W P.
Proof.
  intros H. assert (Hlen : length W <= length P).
  { destruct (le_lt_dec (length W) (length P)) as [Hle|Hlt]; [exact Hle|].
    unfold MochilaPy.lista_objetos in H. rewrite range_0 in H.
    destruct (mapM_Ok_inv _ _ _ H (length P)) as (b & Hb).
    - apply in_seq. lia.
    - unfold getitem in Hb.
      rewrite (proj2 (nth_error_None P (length P)) (Nat.le_refl _)) in Hb.
      discriminate. }
  split; [exact Hlen|].
  rewrite (lista_objetos_py_ok W P Hlen) in H. now inversion H.
Qed.


Lemma insertar_py_perm {A : Type} (kx : float * A) (l : list (float * A)) :
  Permutation (kx :: l) (MochilaPy.insertar kx l).
Proof.
  induction l as [|ky r IH]; simpl; [reflexivity|].
  destruct (fst kx <? fst ky)%float; [|reflexivity].
  rewrite perm_swap. now apply perm_skip.
Qed.

Lemma ordenar_desc_py_perm {A : Type} (l : list (float * A)) :
  Permutation l (MochilaPy.ordenar_desc l).
Proof.
  induction l as [|kx r IH]; simpl; [reflexivity|].
  rewrite <- insertar_py_perm. now apply perm_skip.
Qed.

Lemma decorar_py_snd {A : Type} (key : A -> exc float) (l : list A) :
  forall dec, mapM (fun x => k <- key x ;; Ok (k, x)) l = Ok dec ->
              map snd dec = l.
Proof.
  induction l as [|x r IH]; simpl; intros dec H.
  - now inversion H.
  - destruct (key x) as [k|e]; [|discriminate]. simpl in H.
    destruct (mapM _ r) as [dec'|e]; [|discriminate]. simpl in H.
    inversion H; subst. simpl. f_equal. now apply IH.
Qed.

Lemma sorted_reverse_py_perm {A : Type} (key : A -> exc float)
  (l l' : list A) :
  MochilaPy.sorted_reverse key l = Ok l' -> Permutation l l'.
Proof.
  unfold MochilaPy.sorted_reverse. intros H.
  destruct (mapM _ l) as [dec|e] eqn:E; [|discriminate].
  simpl in H. inversion H; subst.
  rewrite <- (decorar_py_snd key l dec E).
  apply Permutation_map. apply ordenar_desc_py_perm.
Qed.

(** The keys are computed before anything is sorted: the ranking returns
    exactly when every key can be computed, and otherwise ends in the
    exception of the first key that cannot. *)
Lemma sorted_reverse_py_ok {A : Type} (key : A -> exc float) (l : list A) :
  (forall x, In x l -> exists k, key x = Ok k) ->
  exists l', MochilaPy.sorted_reverse key l = Ok l'.
Proof.
  intros H. unfold MochilaPy.sorted_reverse.
  destruct (mapM_total (fun x => k <- key x ;; Ok (k, x)) l) as (dec & ->).
  - intros x Hx. destruct (H x Hx) as (k & ->). cbn [bind]. eauto.
  - cbn [bind]. eauto.
Qed.

Lemma sorted_reverse_py_inv {A : Type} (key : A -> exc float)
  (l l' : list A) :
  MochilaPy.sorted_reverse key l = Ok l' ->
  forall x, In x l -> exists k, key x = Ok k.
Proof.
  unfold MochilaPy.sorted_reverse. intros H x Hx.
  destruct (mapM _ l) as [dec|e] eqn:E; [|discriminate].
  destruct (mapM_Ok_inv _ _ _ E x Hx) as (b & Hb).
  destruct (key x) as [k|e]; [eauto | discriminate].
Qed.

Lemma sorted_reverse_py_raise {A : Type} (key : A -> exc float)
  (l : list A) (e : exception) :
  MochilaPy.sorted_reverse key l = Raise e ->
  exists x, In x l /\ key x = Raise e.
Proof.
  unfold MochilaPy.sorted_reverse. intros H.
  destruct (mapM _ l) as [dec|e'] eqn:E; [discriminate|].
  simpl in H. inversion H; subst.
  apply mapM_raise in E. destruct E as (x & Hx & Hk).
  exists x. split; [exact Hx|].
  destruct (key x) as [k|e']; simpl in Hk; [discriminate | congruence].
Qed.

(** What the division can raise, and when. *)
Lemma division_entera_raise (x y : Z) (e : exception) :
  Py.division_entera x y = Raise e -> e = OverflowError.
Proof.
  unfold Py.division_entera.
  destruct (x =? 0)%Z; [discriminate|].
  match goal with
  | |- (if ?c then _ else _) = _ -> _ => destruct c
  end; congruence.
Qed.

Lemma de_entero_raise (z : Z) (e : exception) :
  Py.de_entero z = Raise e -> e = OverflowError.
Proof.
  unfold Py.de_entero.
  match goal with
  | |- (if ?c then _ else _) = _ -> _ => destruct c
  end; congruence.
Qed.

Lemma a_float_raise (a : Py.num) (e : exception) :
  Py.a_float a = Raise e -> e = OverflowError.
Proof.
  destruct a; simpl; [apply de_entero_raise | discriminate].
Qed.

Lemma truediv_raise (a b : Py.num) (e : exception) :
  Py.truediv a b = Raise e -> e = ZeroDivisionError \/ e = OverflowError.
Proof.
  assert (H : forall a b,
             (f <- Py.a_float a ;;
              g <- Py.a_float b ;;
              if (g =? 0)%float then Raise ZeroDivisionError
              else Ok (f / g)%float) = Raise e ->
             e = ZeroDivisionError \/ e = OverflowError).
  { clear a b. intros a b.
    destruct (Py.a_float a) as [f|e1] eqn:Ea; cbn [bind].
    - destruct (Py.a_float b) as [g|e2] eqn:Eb; cbn [bind].
      + destruct (g =? 0)%float; [|discriminate].
        intros E. left. congruence.
      + intros E. right. inversion E; subst. eapply a_float_raise; eauto.
    - intros E. right. inversion E; subst. eapply a_float_raise; eauto. }
  destruct a as [x|f], b as [y|g]; try apply H.
  unfold Py.truediv. destruct (y =? 0)%Z.
  - intros E. left. congruence.
  - intros E. right. exact (division_entera_raise x y e E).
Qed.

Lemma truediv_cero (a b : Py.num) :
  es_cero b = true -> exists e, Py.truediv a b = Raise e.
Proof.
  intros H. destruct a as [x|f], b as [y|g]; simpl in H.
  - unfold Py.truediv. rewrite H. eauto.
  - unfold Py.truediv. destruct (Py.a_float (Py.Int x)); cbn [bind].
    + simpl. rewrite H. eauto.
    + eauto.
  - apply Z.eqb_eq in H. subst y. exists ZeroDivisionError. reflexivity.
  - unfold Py.truediv. simpl. rewrite H. eauto.
Qed.

Lemma truediv_enteros (x y : Z) :
  Py.truediv (Py.Int x) (Py.Int y) = Raise ZeroDivisionError <-> y = 0%Z.
Proof.
  unfold Py.truediv. destruct (y =? 0)%Z eqn:E.
  - apply Z.eqb_eq in E. tauto.
  - apply Z.eqb_neq in E. split; [|contradiction].
    intros H. apply (division_entera_raise x y) in H. discriminate.
Qed.

Lemma etiquetados_py_In (W P : list Py.num) (x : MochilaPy.objeto) :
  In x (etiquetados_py W P) <->
  exists i, i < length W /\ x = (nth i P (Py.Int 0), nth i W (Py.Int 0), i).
Proof.
  unfold etiquetados_py. rewrite in_map_iff. split.
  - intros (i & <- & Hi). apply in_seq in Hi. exists i. split; [lia | auto].
  - intros (i & Hi & ->). exists i. split; [auto|]. apply in_seq. lia.
Qed.

Lemma ordenar_py_inv (W P : list Py.num) (objetos : list MochilaPy.objeto) :
  MochilaPy.ordenar W P = Ok objetos ->
  length W <= length P /\
  Permutation (etiquetados_py W P) objetos /\
  (forall x, In x (etiquetados_py W P) -> exists k, MochilaPy.clave x = Ok k).
Proof.
  unfold MochilaPy.ordenar. intros H.
  destruct (MochilaPy.lista_objetos W P) as [l|e] eqn:El; [|discriminate].
  simpl in H. apply lista_objetos_py_inv in El. destruct El as [Hlen ->].
  split; [exact Hlen|]. split.
  - now apply sorted_reverse_py_perm in H.
  - exact (sorted_reverse_py_inv _ _ _ H).
Qed.

Lemma ordenar_py_ok (W P : list Py.num) :
  length W <= length P ->
  (forall x, In x (etiquetados_py W P) -> exists k, MochilaPy.clave x = Ok k) ->
  exists objetos, MochilaPy.ordenar W P = Ok objetos.
Proof.
  intros Hlen H. unfold MochilaPy.ordenar.
  rewrite (lista_objetos_py_ok W P Hlen). cbn [bind].
  now apply sorted_reverse_py_ok.
Qed.

Lemma ordenar_py_raise (W P : list Py.num) (e : exception) :
  length W <= length P ->
  MochilaPy.ordenar W P = Raise e ->
  exists x, In x (etiquetados_py W P) /\ MochilaPy.clave x = Raise e.
Proof.
  intros Hlen. unfold MochilaPy.ordenar.
  rewrite (lista_objetos_py_ok W P Hlen). cbn [bind].
  apply sorted_reverse_py_raise.
Qed.

(** ** Integer lists, in the three forms *)

Lemma etiquetados_py_enteros (Wz Pz : list Z) :
  etiquetados_py (enteros Wz) (enteros Pz) = map a_py (etiquetados_z Wz Pz).
Proof.
  unfold etiquetados_py, etiquetados_z, enteros.
  rewrite map_map, length_map. apply map_ext. intros i.
  unfold a_py. cbn [fst snd].
  now rewrite (map_nth Py.Int Pz 0%Z), (map_nth Py.Int Wz 0%Z).
Qed.

Lemma etiquetados_enteros (Wz Pz : list Z) :
  etiquetados (map inject_Z Wz) (map inject_Z Pz)
  = map a_q (etiquetados_z Wz Pz).
Proof.
  unfold etiquetados, etiquetados_z.
  rewrite map_map, length_map. apply map_ext. intros i.
  unfold a_q. cbn [fst snd].
  change 0%Q with (inject_Z 0).
  now rewrite (map_nth inject_Z Pz 0%Z), (map_nth inject_Z Wz 0%Z).
Qed.

Lemma agregado_enteros (X : list Z) (S : list nat) :
  agregado (map inject_Z X) S = inject_Z (agregado_z X S).
Proof.
  unfold agregado, agregado_z.
  induction S as [|i S IH]; simpl; [reflexivity|].
  rewrite IH. change 0%Q with (inject_Z 0).
  now rewrite (map_nth inject_Z X 0%Z), inject_Z_suma.
Qed.

(** ** The enumeration on integer lists *)

Section EnterosFormados.

Variables Wz Pz : list Z.
Variable objs : list objeto_z.
Hypothesis Hlen : length Wz <= length Pz.
Hypothesis Hperm : Permutation (etiquetados_z Wz Pz) objs.

Lemma enteros_formados :
  length (map inject_Z Wz) <= length (map inject_Z Pz) /\
  Permutation (etiquetados (map inject_Z Wz) (map inject_Z Pz))
              (map a_q objs).
Proof.
  split.
  - now rewrite !length_map.
  - rewrite etiquetados_enteros. now apply Permutation_map.
Qed.

(** What the loop leaves behind on integers, whatever their signs. *)
Lemma enumerar_entero_registrado (Cz : Z) :
  exists g comb,
    MochilaPy.enumerar (map a_py objs) (enteros Pz) (Py.Int Cz) (length Wz)
    = Ok (MochilaPy.Mejor (Py.Int g) comb) /\
    ((g = 0%Z /\ comb = None) \/
     exists sel,
       comb = Some sel /\
       subconjunto (length Wz) sel /\
       (agregado_z Wz sel <= Cz)%Z /\
       (0 < g)%Z /\
       g = agregado_z Pz sel).
Proof.
  destruct enteros_formados as [HlenQ HpermQ].
  destruct (enumerar_registrado _ _ _ HlenQ HpermQ (inject_Z Cz))
    as (stq & Eq & Hst).
  rewrite length_map in Eq, Hst.
  assert (Hsim := enumerar_entero objs Pz Cz (length Wz)).
  rewrite Eq in Hsim.
  destruct (MochilaPy.enumerar _ _ _ _) as [[gp cp]|e]; [|contradiction].
  destruct Hsim as (g & E1 & E2 & E3). simpl in E1, E3. subst gp cp.
  exists g, (Mochila.mejor_combinacion stq). split; [reflexivity|].
  destruct Hst as [->|(sel & Est & Hs & Hf & Hp & Hg)].
  - left. simpl in E2. split; [|reflexivity].
    unfold inject_Z in E2. now inversion E2.
  - right. exists sel. rewrite Est. simpl. split; [reflexivity|].
    split; [exact Hs|].
    rewrite E2 in Hp, Hg. rewrite agregado_enteros in Hf, Hg.
    split; [now rewrite Zle_Qle|]. split.
    + rewrite Zlt_Qlt. exact Hp.
    + now apply inject_Z_injective.
Qed.

(** With weights that are not negative, no selection that fits is worth
    more than the final [mejor_ganancia]. *)
Lemma enumerar_entero_optimo (Cz g : Z) (comb : option (list nat)) :
  (forall w, In w Wz -> (0 <= w)%Z) ->
  MochilaPy.enumerar (map a_py objs) (enteros Pz) (Py.Int Cz) (length Wz)
  = Ok (MochilaPy.Mejor (Py.Int g) comb) ->
  forall S, subconjunto (length Wz) S -> (agregado_z Wz S <= Cz)%Z ->
            (agregado_z Pz S <= g)%Z.
Proof.
  intros Hpos E S HS Hf.
  destruct enteros_formados as [HlenQ HpermQ].
  assert (Hsim := enumerar_entero objs Pz Cz (length Wz)).
  rewrite E in Hsim.
  destruct (Mochila.enumerar _ _ _ _) as [stq|e] eqn:Eq; [|contradiction].
  destruct Hsim as (g' & E1 & E2 & _). simpl in E1. inversion E1; subst g'.
  rewrite <- (length_map inject_Z Wz) in Eq.
  assert (HposQ : Forall (fun w => 0 <= w)%Q (map inject_Z Wz)).
  { apply Forall_forall. intros w Hw. apply in_map_iff in Hw.
    destruct Hw as (z & <- & Hz). change 0%Q with (inject_Z 0).
    rewrite <- Zle_Qle. now apply Hpos. }
  assert (H := enumerar_optimo _ _ _ HlenQ HpermQ (inject_Z Cz) stq HposQ Eq S).
  rewrite length_map in H. rewrite !agregado_enteros, E2 in H.
  rewrite Zle_Qle. apply H; [exact HS|]. now rewrite <- Zle_Qle.
Qed.

End EnterosFormados.

Lemma ordenar_enteros_inv (Wz Pz : list Z) (objetos : list MochilaPy.objeto) :
  MochilaPy.ordenar (enteros Wz) (enteros Pz) = Ok objetos ->
  length Wz <= length Pz /\
  exists objs,
    objetos = map a_py objs /\ Permutation (etiquetados_z Wz Pz) objs.
Proof.
  intros H. apply ordenar_py_inv in H. destruct H as (Hlen & Hperm & _).
  unfold enteros in Hlen. rewrite !length_map in Hlen.
  split; [exact Hlen|].
  rewrite etiquetados_py_enteros in Hperm.
  apply Permutation_sym, Permutation_map_inv in Hperm.
  destruct Hperm as (objs & -> & Hp). exists objs. split; [reflexivity|].
  exact Hp.
Qed.

(** The ranked run and the run in the original order, on integers. *)
Lemma resolver_entero (Wz Pz : list Z) (Cz : Z)
  (objetos : list MochilaPy.objeto) :
  MochilaPy.ordenar (enteros Wz) (enteros Pz) = Ok objetos ->
  exists objs,
    length Wz <= length Pz /\
    Permutation (etiquetados_z Wz Pz) objs /\
    MochilaPy.resolver (enteros Wz) (enteros Pz) (Py.Int Cz)
    = MochilaPy.enumerar (map a_py objs) (enteros Pz) (Py.Int Cz)
                         (length Wz).
Proof.
  intros H. destruct (ordenar_enteros_inv Wz Pz objetos H)
    as (Hlen & objs & -> & Hperm).
  exists objs. split; [exact Hlen|]. split; [exact Hperm|].
  unfold MochilaPy.resolver. rewrite H. cbn [bind].
  unfold enteros. now rewrite length_map.
Qed.


(** ** The Subset Enumerator on Python's numbers: results *)







(** The two runs on the integer items above: the same gain, and two
    listings of the same selection. *)
Example orden_entero :
  MochilaPy.resolver (enteros [2; 1; 3; 4]%Z) (enteros [5; 7; 5; 10]%Z)
                     (Py.Int 8)
  = Ok (MochilaPy.Mejor (Py.Int 22) (Some [1; 0; 3])) /\
  MochilaPy.resolver_sin_ordenar
    (enteros [2; 1; 3; 4]%Z) (enteros [5; 7; 5; 10]%Z) (Py.Int 8)
  = Ok (MochilaPy.Mejor (Py.Int 22) (Some [0; 1; 3])).
Proof. split; vm_compute; reflexivity. Qed.

(** C8, as stated, fails: an item of negative weight is ranked like any
    other, without any error. *)
Lemma C8_contraejemplo :
  Py.lt (Py.Int (-1)) (Py.Int 0) = true /\
  MochilaPy.ordenar [Py.Int (-1)] [Py.Int 1]
  = Ok [(Py.Int 1, Py.Int (-1), 0)] /\
  Py.lt (Py.Float (-0.5)) (Py.Int 0) = true /\
  MochilaPy.ordenar [Py.Int 2; Py.Float (-0.5)] [Py.Int 1; Py.Int 1]
  = Ok [(Py.Int 1, Py.Int 2, 0); (Py.Int 1, Py.Float (-0.5), 1)].
Proof.
  repeat split; vm_compute; reflexivity.
Qed.

(** C8, as amended.  The ranking divides by the weight unguarded.  Given a
    value for each weight, it fails only with the exceptions of the
    division, [ZeroDivisionError] or [OverflowError]; it fails whenever
    some weight is zero; on integer lists it ends in [ZeroDivisionError]
    only if some weight is zero; and it returns exactly when every
    gain/weight quotient can be computed - negative weights included -
    and then returns the items, each with its original index, in some
    order. *)
Theorem C8_division_sin_guarda (W P : list Py.num) :
  length W <= length P ->
  (forall e, MochilaPy.ordenar W P = Raise e ->
             e = ZeroDivisionError \/ e = OverflowError) /\
  ((exists w, In w W /\ es_cero w = true) ->
   exists e, MochilaPy.ordenar W P = Raise e) /\
  (forall Wz Pz, W = enteros Wz -> P = enteros Pz ->
                 MochilaPy.ordenar W P = Raise ZeroDivisionError ->
                 In 0%Z Wz) /\
  ((forall x, In x (etiquetados_py W P) ->
              exists k, MochilaPy.clave x = Ok k) <->
   (exists objetos, MochilaPy.ordenar W P = Ok objetos)) /\
  (forall objetos, MochilaPy.ordenar W P = Ok objetos ->
                   Permutation (etiquetados_py W P) objetos).
Proof.
  intros Hlen. split; [|split; [|split; [|split]]].
  - intros e He. destruct (ordenar_py_raise W P e Hlen He) as (x & _ & Hx).
    exact (truediv_raise _ _ _ Hx).
  - intros (w & Hw & H0).
    destruct (MochilaPy.ordenar W P) as [objetos|e] eqn:E; [|eauto].
    exfalso. apply ordenar_py_inv in E. destruct E as (_ & _ & Hk).
    destruct (In_nth W w (Py.Int 0) Hw) as (i & Hi & Ei).
    destruct (Hk (nth i P (Py.Int 0), nth i W (Py.Int 0), i)) as (k & Ek).
    { apply etiquetados_py_In. eauto. }
    unfold MochilaPy.clave, MochilaPy.ganancia_de, MochilaPy.peso_de in Ek.
    cbn [fst snd] in Ek. rewrite Ei in Ek.
    destruct (truediv_cero (nth i P (Py.Int 0)) w H0) as (e & He).
    congruence.
  - intros Wz Pz -> -> He.
    apply (ordenar_py_raise _ _ _ Hlen) in He. destruct He as (x & Hx & He).
    rewrite etiquetados_py_enteros in Hx. apply in_map_iff in Hx.
    destruct Hx as ([[p w] i] & <- & Hx).
    unfold MochilaPy.clave, a_py in He. cbn in He.
    apply truediv_enteros in He. subst w.
    unfold etiquetados_z in Hx. apply in_map_iff in Hx.
    destruct Hx as (j & Ej & Hj). inversion Ej as [[E1 E2 E3]].
    rewrite <- E2 at 1. apply nth_In. apply in_seq in Hj. lia.
  - split.
    + intros H. now apply ordenar_py_ok.
    + intros (objetos & E). now apply ordenar_py_inv in E.
  - intros objetos E. now apply ordenar_py_inv in E.
Qed.

Lemma C8_division_sin_guarda_witness :
  (forall e, MochilaPy.ordenar [Py.Int 2; Py.Int 0] [Py.Int 5; Py.Int 7]
             = Raise e ->
             e = ZeroDivisionError \/ e = OverflowError) /\
  (exists e, MochilaPy.ordenar [Py.Int 2; Py.Int 0] [Py.Int 5; Py.Int 7]
             = Raise e) /\
  Permutation (etiquetados_py [Py.Int 2; Py.Float (-0.5)]
                              [Py.Int 1; Py.Int 1])
              [(Py.Int 1, Py.Int 2, 0); (Py.Int 1, Py.Float (-0.5), 1)].
Proof.
  split; [|split].
  - apply (C8_division_sin_guarda [Py.Int 2; Py.Int 0] [Py.Int 5; Py.Int 7]).
    simpl. lia.
  - apply (C8_division_sin_guarda [Py.Int 2; Py.Int 0] [Py.Int 5; Py.Int 7]).
    + simpl. lia.
    + exists (Py.Int 0). split; [simpl; tauto | reflexivity].
  - apply (C8_division_sin_guarda [Py.Int 2; Py.Float (-0.5)]
                                  [Py.Int 1; Py.Int 1]).
    + simpl. lia.
    + vm_compute. reflexivity.
Defined.

(** A zero weight behind a quotient that is out of range: the first key
    that cannot be computed decides the exception. *)
Example ordenar_desbordada :
  MochilaPy.ordenar [Py.Int 1; Py.Int 0] [Py.Int (10 ^ 400); Py.Int 1]
  = Raise OverflowError /\
  MochilaPy.ordenar [Py.Int 0; Py.Int 1] [Py.Int 1; Py.Int (10 ^ 400)]
  = Raise ZeroDivisionError.
Proof. split; vm_compute; reflexivity. Qed.

(** The keys are [float]s: two quotients that differ can round to the same
    key, and the items then keep their original order. *)
Example ordenar_redondeada :
  MochilaPy.ordenar [Py.Int 1; Py.Int 1]
                    [Py.Int (10 ^ 17); Py.Int (10 ^ 17 + 1)]
  = Ok [(Py.Int (10 ^ 17), Py.Int 1, 0);
        (Py.Int (10 ^ 17 + 1), Py.Int 1, 1)].
Proof. vm_compute. reflexivity. Qed.



(** With a [float] among the weights the enumeration itself can raise: the
    ranking returns, and the pattern of both items then adds an integer
    beyond the range of [float] to a [float]. *)
Example enumeracion_desbordada :
  (exists objetos,
      MochilaPy.ordenar [Py.Float 1; Py.Int (2 ^ 1024)] [Py.Int 1; Py.Int 1]
      = Ok objetos) /\
  MochilaPy.resolver [Py.Float 1; Py.Int (2 ^ 1024)] [Py.Int 1; Py.Int 1]
                     (Py.Float 1e300)
  = Raise OverflowError.
Proof.
  split; [eexists|]; vm_compute; reflexivity.
Qed.

(** ** The route cell on a [float64] array *)

(** Whatever is below some number is below [inf]. *)
Lemma ltb_infinito (c m : float) :
  (c <? m)%float = true -> (c <? infinity)%float = true.
Proof.
  rewrite !ltb_spec. unfold SFltb.
  change (Prim2SF infinity) with (S754_infinity false).
  destruct (Prim2SF c) as [s|[|]| |s mc e], (Prim2SF m) as [s'|[|]| |s' mm e'];
    simpl; try discriminate; try reflexivity;
    destruct s; try discriminate; reflexivity.
Qed.

Section RutasFloat.

Variable distancias : TSPf.matriz.
Hypothesis Hcuadrada : cuadrada_f distancias.

Let N := length distancias.

Lemma celda_f_ok (i j : nat) :
  i < N -> j < N ->
  TSPf.celda distancias (i, j) = Ok (distancia_f distancias i j).
Proof.
  intros Hi Hj. unfold TSPf.celda, distancia_f. simpl.
  rewrite (getitem_nth distancias i [] Hi). simpl.
  apply getitem_nth.
  unfold cuadrada_f in Hcuadrada. rewrite Forall_forall in Hcuadrada.
  rewrite (Hcuadrada (nth i distancias [])); [exact Hj|].
  now apply nth_In.
Qed.

Lemma ruta_length (p : list nat) :
  Permutation (range 1 N) p -> N <> 0 -> length (TSP.ruta_de p) = N + 1.
Proof.
  intros Hp HN. unfold TSP.ruta_de. simpl. rewrite length_app. simpl.
  rewrite <- (Permutation_length Hp). unfold range. rewrite length_seq. lia.
Qed.

Lemma ruta_indices (p : list nat) :
  Permutation (range 1 N) p -> N <> 0 ->
  Forall (fun x => x < N) (TSP.ruta_de p).
Proof.
  intros Hp HN. assert (Hin : Forall (fun x => x < N) p).
  { apply Forall_forall. intros x Hx.
    apply (Permutation_in _ (Permutation_sym Hp)) in Hx.
    unfold range in Hx. apply in_seq in Hx. lia. }
  unfold TSP.ruta_de. constructor; [lia|].
  apply Forall_app. split; [exact Hin|]. constructor; [lia | constructor].
Qed.

Lemma distancia_total_f_tramos (R : list nat) :
  Forall (fun x => x < N) R ->
  TSPf.distancia_total distancias R
  = Ok (TSPf.np_sum
          (map (fun k => distancia_f distancias (nth k R 0) (nth (S k) R 0))
               (seq 0 (length R - 1)))).
Proof.
  intros HR. unfold TSPf.distancia_total. rewrite tramos_ruta.
  rewrite (mapM_ok _ (fun ij => distancia_f distancias (fst ij) (snd ij))).
  - simpl. rewrite map_map. reflexivity.
  - intros [i j] Hin. apply in_map_iff in Hin.
    destruct Hin as (k & E & Hk). inversion E; subst. apply in_seq in Hk.
    rewrite Forall_forall in HR.
    apply celda_f_ok; apply HR; apply nth_In; lia.
Qed.

Lemma distancia_total_f_ok (p : list nat) :
  Permutation (range 1 N) p -> N <> 0 ->
  TSPf.distancia_total distancias (TSP.ruta_de p)
  = Ok (total_f distancias p).
Proof.
  intros Hp HN.
  rewrite (distancia_total_f_tramos _ (ruta_indices p Hp HN)).
  rewrite (ruta_length p Hp HN).
  replace (N + 1 - 1) with N by lia. reflexivity.
Qed.

Lemma paso_f_ok (st : TSPf.estado) (p : list nat) :
  Permutation (range 1 N) p -> N <> 0 ->
  TSPf.paso distancias st p
  = Ok (if (total_f distancias p <? TSPf.distancia_minima st)%float
        then TSPf.Estado (Some (TSP.ruta_de p)) (total_f distancias p)
        else st).
Proof.
  intros Hp HN. unfold TSPf.paso.
  rewrite (distancia_total_f_ok p Hp HN). cbn [bind].
  now destruct (total_f distancias p <? TSPf.distancia_minima st)%float.
Qed.

(** The loop records a route as soon as a total is below [inf], and from
    then on it always holds a route with the total computed for it. *)
Lemma bucle_f (l : list (list nat)) :
  (forall p, In p l -> Permutation (range 1 N) p) -> N <> 0 ->
  exists st,
    foldM (TSPf.paso distancias) l TSPf.inicial = Ok st /\
    ((st = TSPf.inicial /\
      forall q, In q l -> (total_f distancias q <? infinity)%float = false) \/
     (exists p,
         In p l /\
         st = TSPf.Estado (Some (TSP.ruta_de p)) (total_f distancias p) /\
         (total_f distancias p <? infinity)%float = true)).
Proof.
  intros Hl HN.
  rewrite (foldM_ok _ (fun st p =>
             if (total_f distancias p <? TSPf.distancia_minima st)%float
             then TSPf.Estado (Some (TSP.ruta_de p)) (total_f distancias p)
             else st))
    by (intros s a Ha; apply paso_f_ok; auto).
  eexists. split; [reflexivity|].
  clear Hl. induction l as [|x l IH] using rev_ind.
  - left. split; [reflexivity | intros q []].
  - rewrite fold_left_app. cbn [fold_left].
    destruct IH as [[-> Hno]|(p & Hp & -> & Hinf)].
    + cbn [TSPf.distancia_minima TSPf.inicial].
      destruct (total_f distancias x <? infinity)%float eqn:E.
      * right. exists x. split; [apply in_or_app; right; now left|].
        split; [reflexivity | exact E].
      * left. split; [reflexivity|]. intros q Hq. apply in_app_or in Hq.
        destruct Hq as [Hq|[<-|[]]]; [now apply Hno | exact E].
    + cbn [TSPf.distancia_minima].
      destruct (total_f distancias x <? total_f distancias p)%float eqn:E.
      * right. exists x. split; [apply in_or_app; right; now left|].
        split; [reflexivity | exact (ltb_infinito _ _ E)].
      * right. exists p. split; [apply in_or_app; now left|].
        split; [reflexivity | exact Hinf].
Qed.

End RutasFloat.

(** C3, as stated, fails on a [float64] matrix: the only total of this
    valid matrix is [1e308 + 1e308 = inf], which is not below the initial
    [inf], and the cell ends with no route at all. *)
Lemma C3_contraejemplo :
  cuadrada_f TSPf.enorme /\
  Forall (Forall (fun x => (0 <=? x)%float = true)) TSPf.enorme /\
  (forall i, i < length TSPf.enorme ->
             distancia_f TSPf.enorme i i = 0%float) /\
  TSPf.resolver TSPf.enorme = Ok (TSPf.Estado None infinity).
Proof.
  split; [|split; [|split]].
  - repeat constructor.
  - repeat constructor.
  - intros i Hi. simpl in Hi. destruct i as [|[|i]]; try reflexivity; lia.
  - vm_compute. reflexivity.
Qed.

(** X14.  On a square [float64] matrix of size [N >= 1] the cell never
    raises, and it records a route exactly when some closed route has a
    computed total below [inf].  If none has, the cell ends as it started,
    with [mejor_ruta = None] and [distancia_minima = inf]; otherwise
    [mejor_ruta] closes a permutation of [{1..N-1}] and [distancia_minima]
    is the total computed for it, itself below [inf]. *)
Theorem X14_matriz_float (distancias : TSPf.matriz) :
  cuadrada_f distancias -> distancias <> [] ->
  exists st,
    TSPf.resolver distancias = Ok st /\
    ((st = TSPf.inicial /\
      forall q, Permutation (range 1 (length distancias)) q ->
                (total_f distancias q <? infinity)%float = false) \/
     (exists p,
         Permutation (range 1 (length distancias)) p /\
         st = TSPf.Estado (Some (TSP.ruta_de p)) (total_f distancias p) /\
         (total_f distancias p <? infinity)%float = true)).
Proof.
  intros Hc Hne. assert (HN := length_not_nil _ Hne).
  destruct (bucle_f distancias Hc (permutations (range 1 (length distancias))))
    as (st & E & Hst).
  - intros p Hp. now apply permutations_In.
  - exact HN.
  - exists st. split; [exact E|].
    destruct Hst as [[-> Hno]|(p & Hp & -> & Hinf)].
    + left. split; [reflexivity|]. intros q Hq. apply Hno.
      now apply permutations_In.
    + right. exists p. split; [now apply permutations_In|]. auto.
Qed.

Lemma X14_matriz_float_witness :
  exists st,
    TSPf.resolver TSPf.redondeada = Ok st /\
    ((st = TSPf.inicial /\
      forall q, Permutation (range 1 (length TSPf.redondeada)) q ->
                (total_f TSPf.redondeada q <? infinity)%float = false) \/
     (exists p,
         Permutation (range 1 (length TSPf.redondeada)) p /\
         st = TSPf.Estado (Some (TSP.ruta_de p)) (total_f TSPf.redondeada p) /\
         (total_f TSPf.redondeada p <? infinity)%float = true)).
Proof.
  apply (X14_matriz_float TSPf.redondeada).
  - repeat constructor.
  - discriminate.
Defined.

(** ** The recorded combination on Python's numbers *)

Lemma le_no_gt (a b : Py.num) : Py.le a b = true -> Py.gt a b = false.
Proof.
  unfold Py.le, Py.gt. now destruct (Py.comparar a b) as [[| |]|].
Qed.

Lemma getitem_Ok_nth {A : Type} (l : list A) (i : nat) (x d : A) :
  getitem l i = Ok x -> nth i l d = x.
Proof.
  unfold getitem. destruct (nth_error l i) as [y|] eqn:E; [|discriminate].
  intros H. inversion H; subst. now apply nth_error_nth.
Qed.

Lemma elegidos_py_incl (i : nat) (objetos : list MochilaPy.objeto) :
  forall j x, In x (elegidos_py i j objetos) -> In x objetos.
Proof.
  induction objetos as [|y r IH]; intros j x; simpl; [tauto|].
  destruct (Mochila.bit i j); simpl.
  - intros [H|H]; [now left | right; eapply IH; eauto].
  - intros H. right. eapply IH; eauto.
Qed.

Lemma elegidos_py_NoDup (i : nat) (objetos : list MochilaPy.objeto) :
  forall j, NoDup (map MochilaPy.idx_de objetos) ->
            NoDup (map MochilaPy.idx_de (elegidos_py i j objetos)).
Proof.
  induction objetos as [|y r IH]; intros j H; simpl; [constructor|].
  inversion H as [|? ? Hnot Hnd]; subst.
  destruct (Mochila.bit i j); simpl.
  - constructor; [|now apply IH].
    intros Hin. apply Hnot. apply in_map_iff in Hin.
    destruct Hin as (x & E & Hx). rewrite <- E. apply in_map.
    eapply elegidos_py_incl; eauto.
  - now apply IH.
Qed.

Section EvaluacionPy.

Variable objetos : list MochilaPy.objeto.
Variable P : list Py.num.
Variable C : Py.num.
Variable i : nat.

(** The inner loop either is abandoned, above the capacity, or has gone
    through every turn. *)
Lemma evaluar_py_casos (js : list nat) :
  forall ac ac',
    MochilaPy.evaluar objetos P C i js ac = Ok ac' ->
    Py.gt (MochilaPy.peso_total ac') C = true \/
    foldM (paso_completo_py objetos P i) js ac = Ok ac'.
Proof.
  induction js as [|j js IH]; intros ac ac' H.
  - right. exact H.
  - cbn [MochilaPy.evaluar] in H. cbn [foldM]. unfold paso_completo_py at 1.
    destruct (Mochila.bit i j); [|cbn [bind]; now apply IH].
    destruct (getitem objetos j) as [x|e]; [|discriminate].
    cbn [bind] in *.
    destruct (Py.add (MochilaPy.peso_total ac) (MochilaPy.peso_de x))
      as [w|e]; [|discriminate].
    cbn [bind] in *.
    destruct (getitem P (MochilaPy.idx_de x)) as [p|e]; [|discriminate].
    cbn [bind] in *.
    destruct (Py.add (MochilaPy.ganancia_total ac) p) as [g|e];
      [|discriminate].
    cbn [bind] in *.
    destruct (Py.gt w C) eqn:Egt.
    + left. inversion H; subst. exact Egt.
    + now apply IH.
Qed.

(** What the turns of a pattern add up, over the part [objs] of the ranked
    list that starts behind [pre]. *)
Lemma completo_py_desde (objs : list MochilaPy.objeto) :
  forall pre ac ac',
    objetos = pre ++ objs ->
    foldM (paso_completo_py objetos P i)
          (seq (length pre) (length objs)) ac = Ok ac' ->
    MochilaPy.seleccion ac'
    = MochilaPy.seleccion ac
      ++ map MochilaPy.idx_de (elegidos_py i (length pre) objs) /\
    sumar (MochilaPy.peso_total ac)
          (map MochilaPy.peso_de (elegidos_py i (length pre) objs))
    = Ok (MochilaPy.peso_total ac') /\
    sumar (MochilaPy.ganancia_total ac)
          (map (fun k => nth k P (Py.Int 0))
               (map MochilaPy.idx_de (elegidos_py i (length pre) objs)))
    = Ok (MochilaPy.ganancia_total ac').
Proof.
  induction objs as [|x r IH]; intros pre ac ac' E H.
  - simpl in H. inversion H; subst. simpl. rewrite app_nil_r. auto.
  - cbn [length seq foldM] in H. cbn [elegidos_py].
    assert (E' : objetos = (pre ++ [x]) ++ r)
      by (rewrite <- app_assoc; exact E).
    assert (Hl : length (pre ++ [x]) = S (length pre))
      by (rewrite length_app; simpl; lia).
    unfold paso_completo_py at 1 in H.
    destruct (Mochila.bit i (length pre)).
    + rewrite E in H at 1. rewrite getitem_medio in H. cbn [bind] in H.
      destruct (Py.add (MochilaPy.peso_total ac) (MochilaPy.peso_de x))
        as [w|e] eqn:Ew; [|discriminate].
      cbn [bind] in H.
      destruct (getitem P (MochilaPy.idx_de x)) as [p|e] eqn:Ep;
        [|discriminate].
      cbn [bind] in H.
      destruct (Py.add (MochilaPy.ganancia_total ac) p) as [g|e] eqn:Eg;
        [|discriminate].
      cbn [bind] in H. rewrite <- Hl in H.
      destruct (IH (pre ++ [x]) _ ac' E' H) as (Hs & Hw & Hg).
      rewrite Hl in Hs, Hw, Hg. cbn in Hs, Hw, Hg.
      cbn [map]. unfold sumar. cbn [foldM].
      rewrite (getitem_Ok_nth P _ p (Py.Int 0) Ep), Ew, Eg. cbn [bind].
      rewrite Hs, <- app_assoc. auto.
    + cbn [bind] in H. rewrite <- Hl in H.
      destruct (IH (pre ++ [x]) _ ac' E' H) as (Hs & Hw & Hg).
      rewrite Hl in Hs, Hw, Hg. auto.
Qed.

End EvaluacionPy.

(** What the loop over the patterns records, whatever the numbers. *)
Lemma enumerar_py_registrado (objetos : list MochilaPy.objeto)
  (P : list Py.num) (C : Py.num) (st : MochilaPy.mejor) :
  MochilaPy.enumerar objetos P C (length objetos) = Ok st ->
  st = MochilaPy.inicial \/
  exists i w,
    i < 2 ^ length objetos /\
    MochilaPy.mejor_combinacion st
    = Some (map MochilaPy.idx_de (elegidos_py i 0 objetos)) /\
    sumar (Py.Int 0) (map MochilaPy.peso_de (elegidos_py i 0 objetos))
    = Ok w /\
    Py.le w C = true /\
    sumar (Py.Int 0)
          (map (fun k => nth k P (Py.Int 0))
               (map MochilaPy.idx_de (elegidos_py i 0 objetos)))
    = Ok (MochilaPy.mejor_ganancia st).
Proof.
  unfold MochilaPy.enumerar. intros H.
  refine (foldM_inv _
            (fun st =>
               st = MochilaPy.inicial \/
               exists i w,
                 i < 2 ^ length objetos /\
                 MochilaPy.mejor_combinacion st
                 = Some (map MochilaPy.idx_de (elegidos_py i 0 objetos)) /\
                 sumar (Py.Int 0)
                       (map MochilaPy.peso_de (elegidos_py i 0 objetos))
                 = Ok w /\
                 Py.le w C = true /\
                 sumar (Py.Int 0)
                       (map (fun k => nth k P (Py.Int 0))
                            (map MochilaPy.idx_de (elegidos_py i 0 objetos)))
                 = Ok (MochilaPy.mejor_ganancia st))
            _ _ MochilaPy.inicial st (or_introl eq_refl) H).
  clear H st. intros s i s' Hi Hs Hpaso.
  unfold MochilaPy.paso in Hpaso.
  destruct (MochilaPy.evaluar objetos P C i (range 0 (length objetos))
                              MochilaPy.vacio) as [ac|e] eqn:Eev;
    [|discriminate].
  cbn [bind] in Hpaso.
  destruct (Py.le (MochilaPy.peso_total ac) C) eqn:Ele;
    [|simpl in Hpaso; inversion Hpaso; subst; exact Hs].
  destruct (Py.gt (MochilaPy.ganancia_total ac) (MochilaPy.mejor_ganancia s));
    [|simpl in Hpaso; inversion Hpaso; subst; exact Hs].
  simpl in Hpaso. inversion Hpaso; subst s'. clear Hpaso.
  right. exists i, (MochilaPy.peso_total ac).
  apply evaluar_py_casos in Eev.
  destruct Eev as [Hgt|Hc]; [rewrite (le_no_gt _ _ Ele) in Hgt; discriminate|].
  rewrite range_0 in Hc.
  destruct (completo_py_desde objetos P i objetos [] _ ac eq_refl Hc)
    as (Hsel & Hw & Hg).
  cbn in Hsel, Hw, Hg.
  split.
  - unfold range in Hi. apply in_seq in Hi.
    rewrite Nat.shiftl_1_l in Hi. lia.
  - cbn. rewrite Hsel. auto.
Qed.

(** The recorded combination is the selection of one pattern, in the order
    of the ranked list. *)
Lemma combinacion_de_un_patron (W P : list Py.num) (C g : Py.num)
  (objetos : list MochilaPy.objeto) (sel : list nat) :
  Permutation (etiquetados_py W P) objetos ->
  MochilaPy.enumerar objetos P C (length W)
  = Ok (MochilaPy.Mejor g (Some sel)) ->
  exists i, sel = map MochilaPy.idx_de (elegidos_py i 0 objetos).
Proof.
  intros Hperm H.
  assert (HN : length objetos = length W).
  { rewrite <- (Permutation_length Hperm). unfold etiquetados_py.
    now rewrite length_map, length_seq. }
  rewrite <- HN in H.
  apply enumerar_py_registrado in H.
  destruct H as [H|(i & w & _ & Hsel & _)]; [discriminate|].
  cbn in Hsel. inversion Hsel. eauto.
Qed.

(** X15.  Whatever the numbers, [int] or [float], and whatever the order
    in which the ranking has left the items: whenever the loop over the
    patterns finishes with a recorded combination, that combination lists
    the original indices of the set bits of one pattern in the order of the
    ranked list; its indices are pairwise distinct and lie in [[0, N)]; the
    weights [W[k]] over it, added from left to right in that order with
    Python's [+], give a total that is [<= C]; and the values [P[k]], added
    in the same way, give exactly the recorded [mejor_ganancia]. *)
Theorem X15_combinacion_registrada (W P : list Py.num) (C g : Py.num)
  (objetos : list MochilaPy.objeto) (sel : list nat) :
  Permutation (etiquetados_py W P) objetos ->
  MochilaPy.enumerar objetos P C (length W)
  = Ok (MochilaPy.Mejor g (Some sel)) ->
  exists i w,
    i < 2 ^ length W /\
    sel = map MochilaPy.idx_de (elegidos_py i 0 objetos) /\
    NoDup sel /\
    Forall (fun k => k < length W) sel /\
    sumar (Py.Int 0) (map (fun k => nth k W (Py.Int 0)) sel) = Ok w /\
    Py.le w C = true /\
    sumar (Py.Int 0) (map (fun k => nth k P (Py.Int 0)) sel) = Ok g.
Proof.
  intros Hperm H.
  assert (HN : length objetos = length W).
  { rewrite <- (Permutation_length Hperm). unfold etiquetados_py.
    now rewrite length_map, length_seq. }
  rewrite <- HN in H.
  apply enumerar_py_registrado in H.
  destruct H as [H|(i & w & Hi & Hsel & Hw & Hle & Hg)]; [discriminate|].
  cbn in Hsel, Hg. inversion Hsel; subst sel. clear Hsel.
  assert (Hidx : Permutation (seq 0 (length W))
                             (map MochilaPy.idx_de objetos)).
  { rewrite <- Hperm. unfold etiquetados_py. rewrite map_map. simpl.
    now rewrite map_id. }
  assert (Hin : forall x, In x objetos ->
                          MochilaPy.idx_de x < length W /\
                          MochilaPy.peso_de x
                          = nth (MochilaPy.idx_de x) W (Py.Int 0)).
  { intros x Hx. apply (Permutation_in _ (Permutation_sym Hperm)) in Hx.
    apply etiquetados_py_In in Hx. destruct Hx as (k & Hk & ->).
    split; [exact Hk | reflexivity]. }
  exists i, w. rewrite HN in Hi.
  split; [exact Hi|].
  split; [reflexivity|]. split; [|split; [|split; [|split]]].
  - apply elegidos_py_NoDup.
    apply (Permutation_NoDup Hidx). apply seq_NoDup.
  - apply Forall_forall. intros k Hk. apply in_map_iff in Hk.
    destruct Hk as (x & <- & Hx). apply Hin.
    eapply elegidos_py_incl; eauto.
  - rewrite map_map. rewrite <- Hw. f_equal.
    apply map_ext_in. intros x Hx. symmetry. apply Hin.
    eapply elegidos_py_incl; eauto.
  - exact Hle.
  - exact Hg.
Qed.

Lemma X15_combinacion_registrada_witness :
  exists i w,
    i < 2 ^ length MochilaPy.W_ejemplo /\
    [1; 0; 4]
    = map MochilaPy.idx_de
          (elegidos_py i 0
             [(Py.Int 7, Py.Int 1, 1); (Py.Int 4, Py.Float 1.5, 3);
              (Py.Int 5, Py.Int 2, 0); (Py.Int 10, Py.Int 4, 4);
              (Py.Int 5, Py.Int 3, 2)]) /\
    NoDup [1; 0; 4] /\
    Forall (fun k => k < length MochilaPy.W_ejemplo) [1; 0; 4] /\
    sumar (Py.Int 0)
          (map (fun k => nth k MochilaPy.W_ejemplo (Py.Int 0)) [1; 0; 4])
    = Ok w /\
    Py.le w MochilaPy.C_ejemplo = true /\
    sumar (Py.Int 0)
          (map (fun k => nth k MochilaPy.P_ejemplo (Py.Int 0)) [1; 0; 4])
    = Ok (Py.Int 22).
Proof.
  apply (X15_combinacion_registrada
           MochilaPy.W_ejemplo MochilaPy.P_ejemplo MochilaPy.C_ejemplo).
  - apply (ordenar_py_inv MochilaPy.W_ejemplo MochilaPy.P_ejemplo).
    vm_compute. reflexivity.
  - vm_compute. reflexivity.
Defined.

(** The notebook on its own lists: the recorded gain 22 is the optimum in
    exact arithmetic. *)
Example cuaderno_py_optimo :
  MochilaPy.resolver MochilaPy.W_ejemplo MochilaPy.P_ejemplo
                     MochilaPy.C_ejemplo
  = Ok (MochilaPy.Mejor (Py.Int 22) (Some [1; 0; 4])) /\
  forall S, subconjunto 5 S ->
            factible Mochila.W_ejemplo Mochila.C_ejemplo S ->
            (agregado Mochila.P_ejemplo S <= 22)%Q.
Proof.
  split; [vm_compute; reflexivity|].
  destruct (resolver_spec Mochila.W_ejemplo Mochila.P_ejemplo
                          Mochila.C_ejemplo) as (st & E & Hopt & _).
  - intros w Hw. simpl in Hw.
    repeat (destruct Hw as [<-|Hw]; [reflexivity|]). destruct Hw.
  - simpl. lia.
  - rewrite mochila_ejemplo in E. inversion E; subst st. exact Hopt.
Qed.

(** ** The order of the ranked list *)

(** [<] on binary64 numbers: two facts of its order. *)

Lemma SFltb_asim (x y : spec_float) : SFltb x y = true -> SFltb y x = false.
Proof.
  unfold SFltb, SFcompare.
  destruct x as [s|s| |s m e], y as [s'|s'| |s' m' e'];
    try destruct s; try destruct s'; cbn; try discriminate; try reflexivity;
    intros H; resolver_comparaciones.
Qed.

Lemma SFltb_cadena (x y z : spec_float) :
  y <> S754_nan ->
  SFltb x y = false -> SFltb y z = false -> SFltb x z = false.
Proof.
  unfold SFltb, SFcompare. intros Hy.
  destruct x as [s|s| |s m e], y as [s'|s'| |s' m' e'],
           z as [s''|s''| |s'' m'' e''];
    try congruence;
    try destruct s; try destruct s'; try destruct s''; cbn;
    try discriminate; try reflexivity;
    intros H1 H2; resolver_comparaciones.
Qed.

Lemma ltb_asim (a b : float) :
  (a <? b)%float = true -> (b <? a)%float = false.
Proof. rewrite !ltb_spec. apply SFltb_asim. Qed.

Lemma ltb_cadena (a b c : float) :
  (b =? b)%float = true ->
  (a <? b)%float = false -> (b <? c)%float = false ->
  (a <? c)%float = false.
Proof.
  rewrite eqb_spec, !ltb_spec. intros Hb. apply SFltb_cadena.
  intros E. rewrite E in Hb. discriminate.
Qed.

(** The insertion keeps the list sorted, and an item that came first in
    the original list stays first among those of an equal key. *)
Lemma insertar_py_estable (kx : float * MochilaPy.objeto)
  (l : list (float * MochilaPy.objeto)) :
  StronglySorted
    (fun a b => (fst a <? fst b)%float = false /\
                ((fst b <? fst a)%float = true \/
                 MochilaPy.idx_de (snd a) < MochilaPy.idx_de (snd b))) l ->
  Forall (fun b => MochilaPy.idx_de (snd kx) < MochilaPy.idx_de (snd b)) l ->
  Forall (fun b => (fst b =? fst b)%float = true) l ->
  StronglySorted
    (fun a b => (fst a <? fst b)%float = false /\
                ((fst b <? fst a)%float = true \/
                 MochilaPy.idx_de (snd a) < MochilaPy.idx_de (snd b)))
    (MochilaPy.insertar kx l).
Proof.
  induction 1 as [|ky r HS IH HF]; intros Hidx Hnan; simpl;
    [repeat constructor|].
  inversion Hidx as [|? ? Hky Hr]; subst.
  inversion Hnan as [|? ? Hnky Hnr]; subst.
  destruct (fst kx <? fst ky)%float eqn:E.
  - constructor; [now apply IH|].
    apply (Permutation_Forall (insertar_py_perm kx r)).
    constructor; [|exact HF].
    split; [now apply ltb_asim | now left].
  - constructor; [now constructor|].
    constructor; [split; [exact E | now right]|].
    rewrite Forall_forall in *. intros b Hb.
    split; [|right; now apply Hr].
    apply (ltb_cadena _ (fst ky)); [exact Hnky | exact E|].
    now apply HF.
Qed.

Lemma ordenar_desc_py_estable (l : list (float * MochilaPy.objeto)) :
  StronglySorted
    (fun a b => MochilaPy.idx_de (snd a) < MochilaPy.idx_de (snd b)) l ->
  Forall (fun b => (fst b =? fst b)%float = true) l ->
  StronglySorted
    (fun a b => (fst a <? fst b)%float = false /\
                ((fst b <? fst a)%float = true \/
                 MochilaPy.idx_de (snd a) < MochilaPy.idx_de (snd b)))
    (MochilaPy.ordenar_desc l).
Proof.
  induction 1 as [|kx r HS IH HF]; intros Hnan; simpl; [constructor|].
  inversion Hnan as [|? ? Hk Hr]; subst.
  apply insertar_py_estable.
  - now apply IH.
  - apply (Permutation_Forall (ordenar_desc_py_perm r)). exact HF.
  - apply (Permutation_Forall (ordenar_desc_py_perm r)). exact Hr.
Qed.

Lemma decorar_py_clave {A : Type} (key : A -> exc float) (l : list A) :
  forall dec, mapM (fun x => k <- key x ;; Ok (k, x)) l = Ok dec ->
              Forall (fun a => key (snd a) = Ok (fst a)) dec.
Proof.
  induction l as [|x r IH]; simpl; intros dec H.
  - inversion H. constructor.
  - destruct (key x) as [k|e] eqn:Ek; [|discriminate]. simpl in H.
    destruct (mapM _ r) as [dec'|e]; [|discriminate]. simpl in H.
    inversion H; subst. constructor; [exact Ek | now apply IH].
Qed.

Lemma StronglySorted_unica {A : Type} (R : A -> A -> Prop) :
  (forall a b, R a b -> R b a -> False) ->
  forall l l' : list A,
    Permutation l l' -> StronglySorted R l -> StronglySorted R l' -> l = l'.
Proof.
  intros Hasym. induction l as [|a l IH]; intros l' Hp Hs Hs'.
  - apply Permutation_nil in Hp. now subst.
  - destruct l' as [|a' l'].
    + apply Permutation_sym, Permutation_nil in Hp. discriminate.
    + inversion Hs as [|? ? Hsl Hfa]; subst.
      inversion Hs' as [|? ? Hsl' Hfa']; subst.
      rewrite Forall_forall in Hfa, Hfa'.
      assert (Ha : In a (a' :: l')).
      { apply (Permutation_in _ Hp). now left. }
      assert (Ha' : In a' (a :: l)).
      { apply (Permutation_in _ (Permutation_sym Hp)). now left. }
      assert (E : a = a').
      { destruct Ha as [E|Ha]; [now symmetry|].
        destruct Ha' as [E|Ha']; [exact E|].
        exfalso. exact (Hasym a a' (Hfa a' Ha') (Hfa' a Ha)). }
      subst a'. f_equal. apply IH; auto.
      now apply Permutation_cons_inv in Hp.
Qed.

Lemma antes_py_asim (x y : MochilaPy.objeto) :
  antes_py x y -> antes_py y x -> False.
Proof.
  intros (kx & ky & Ex & Ey & H1 & H2) (ky' & kx' & Ey' & Ex' & H3 & H4).
  rewrite Ex in Ex'. rewrite Ey in Ey'.
  inversion Ex'; inversion Ey'; subst kx' ky'.
  destruct H2 as [H2|H2]; [congruence|].
  destruct H4 as [H4|H4]; [congruence | lia].
Qed.

Lemma sin_nan_perm (l l' : list MochilaPy.objeto) :
  Permutation l l' -> sin_nan l = true -> sin_nan l' = true.
Proof.
  unfold sin_nan. rewrite !forallb_forall. intros Hp H x Hx.
  apply H. now apply (Permutation_in _ (Permutation_sym Hp)).
Qed.

Lemma ordenar_py_estable (W P : list Py.num)
  (objetos : list MochilaPy.objeto) :
  MochilaPy.ordenar W P = Ok objetos -> sin_nan objetos = true ->
  StronglySorted antes_py objetos.
Proof.
  intros H Hnan.
  assert (Hperm : Permutation (etiquetados_py W P) objetos)
    by now apply ordenar_py_inv in H.
  apply (sin_nan_perm _ _ (Permutation_sym Hperm)) in Hnan.
  unfold MochilaPy.ordenar in H.
  destruct (MochilaPy.lista_objetos W P) as [l|e] eqn:El; [|discriminate].
  apply lista_objetos_py_inv in El. destruct El as [Hlen ->]. cbn [bind] in H.
  unfold MochilaPy.sorted_reverse in H.
  destruct (mapM _ (etiquetados_py W P)) as [dec|e] eqn:Ed; [|discriminate].
  cbn [bind] in H. inversion H; subst. clear H.
  assert (Hsnd := decorar_py_snd _ _ _ Ed).
  assert (Hk := decorar_py_clave _ _ _ Ed).
  assert (Hnan' : Forall (fun b => (fst b =? fst b)%float = true) dec).
  { rewrite Forall_forall in *. intros a Ha.
    unfold sin_nan in Hnan. rewrite forallb_forall in Hnan.
    assert (Hin : In (snd a) (etiquetados_py W P))
      by (rewrite <- Hsnd; now apply in_map).
    specialize (Hnan _ Hin). now rewrite (Hk a Ha) in Hnan. }
  apply (StronglySorted_map_inv
           (fun a b => (fst a <? fst b)%float = false /\
                       ((fst b <? fst a)%float = true \/
                        MochilaPy.idx_de (snd a) < MochilaPy.idx_de (snd b)))
           antes_py
           (fun a => MochilaPy.clave (snd a) = Ok (fst a))).
  - intros a b Ha Hb [H1 H2]. exists (fst a), (fst b). auto.
  - apply (Permutation_Forall (ordenar_desc_py_perm _)). exact Hk.
  - apply ordenar_desc_py_estable; [|exact Hnan'].
    apply (StronglySorted_of_map lt (fun a => MochilaPy.idx_de (snd a))).
    rewrite <- (map_map snd MochilaPy.idx_de), Hsnd.
    unfold etiquetados_py. rewrite map_map. simpl. rewrite map_id.
    replace (length W) with (length W - 0) by lia.
    apply (range_sorted 0 (length W)).
Qed.

(** X11.  The ranking is a stable descending sort on the [float] keys
    [x[0] / x[1]].  Whenever it returns and no key is a NaN, the ranked list
    is a permutation of the items in which an item stands before another
    only if its key is not below the other's and, unless its key is above,
    its original index is smaller; and it is the only arrangement of the
    items in that order. *)
Theorem X11_orden_estable (W P : list Py.num)
  (objetos : list MochilaPy.objeto) :
  MochilaPy.ordenar W P = Ok objetos -> sin_nan objetos = true ->
  Permutation (etiquetados_py W P) objetos /\
  StronglySorted antes_py objetos /\
  (forall l, Permutation (etiquetados_py W P) l ->
             StronglySorted antes_py l -> l = objetos).
Proof.
  intros H Hnan.
  assert (Hperm : Permutation (etiquetados_py W P) objetos)
    by now apply ordenar_py_inv in H.
  assert (Hsorted := ordenar_py_estable W P objetos H Hnan).
  split; [exact Hperm|]. split; [exact Hsorted|].
  intros l Hl Hsl.
  apply (StronglySorted_unica antes_py antes_py_asim); auto.
  now rewrite <- Hl.
Qed.

Lemma X11_orden_estable_witness :
  Permutation (etiquetados_py MochilaPy.W_ejemplo MochilaPy.P_ejemplo)
              [(Py.Int 7, Py.Int 1, 1); (Py.Int 4, Py.Float 1.5, 3);
               (Py.Int 5, Py.Int 2, 0); (Py.Int 10, Py.Int 4, 4);
               (Py.Int 5, Py.Int 3, 2)] /\
  StronglySorted antes_py
                 [(Py.Int 7, Py.Int 1, 1); (Py.Int 4, Py.Float 1.5, 3);
                  (Py.Int 5, Py.Int 2, 0); (Py.Int 10, Py.Int 4, 4);
                  (Py.Int 5, Py.Int 3, 2)] /\
  (forall l,
      Permutation (etiquetados_py MochilaPy.W_ejemplo MochilaPy.P_ejemplo) l ->
      StronglySorted antes_py l ->
      l = [(Py.Int 7, Py.Int 1, 1); (Py.Int 4, Py.Float 1.5, 3);
           (Py.Int 5, Py.Int 2, 0); (Py.Int 10, Py.Int 4, 4);
           (Py.Int 5, Py.Int 3, 2)]).
Proof.
  apply (X11_orden_estable MochilaPy.W_ejemplo MochilaPy.P_ejemplo).
  - vm_compute. reflexivity.
  - vm_compute. reflexivity.
Defined.

Lemma elegidos_py_sorted (R : MochilaPy.objeto -> MochilaPy.objeto -> Prop)
  (i : nat) (objetos : list MochilaPy.objeto) :
  StronglySorted R objetos ->
  forall j, StronglySorted R (elegidos_py i j objetos).
Proof.
  induction 1 as [|x r HS IH HF]; intros j; simpl; [constructor|].
  destruct (Mochila.bit i j); [|apply IH].
  constructor; [apply IH|].
  rewrite Forall_forall in *. intros y Hy. apply HF.
  eapply elegidos_py_incl; eauto.
Qed.

(** X13.  A recorded combination lists its original indices in ranking
    order, not in increasing order: whenever the notebook finishes with a
    recorded combination and no key of the ranking is a NaN, along
    [mejor_combinacion] the [float] keys [P[k] / W[k]] never go up, and of
    two indices with equal keys the smaller one comes first. *)
Theorem X13_combinacion_en_orden_de_razon (W P : list Py.num) (C g : Py.num)
  (sel : list nat) :
  MochilaPy.resolver W P C = Ok (MochilaPy.Mejor g (Some sel)) ->
  sin_nan (etiquetados_py W P) = true ->
  StronglySorted
    (fun i j => antes_py (objeto_de W P i) (objeto_de W P j)) sel.
Proof.
  unfold MochilaPy.resolver. intros H Hnan.
  destruct (MochilaPy.ordenar W P) as [objetos|e] eqn:Eo; [|discriminate].
  cbn [bind] in H.
  destruct (ordenar_py_inv W P objetos Eo) as (Hlen & Hperm & _).
  assert (Hsorted := ordenar_py_estable W P objetos Eo
                       (sin_nan_perm _ _ Hperm Hnan)).
  destruct (combinacion_de_un_patron W P C g objetos sel Hperm H)
    as (i & Hsel).
  subst sel.
  apply (StronglySorted_map_inv
           antes_py
           (fun i j => antes_py (objeto_de W P i) (objeto_de W P j))
           (fun x => x = objeto_de W P (MochilaPy.idx_de x))).
  - intros a b Ha Hb Hab. now rewrite <- Ha, <- Hb.
  - apply Forall_forall. intros x Hx.
    apply elegidos_py_incl in Hx.
    apply (Permutation_in _ (Permutation_sym Hperm)) in Hx.
    apply etiquetados_py_In in Hx. destruct Hx as (k & _ & ->). reflexivity.
  - now apply elegidos_py_sorted.
Qed.

Lemma X13_combinacion_en_orden_de_razon_witness :
  StronglySorted
    (fun i j => antes_py (objeto_de MochilaPy.W_ejemplo MochilaPy.P_ejemplo i)
                         (objeto_de MochilaPy.W_ejemplo MochilaPy.P_ejemplo j))
    [1; 0; 4].
Proof.
  apply (X13_combinacion_en_orden_de_razon
           MochilaPy.W_ejemplo MochilaPy.P_ejemplo MochilaPy.C_ejemplo
           (Py.Int 22)).
  - vm_compute. reflexivity.
  - vm_compute. reflexivity.
Defined.

(** ** Ties between selections *)

(** A loop that replaces its best only by a candidate that fits and is
    strictly better keeps the first candidate that reaches the best. *)
Section PrimerMaximo.

Variables w g : nat -> Q.
Variable sel : nat -> list nat.
Variable C : Q.

Let paso_abs (st : Mochila.mejor) (i : nat) : Mochila.mejor :=
  if Qle_bool (w i) C && Mochila.Qlt_bool (Mochila.mejor_ganancia st) (g i)
  then Mochila.Mejor (g i) (Some (sel i))
  else st.

Lemma primer_maximo (l : list nat) :
  (fold_left paso_abs l Mochila.inicial = Mochila.inicial /\
   forall j, In j l -> (w j <= C)%Q -> (g j <= 0)%Q) \/
  (exists pre i post,
      l = pre ++ i :: post /\
      fold_left paso_abs l Mochila.inicial
      = Mochila.Mejor (g i) (Some (sel i)) /\
      (w i <= C)%Q /\ (0 < g i)%Q /\
      (forall j, In j pre -> (w j <= C)%Q -> (g j < g i)%Q) /\
      (forall j, In j post -> (w j <= C)%Q -> (g j <= g i)%Q)).
Proof.
  induction l as [|x l IH] using rev_ind.
  - left. split; [reflexivity | intros j []].
  - rewrite fold_left_app. cbn [fold_left].
    destruct IH
      as [[E Hall]|(pre & i & post & E & Est & Hf & Hp & Hpre & Hpost)].
    + rewrite E. unfold paso_abs. cbn [Mochila.mejor_ganancia Mochila.inicial].
      destruct (Qle_bool (w x) C) eqn:E1;
        destruct (Mochila.Qlt_bool 0 (g x)) eqn:E2; cbn [andb].
      * right. exists l, x, []. apply Qle_bool_iff in E1.
        apply Qlt_bool_iff in E2.
        split; [reflexivity|]. split; [reflexivity|].
        split; [exact E1|]. split; [exact E2|]. split.
        -- intros j Hj Hfj. specialize (Hall j Hj Hfj). lra.
        -- intros j [].
      * left. split; [reflexivity|]. intros j Hj Hfj.
        apply in_app_or in Hj. destruct Hj as [Hj|[<-|[]]].
        -- now apply Hall.
        -- unfold Mochila.Qlt_bool in E2. apply negb_false_iff in E2.
           now apply Qle_bool_iff in E2.
      * left. split; [reflexivity|]. intros j Hj Hfj.
        apply in_app_or in Hj. destruct Hj as [Hj|[<-|[]]].
        -- now apply Hall.
        -- apply Qle_bool_iff in Hfj. congruence.
      * left. split; [reflexivity|]. intros j Hj Hfj.
        apply in_app_or in Hj. destruct Hj as [Hj|[<-|[]]].
        -- now apply Hall.
        -- apply Qle_bool_iff in Hfj. congruence.
    + right. rewrite Est. unfold paso_abs. cbn [Mochila.mejor_ganancia].
      assert (Hkeep :
                (w x <= C -> g x <= g i)%Q ->
                exists pre0 i0 post0,
                  l ++ [x] = pre0 ++ i0 :: post0 /\
                  Mochila.Mejor (g i) (Some (sel i))
                  = Mochila.Mejor (g i0) (Some (sel i0)) /\
                  (w i0 <= C)%Q /\ (0 < g i0)%Q /\
                  (forall j, In j pre0 -> (w j <= C)%Q -> (g j < g i0)%Q) /\
                  (forall j, In j post0 -> (w j <= C)%Q -> (g j <= g i0)%Q)).
      { intros Hx. exists pre, i, (post ++ [x]).
        split; [rewrite E; now rewrite <- app_assoc|].
        split; [reflexivity|]. split; [exact Hf|]. split; [exact Hp|].
        split; [exact Hpre|].
        intros j Hj Hfj. apply in_app_or in Hj.
        destruct Hj as [Hj|[<-|[]]]; [now apply Hpost | now apply Hx]. }
      destruct (Qle_bool (w x) C) eqn:E1;
        destruct (Mochila.Qlt_bool (g i) (g x)) eqn:E2; cbn [andb].
      * exists l, x, []. apply Qle_bool_iff in E1. apply Qlt_bool_iff in E2.
        split; [reflexivity|]. split; [reflexivity|].
        split; [exact E1|]. split; [lra|]. split.
        -- intros j Hj Hfj. rewrite E in Hj. apply in_app_or in Hj.
           destruct Hj as [Hj|[<-|Hj]].
           ++ specialize (Hpre j Hj Hfj). lra.
           ++ exact E2.
           ++ specialize (Hpost j Hj Hfj). lra.
        -- intros j [].
      * apply Hkeep. intros _.
        unfold Mochila.Qlt_bool in E2. apply negb_false_iff in E2.
        now apply Qle_bool_iff in E2.
      * apply Hkeep. intros Hfx. apply Qle_bool_iff in Hfx. congruence.
      * apply Hkeep. intros Hfx. apply Qle_bool_iff in Hfx. congruence.
Qed.

End PrimerMaximo.

Lemma seq_partes (n : nat) (pre : list nat) (i : nat) (post : list nat) :
  seq 0 n = pre ++ i :: post ->
  i < n /\
  (forall j, j < n -> j < i -> In j pre) /\
  (forall j, In j pre -> j < i).
Proof.
  intros E.
  assert (Hs : StronglySorted lt (pre ++ i :: post)).
  { rewrite <- E. replace n with (n - 0) by lia. apply (range_sorted 0 n). }
  apply StronglySorted_app_l in Hs. destruct Hs as (_ & Hs & Hlt).
  inversion Hs as [|? ? _ Hpost]; subst. rewrite Forall_forall in Hpost.
  assert (Hin : forall j, j < n -> In j pre \/ j = i \/ In j post).
  { intros j Hj. assert (H : In j (seq 0 n)) by (apply in_seq; lia).
    rewrite E in H. apply in_app_or in H. destruct H as [H|[H|H]]; auto. }
  assert (Hi : In i (seq 0 n)) by (rewrite E; apply in_elt).
  apply in_seq in Hi. repeat split.
  - lia.
  - intros j Hj Hji. destruct (Hin j Hj) as [H|[H|H]].
    + exact H.
    + lia.
    + specialize (Hpost j H). lia.
  - intros j Hj. apply Hlt; [exact Hj | now left].
Qed.

(** In exact arithmetic, over weights that are not negative, the loop keeps
    the first pattern that fits and reaches the best gain. *)
Lemma enumerar_primer_patron (W P : list Q) (C : Q)
  (objetos : list Mochila.objeto) (st : Mochila.mejor) :
  length W <= length P -> Permutation (etiquetados W P) objetos ->
  Forall (fun w => 0 <= w)%Q W ->
  Mochila.enumerar objetos P C (length W) = Ok st ->
  st = Mochila.inicial \/
  exists i,
    i < 2 ^ length W /\
    st = Mochila.Mejor (Mochila.ganancia_total (completo objetos P i))
                       (Some (Mochila.seleccion (completo objetos P i))) /\
    (Mochila.peso_total (completo objetos P i) <= C)%Q /\
    forall j, j < 2 ^ length W ->
              (Mochila.peso_total (completo objetos P j) <= C)%Q ->
              (Mochila.ganancia_total (completo objetos P j)
               <= Mochila.ganancia_total (completo objetos P i))%Q /\
              (j < i ->
               (Mochila.ganancia_total (completo objetos P j)
                < Mochila.ganancia_total (completo objetos P i))%Q).
Proof.
  intros Hlen Hperm Hpos H.
  assert (Hidx := objetos_idx W P objetos Hlen Hperm).
  assert (Hpos' : Forall (fun x => 0 <= Mochila.peso_de x)%Q objetos).
  { apply Forall_forall. intros x Hx.
    destruct (objetos_In W P objetos Hperm x Hx) as [Hi ->].
    rewrite Forall_forall in Hpos. apply Hpos. now apply nth_In. }
  unfold Mochila.enumerar, Mochila.enumerar_con in H.
  rewrite <- (objetos_length W P objetos Hperm) in H.
  rewrite (foldM_ok _ (paso_puro objetos P C)) in H
    by (intros s a _; now apply paso_sin_break).
  rewrite (objetos_length W P objetos Hperm) in H.
  rewrite range_0, Nat.shiftl_1_l in H.
  inversion H as [Hst]. clear H.
  destruct (primer_maximo
              (fun j => Mochila.peso_total (completo objetos P j))
              (fun j => Mochila.ganancia_total (completo objetos P j))
              (fun j => Mochila.seleccion (completo objetos P j))
              C (seq 0 (2 ^ length W)))
    as [[E _]|(pre & i & post & El & E & Hf & _ & Hpre & Hpost)].
  - left. exact E.
  - right. exists i.
    destruct (seq_partes _ _ _ _ El) as (Hi & Hin & Hlt).
    split; [exact Hi|]. split; [exact E|]. split; [exact Hf|].
    intros j Hj Hfj.
    assert (Hcases : In j pre \/ j = i \/ In j post).
    { assert (Hjs : In j (seq 0 (2 ^ length W))) by (apply in_seq; lia).
      rewrite El in Hjs. apply in_app_or in Hjs.
      destruct Hjs as [?|[?|?]]; auto. }
    split.
    + destruct Hcases as [Hc|[->|Hc]].
      * apply Qlt_le_weak. now apply Hpre.
      * apply Qle_refl.
      * now apply Hpost.
    + intros Hji. apply Hpre; [|exact Hfj]. now apply Hin.
Qed.

Lemma elegidos_enteros (i : nat) (objs : list objeto_z) :
  forall j,
    map Mochila.idx_de (elegidos i j (map a_q objs))
    = map MochilaPy.idx_de (elegidos_py i j (map a_py objs)).
Proof.
  induction objs as [|x r IH]; intros j; simpl; [reflexivity|].
  destruct (Mochila.bit i j); simpl; now rewrite IH.
Qed.

(** X10.  Ties between selections are broken by the order of the patterns
    over the ranked list.  On integer weights that are not negative, with
    integer values and capacity: whenever the notebook finishes with a
    recorded combination, it is the selection of the smallest pattern [i]
    among those that fit the capacity and reach the best gain - every
    pattern that fits gains at most as much, and every smaller one that
    fits gains strictly less. *)
Theorem X10_primer_patron (Wz Pz : list Z) (Cz g : Z)
  (objetos : list MochilaPy.objeto) (sel : list nat) :
  (forall w, In w Wz -> (0 <= w)%Z) ->
  MochilaPy.ordenar (enteros Wz) (enteros Pz) = Ok objetos ->
  MochilaPy.resolver (enteros Wz) (enteros Pz) (Py.Int Cz)
  = Ok (MochilaPy.Mejor (Py.Int g) (Some sel)) ->
  exists i,
    i < 2 ^ length Wz /\
    sel = seleccion_de objetos i /\
    (agregado_z Wz sel <= Cz)%Z /\
    agregado_z Pz sel = g /\
    forall j, j < 2 ^ length Wz ->
              (agregado_z Wz (seleccion_de objetos j) <= Cz)%Z ->
              (agregado_z Pz (seleccion_de objetos j) <= g)%Z /\
              (j < i -> (agregado_z Pz (seleccion_de objetos j) < g)%Z).
Proof.
  intros Hpos Hord Hres.
  destruct (ordenar_enteros_inv Wz Pz objetos Hord)
    as (Hlen & objs & -> & Hperm).
  unfold MochilaPy.resolver in Hres. rewrite Hord in Hres.
  cbn [bind] in Hres.
  replace (length (enteros Wz)) with (length Wz) in Hres
    by (unfold enteros; now rewrite length_map).
  destruct (enteros_formados Wz Pz objs Hlen Hperm) as [HlenQ HpermQ].
  assert (Hsim := enumerar_entero objs Pz Cz (length Wz)).
  rewrite Hres in Hsim.
  destruct (Mochila.enumerar _ _ _ _) as [stq|e] eqn:Eq; [|contradiction].
  destruct Hsim as (g' & E1 & E2 & E3). cbn in E1, E3.
  inversion E1; subst g'. clear E1.
  assert (HposQ : Forall (fun w => 0 <= w)%Q (map inject_Z Wz)).
  { apply Forall_forall. intros w Hw. apply in_map_iff in Hw.
    destruct Hw as (z & <- & Hz). change 0%Q with (inject_Z 0).
    rewrite <- Zle_Qle. now apply Hpos. }
  rewrite <- (length_map inject_Z Wz) in Eq.
  destruct (enumerar_primer_patron _ _ _ _ _ HlenQ HpermQ HposQ Eq)
    as [->|(i & Hi & Est & Hf & Hall)]; [discriminate|].
  rewrite length_map in Hi, Hall.
  assert (Hsel : forall j,
             Mochila.seleccion
               (completo (map a_q objs) (map inject_Z Pz) j)
             = seleccion_de (map a_py objs) j).
  { intros j.
    rewrite completo_seleccion. apply elegidos_enteros. }
  assert (Hw : forall j,
             (Mochila.peso_total
                (completo (map a_q objs) (map inject_Z Pz) j)
              == inject_Z (agregado_z Wz (seleccion_de (map a_py objs) j)))%Q).
  { intros j. rewrite <- agregado_enteros, <- Hsel.
    now apply completo_peso. }
  assert (Hg : forall j,
             (Mochila.ganancia_total
                (completo (map a_q objs) (map inject_Z Pz) j)
              == inject_Z (agregado_z Pz (seleccion_de (map a_py objs) j)))%Q).
  { intros j. rewrite <- agregado_enteros, <- Hsel.
    apply completo_ganancia. }
  rewrite Est in E2, E3. cbn in E2, E3.
  injection E3 as Esel. rewrite Hsel in Esel.
  assert (Hgi : g = agregado_z Pz (seleccion_de (map a_py objs) i)).
  { apply inject_Z_injective. rewrite <- E2. apply Hg. }
  exists i. split; [exact Hi|]. split; [exact Esel|].
  rewrite Esel. split; [|split].
  - rewrite Zle_Qle, <- Hw. exact Hf.
  - now symmetry.
  - intros j Hj Hfj.
    destruct (Hall j Hj) as [Hle Hlt].
    { rewrite Hw. now rewrite <- Zle_Qle. }
    rewrite !Hg in Hle, Hlt. rewrite Hgi. split.
    + now rewrite Zle_Qle.
    + intros Hji. rewrite Zlt_Qlt. now apply Hlt.
Qed.

Lemma X10_primer_patron_witness :
  exists i,
    i < 2 ^ length [2; 1; 2]%Z /\
    [1; 0]
    = seleccion_de [(Py.Int 7, Py.Int 1, 1); (Py.Int 5, Py.Int 2, 0);
                    (Py.Int 5, Py.Int 2, 2)] i /\
    Z.le (agregado_z [2; 1; 2]%Z [1; 0]) 3%Z /\
    agregado_z [5; 7; 5]%Z [1; 0] = 12%Z /\
    forall j, j < 2 ^ length [2; 1; 2]%Z ->
      Z.le (agregado_z [2; 1; 2]%Z
              (seleccion_de
                 [(Py.Int 7, Py.Int 1, 1); (Py.Int 5, Py.Int 2, 0);
                  (Py.Int 5, Py.Int 2, 2)] j))
           3%Z ->
      Z.le (agregado_z [5; 7; 5]%Z
              (seleccion_de
                 [(Py.Int 7, Py.Int 1, 1); (Py.Int 5, Py.Int 2, 0);
                  (Py.Int 5, Py.Int 2, 2)] j))
           12%Z /\
      (j < i ->
       Z.lt (agregado_z [5; 7; 5]%Z
               (seleccion_de
                  [(Py.Int 7, Py.Int 1, 1); (Py.Int 5, Py.Int 2, 0);
                   (Py.Int 5, Py.Int 2, 2)] j))
            12%Z).
Proof.
  apply (X10_primer_patron [2; 1; 2]%Z [5; 7; 5]%Z 3 12).
  - intros w Hw. simpl in Hw.
    repeat (destruct Hw as [<-|Hw]; [discriminate|]). destruct Hw.
  - vm_compute. reflexivity.
  - vm_compute. reflexivity.
Defined.

(** Two selections of the same gain: [{1, 0}] and [{1, 2}] both weigh 3 and
    gain 12; the pattern of the first one is the smaller. *)
Example empate_de_selecciones :
  MochilaPy.resolver (enteros [2; 1; 2]%Z) (enteros [5; 7; 5]%Z) (Py.Int 3)
  = Ok (MochilaPy.Mejor (Py.Int 12) (Some [1; 0])) /\
  agregado_z [5; 7; 5]%Z [1; 2] = 12%Z /\
  agregado_z [2; 1; 2]%Z [1; 2] = 3%Z.
Proof. repeat split; vm_compute; reflexivity. Qed.

(** ** Python's arithmetic and exact arithmetic on integers *)

(** X16.  On positive integer weights, with integer values and capacity,
    the rounding of the ranking keys to [float] does not change the
    result: whenever the ranking returns, the notebook ends with the best
    gain that it has in exact arithmetic, where the items are ranked by
    their exact ratios, and it records a combination exactly when the exact
    run records one. *)
Theorem X16_enteros_exactos (Wz Pz : list Z) (Cz : Z)
  (objetos : list MochilaPy.objeto) :
  (forall w, In w Wz -> (0 < w)%Z) ->
  MochilaPy.ordenar (enteros Wz) (enteros Pz) = Ok objetos ->
  exists g c1 gq c2,
    MochilaPy.resolver (enteros Wz) (enteros Pz) (Py.Int Cz)
    = Ok (MochilaPy.Mejor (Py.Int g) c1) /\
    Mochila.resolver (map inject_Z Wz) (map inject_Z Pz) (inject_Z Cz)
    = Ok (Mochila.Mejor gq c2) /\
    (gq == inject_Z g)%Q /\
    (c1 = None <-> c2 = None).
Proof.
  intros Hpos Hord.
  assert (Hpos' : forall w, In w Wz -> (0 <= w)%Z).
  { intros w Hw. specialize (Hpos w Hw). lia. }
  destruct (resolver_entero Wz Pz Cz objetos Hord)
    as (objs & Hlen & Hperm & ->).
  destruct (enumerar_entero_registrado Wz Pz objs Hlen Hperm Cz)
    as (g & c1 & E1 & Hreg).
  assert (Hopt := enumerar_entero_optimo Wz Pz objs Hlen Hperm Cz g c1
                    Hpos' E1).
  destruct (resolver_spec (map inject_Z Wz) (map inject_Z Pz) (inject_Z Cz))
    as ([gq c2] & Eq & HoptQ & HregQ).
  { intros w Hw. apply in_map_iff in Hw. destruct Hw as (z & <- & Hz).
    change 0%Q with (inject_Z 0). rewrite <- Zlt_Qlt. now apply Hpos. }
  { now rewrite !length_map. }
  rewrite length_map in HoptQ, HregQ. cbn in HoptQ, HregQ.
  exists g, c1, gq, c2. split; [exact E1|]. split; [exact Eq|].
  assert (Hg0 : (0 <= g)%Z).
  { destruct Hreg as [[-> _]|(_ & _ & _ & _ & Hp & _)]; lia. }
  assert (Hq0 : (0 <= gq)%Q).
  { destruct HregQ as [H|(_ & _ & _ & _ & Hp & _)].
    - inversion H. apply Qle_refl.
    - now apply Qlt_le_weak. }
  assert (Hg : (gq == inject_Z g)%Q).
  { apply Qle_antisym.
    - destruct HregQ as [H|(sel & _ & Hs & Hf & _ & Hv)].
      + inversion H. change 0%Q with (inject_Z 0). now rewrite <- Zle_Qle.
      + rewrite Hv, agregado_enteros, <- Zle_Qle. apply Hopt; [exact Hs|].
        unfold factible in Hf. rewrite agregado_enteros in Hf.
        now rewrite Zle_Qle.
    - destruct Hreg as [[-> _]|(sel & _ & Hs & Hf & _ & ->)].
      + exact Hq0.
      + rewrite <- agregado_enteros. apply HoptQ; [exact Hs|].
        unfold factible. rewrite agregado_enteros. now rewrite <- Zle_Qle. }
  split; [exact Hg|].
  destruct Hreg as [[-> ->]|(s1 & -> & _ & _ & Hp1 & _)];
    destruct HregQ as [H|(s2 & H & _ & _ & Hp2 & _)];
    inversion H; subst.
  - tauto.
  - exfalso. rewrite Hg in Hp2. exact (Qlt_irrefl _ Hp2).
  - exfalso. rewrite Zlt_Qlt, <- Hg in Hp1. exact (Qlt_irrefl _ Hp1).
  - split; discriminate.
Qed.

Lemma X16_enteros_exactos_witness :
  exists g c1 gq c2,
    MochilaPy.resolver (enteros [1; 1]%Z)
                       (enteros [10 ^ 17; 10 ^ 17 + 1]%Z) (Py.Int 1)
    = Ok (MochilaPy.Mejor (Py.Int g) c1) /\
    Mochila.resolver (map inject_Z [1; 1]%Z)
                     (map inject_Z [10 ^ 17; 10 ^ 17 + 1]%Z) (inject_Z 1)
    = Ok (Mochila.Mejor gq c2) /\
    (gq == inject_Z g)%Q /\
    (c1 = None <-> c2 = None).
Proof.
  apply (X16_enteros_exactos
           [1; 1]%Z [10 ^ 17; 10 ^ 17 + 1]%Z 1
           [(Py.Int (10 ^ 17), Py.Int 1, 0);
            (Py.Int (10 ^ 17 + 1), Py.Int 1, 1)]).
  - intros w Hw. simpl in Hw. destruct Hw as [<-|[<-|[]]]; reflexivity.
  - vm_compute. reflexivity.
Defined.
